(** * markdownlang: the execution engine, embedded and verified

    A shallow embedding of [src/parser.ts], [src/runner.ts] and the
    commands of [cli.ts]: the schema normaliser
    [prepareSchemaForStrictMode], the template renderer [renderTemplate],
    the program parser [parseSource] / [parse], the agentic loop [run]
    with [resolveImportedTools] and [executeToolCall], and the actions of
    the commands [run] and [parse].

    Conventions of the embedding.
    - A JavaScript string is a [string] holding the UTF-8 encoding of its
      text, one [ascii] per byte.  The white space of the regular
      expression class [\s] and of [String.prototype.trim] is then one,
      two or three bytes long ([space1], [space2], [space3]); a word
      character of [\w] is a single byte.  Where the code counts code
      units ([indexOf], [slice]) the offsets of the model are byte
      offsets, which name the same cuts of the text.  The characters of
      a string as [Object.entries] lists them ([chars]) are its bytes,
      which is exact on ASCII text.
    - A JavaScript value that YAML or JSON text can denote is a [value].
      Numbers are the integers ([Z]); fractions, NaN and the infinities are
      outside the model.
    - An ordinary object is the list of its own enumerable properties in
      the order [Object.entries] reports them: array-index keys first, in
      ascending numeric order, then the other keys in insertion order.
    - A [throw] is the [Throw] constructor of [completion]; the libraries the
      program calls (js-yaml, node:fs, node:path, JSON.parse, the OpenAI
      client) are the fields of a [Runtime] record, about which nothing
      is assumed.  Constructing the client, [new OpenAI()], is taken to
      succeed.
    - The errors the program raises itself are [Error] values told apart
      by their message: [invalid] for a malformed program, [no_imports],
      [unknown_tool], [no_content] and [iteration_limit] in the loop.  A
      final answer that is not JSON is the [SyntaxError] of [JSON.parse],
      a missing file the [FsError] of [fs.readFileSync]. *)

From Stdlib Require Import List String Ascii ZArith NArith Bool Lia Arith.
From Stdlib Require Import DecimalString.
Import ListNotations.
Local Open Scope string_scope.
Local Open Scope list_scope.

(* ================================================================= *)
(** ** Exceptions and completions *)

Inductive exn : Type :=
| TypeError                    (* raised by the language itself *)
| SyntaxError                  (* raised by [JSON.parse] *)
| YAMLException                (* raised by [yaml.load] *)
| FsError                      (* raised by [fs.readFileSync] *)
| APIError                     (* raised by the OpenAI client *)
| Error (message : string).    (* [new Error(message)] *)

Inductive completion (A : Type) : Type :=
| Ok (a : A)
| Throw (e : exn).
Arguments Ok {A} a.
Arguments Throw {A} e.

Definition bind {A B : Type} (r : completion A) (k : A -> completion B) : completion B :=
  match r with
  | Ok a => k a
  | Throw e => Throw e
  end.

Notation "'let*' x ':=' r 'in' k" := (bind r (fun x => k))
  (at level 10, x pattern, r at level 100, k at level 200).

Fixpoint mapM {A B : Type} (f : A -> completion B) (l : list A) : completion (list B) :=
  match l with
  | [] => Ok []
  | a :: l' =>
      let* b := f a in
      let* bs := mapM f l' in
      Ok (b :: bs)
  end.

(* ================================================================= *)
(** ** JavaScript values *)

Local Unset Elimination Schemes.
Inductive value : Type :=
| VNull
| VBool (b : bool)
| VNum (n : Z)
| VStr (s : string)
| VArr (elements : list value)
| VObj (properties : list (string * value)).
Local Set Elimination Schemes.

Definition obj : Type := list (string * value).

(** Nesting depth, the measure along which the recursive functions on
    values descend. *)
Fixpoint height (v : value) : nat :=
  match v with
  | VArr l => S (list_max (map height l))
  | VObj o => S (list_max (map (fun kv => height (snd kv)) o))
  | _ => 0
  end.

(** [!v] is [negb (truthy v)]. *)
Definition truthy (v : value) : bool :=
  match v with
  | VNull => false
  | VBool b => b
  | VNum n => negb (n =? 0)%Z
  | VStr s => negb (s =? "")
  | VArr _ | VObj _ => true
  end.

(** A property read that found nothing yields [undefined], which is falsy. *)
Definition truthy_opt (v : option value) : bool :=
  match v with
  | Some v => truthy v
  | None => false
  end.

Definition typeof (v : value) : string :=
  match v with
  | VNull | VArr _ | VObj _ => "object"
  | VBool _ => "boolean"
  | VNum _ => "number"
  | VStr _ => "string"
  end.

(** [v === s] for a string literal [s]. *)
Definition is_string (v : option value) (s : string) : bool :=
  match v with
  | Some (VStr s') => s' =? s
  | _ => false
  end.

(* ----------------------------------------------------------------- *)
(** *** Own properties of ordinary objects *)

Fixpoint obj_get (k : string) (o : obj) : option value :=
  match o with
  | [] => None
  | (k', v) :: o' => if k' =? k then Some v else obj_get k o'
  end.

Definition has_own (k : string) (o : obj) : bool :=
  match obj_get k o with
  | Some _ => true
  | None => false
  end.

Definition index_key (i : nat) : string :=
  NilZero.string_of_uint (Nat.to_uint i).

(** An array index is the canonical decimal text of an integer below
    [2^32 - 1]; these keys are enumerated first, in numeric order. *)
Definition array_index (k : string) : option N :=
  match NilEmpty.uint_of_string k with
  | Some d =>
      let n := N.of_uint d in
      if (NilZero.string_of_uint (N.to_uint n) =? k) && (n <? 4294967295)%N
      then Some n
      else None
  | None => None
  end.

Fixpoint obj_update (k : string) (v : value) (o : obj) : obj :=
  match o with
  | [] => []
  | (k', v') :: o' =>
      if k' =? k then (k', v) :: o' else (k', v') :: obj_update k v o'
  end.

Fixpoint insert_index (n : N) (k : string) (v : value) (o : obj) : obj :=
  match o with
  | [] => [(k, v)]
  | (k', v') :: o' =>
      match array_index k' with
      | Some n' =>
          if (n <? n')%N then (k, v) :: o
          else (k', v') :: insert_index n k v o'
      | None => (k, v) :: o
      end
  end.

(** [o[k] = v] on an object that was created by an object literal.  An
    existing own property keeps its place.  The key [__proto__] that is not
    an own property reaches the accessor of [Object.prototype], which
    changes the prototype and creates no own property.  A new array index
    is enumerated among the indices, any other new key last. *)
Definition obj_set (k : string) (v : value) (o : obj) : obj :=
  if has_own k o then obj_update k v o
  else if k =? "__proto__" then o
  else match array_index k with
       | Some n => insert_index n k v o
       | None => o ++ [(k, v)]
       end.

Fixpoint chars (s : string) : list value :=
  match s with
  | EmptyString => []
  | String c s' => VStr (String c EmptyString) :: chars s'
  end.

Definition index_entries (l : list value) : list (string * value) :=
  combine (map index_key (seq 0 (List.length l))) l.

(** [Object.entries(v)]: the own enumerable string-keyed properties.  The
    argument is converted with ToObject, which throws on [null]. *)
Definition Object_entries (v : value) : completion (list (string * value)) :=
  match v with
  | VNull => Throw TypeError
  | VBool _ | VNum _ => Ok []
  | VStr s => Ok (index_entries (chars s))
  | VArr l => Ok (index_entries l)
  | VObj o => Ok o
  end.

Definition Object_keys (v : value) : completion (list string) :=
  let* es := Object_entries v in Ok (map fst es).

(* ================================================================= *)
(** ** runner.ts: [prepareSchemaForStrictMode] *)

Definition supportedKeys : list string :=
  [ "type"; "properties"; "required"; "items"; "description"; "enum";
    "const"; "anyOf"; "oneOf"; "$ref"; "$defs"; "additionalProperties" ].

(** [supportedKeys.has(key)] *)
Definition supported (key : string) : bool :=
  existsb (String.eqb key) supportedKeys.

(** The first loop: copy the supported keys of the schema into [result]. *)
Fixpoint copy_supported (entries : list (string * value)) (result : obj) : obj :=
  match entries with
  | [] => result
  | (key, v) :: rest =>
      copy_supported rest (if supported key then obj_set key v result else result)
  end.

(** The second loop: [newProps[key] = prepareSchemaForStrictMode(value)]. *)
Fixpoint assign_props (rec : value -> completion value)
    (entries : list (string * value)) (newProps : obj) : completion obj :=
  match entries with
  | [] => Ok newProps
  | (key, v) :: rest =>
      let* v' := rec v in
      assign_props rec rest (obj_set key v' newProps)
  end.

(** [xs.map(rec)]: only an array has a callable [map]. *)
Definition array_map (rec : value -> completion value) (xs : value) : completion value :=
  match xs with
  | VArr l => let* l' := mapM rec l in Ok (VArr l')
  | _ => Throw TypeError
  end.

(** [if (result.type === "object" && result.properties) { ... }] *)
Definition strict_object (rec : value -> completion value) (result : obj)
  : completion obj :=
  match obj_get "properties" result with
  | Some props =>
      if is_string (obj_get "type" result) "object" && truthy props then
        let* keys := Object_keys props in
        let result := obj_set "required" (VArr (map VStr keys)) result in
        let result := obj_set "additionalProperties" (VBool false) result in
        let* entries := Object_entries props in
        let* newProps := assign_props rec entries [] in
        Ok (obj_set "properties" (VObj newProps) result)
      else Ok result
  | None => Ok result
  end.

(** [if (result.type === "array" && result.items) { ... }] *)
Definition strict_array (rec : value -> completion value) (result : obj)
  : completion obj :=
  match obj_get "items" result with
  | Some items =>
      if is_string (obj_get "type" result) "array" && truthy items then
        let* items' := rec items in
        Ok (obj_set "items" items' result)
      else Ok result
  | None => Ok result
  end.

(** [if (result.anyOf) { ... }] *)
Definition strict_anyOf (rec : value -> completion value) (result : obj)
  : completion obj :=
  match obj_get "anyOf" result with
  | Some anyOf =>
      if truthy anyOf then
        let* anyOf' := array_map rec anyOf in
        Ok (obj_set "anyOf" anyOf' result)
      else Ok result
  | None => Ok result
  end.

(** The body of the function, with its recursive calls through [rec]. *)
Definition prepare_body (rec : value -> completion value) (schema : value)
  : completion value :=
  if negb (truthy schema) || negb (typeof schema =? "object") then Ok schema
  else
    let* entries := Object_entries schema in
    let result := copy_supported entries [] in
    let* result := strict_object rec result in
    let* result := strict_array rec result in
    let* result := strict_anyOf rec result in
    Ok (VObj result).

(** The recursion descends into strictly shallower values, so [height]
    many unfoldings reach every call; [prepare_unfold] below shows that the
    function satisfies the equation of the source. *)
Fixpoint prepare_fuel (fuel : nat) (schema : value) : completion value :=
  match fuel with
  | 0 => Ok schema
  | S fuel' => prepare_body (prepare_fuel fuel') schema
  end.

Definition prepareSchemaForStrictMode (schema : value) : completion value :=
  prepare_fuel (S (height schema)) schema.


(* ----------------------------------------------------------------- *)
(** *** Shapes of schemas *)

(** [precedes k k'] holds when [k] may be enumerated before [k']: indices
    ascend, and no other key comes before an index. *)
Definition precedes (k k' : string) : bool :=
  match array_index k, array_index k' with
  | Some n, Some n' => (n <? n')%N
  | Some _, None => true
  | None, Some _ => false
  | None, None => true
  end.

(** The keys of an object as [Object.entries] can report them: no key
    twice, array indices first and ascending. *)
Fixpoint enumeration_order (ks : list string) : bool :=
  match ks with
  | [] => true
  | k :: ks' =>
      negb (existsb (String.eqb k) ks')
      && forallb (precedes k) ks'
      && enumeration_order ks'
  end.

Fixpoint well_formed (v : value) : bool :=
  match v with
  | VArr l => forallb well_formed l
  | VObj o =>
      enumeration_order (map fst o)
      && forallb (fun kv => well_formed (snd kv)) o
  | _ => true
  end.

(** The [JsonSchema] interface of [types.ts], as far as the normaliser
    reads it: an object whose [properties] is a record of schemas, whose
    [items] is a schema and whose [anyOf] is an array of schemas. *)
Fixpoint is_schema (v : value) : bool :=
  match v with
  | VObj o =>
      forallb (fun kv =>
        if fst kv =? "properties" then
          match snd kv with
          | VObj ps => forallb (fun p => is_schema (snd p)) ps
          | _ => false
          end
        else if fst kv =? "items" then is_schema (snd kv)
        else if fst kv =? "anyOf" then
          match snd kv with
          | VArr l => forallb is_schema l
          | _ => false
          end
        else true) o
  | _ => false
  end.

(** No record of properties, at any depth, names a property [__proto__]. *)
Fixpoint proto_free (v : value) : bool :=
  match v with
  | VObj o =>
      forallb (fun kv =>
        if fst kv =? "properties" then
          match snd kv with
          | VObj ps =>
              forallb (fun p => negb (fst p =? "__proto__") && proto_free (snd p)) ps
          | _ => true
          end
        else if fst kv =? "items" then proto_free (snd kv)
        else if fst kv =? "anyOf" then
          match snd kv with
          | VArr l => forallb proto_free l
          | _ => true
          end
        else true) o
  | _ => true
  end.

(* ================================================================= *)
(** ** Strings *)

(** The one-byte white space of [\s] and of [trim]: TAB, LF, VT, FF, CR
    and SPACE. *)
Definition space1 (a : ascii) : bool :=
  let n := nat_of_ascii a in
  (((9 <=? n) && (n <=? 13)) || (n =? 32))%nat.

(** U+00A0, as the bytes C2 A0. *)
Definition space2 (a b : ascii) : bool :=
  ((nat_of_ascii a =? 194) && (nat_of_ascii b =? 160))%nat.

(** U+1680, U+2000 to U+200A, U+2028, U+2029, U+202F, U+205F, U+3000 and
    U+FEFF, each three bytes long. *)
Definition space3 (a b c : ascii) : bool :=
  let x := nat_of_ascii a in
  let y := nat_of_ascii b in
  let z := nat_of_ascii c in
  (((x =? 225) && (y =? 154) && (z =? 128))
   || ((x =? 226) && (y =? 128)
       && (((128 <=? z) && (z <=? 138)) || (z =? 168) || (z =? 169) || (z =? 175)))
   || ((x =? 226) && (y =? 129) && (z =? 159))
   || ((x =? 227) && (y =? 128) && (z =? 128))
   || ((x =? 239) && (y =? 187) && (z =? 191)))%nat.

(** [\s*], also [trimStart]: drop the white space at the head. *)
Fixpoint skip_spaces (s : string) : string :=
  match s with
  | String a s1 =>
      if space1 a then skip_spaces s1
      else
        match s1 with
        | String b s2 =>
            if space2 a b then skip_spaces s2
            else
              match s2 with
              | String c s3 => if space3 a b c then skip_spaces s3 else s
              | EmptyString => s
              end
        | EmptyString => s
        end
  | EmptyString => s
  end.

Definition all_space (s : string) : bool := skip_spaces s =? "".

Fixpoint trim_end (s : string) : string :=
  match s with
  | EmptyString => EmptyString
  | String a s' => if all_space s then EmptyString else String a (trim_end s')
  end.

(** [s.trim()] *)
Definition trim (s : string) : string := trim_end (skip_spaces s).

(** [s.slice(from, to)] and [s.slice(from)], for [0 <= from <= to]. *)
Definition slice (from to : nat) (s : string) : string :=
  substring from (to - from) s.

Definition slice_from (from : nat) (s : string) : string :=
  substring from (String.length s - from) s.

(** [\w]: an ASCII letter, digit or underscore. *)
Definition is_word (a : ascii) : bool :=
  let n := nat_of_ascii a in
  (((48 <=? n) && (n <=? 57)) || ((65 <=? n) && (n <=? 90))
   || ((97 <=? n) && (n <=? 122)) || (n =? 95))%nat.

(** [\w*] at the head: the word and what follows it. *)
Fixpoint take_word (s : string) : string * string :=
  match s with
  | String a s' =>
      if is_word a then let (w, rest) := take_word s' in (String a w, rest)
      else (EmptyString, s)
  | EmptyString => (EmptyString, EmptyString)
  end.

Definition dquote : string := String "034"%char EmptyString.

(* ----------------------------------------------------------------- *)
(** *** [String(v)] and [JSON.stringify(v)] *)

Definition number_to_string (n : Z) : string :=
  NilZero.string_of_int (Z.to_int n).

(** [String(v)].  An array joins the strings of its elements with commas,
    [null] counting as empty.  An object answers [[object Object]]
    through the inherited [toString], unless an own property of that name
    hides it: the own value is not callable, [valueOf] returns the object
    itself, and the conversion throws. *)
Fixpoint to_String (v : value) : completion string :=
  match v with
  | VNull => Ok "null"
  | VBool true => Ok "true"
  | VBool false => Ok "false"
  | VNum n => Ok (number_to_string n)
  | VStr s => Ok s
  | VArr l =>
      let* parts :=
        mapM (fun x => match x with VNull => Ok "" | _ => to_String x end) l in
      Ok (String.concat "," parts)
  | VObj o =>
      if has_own "toString" o then Throw TypeError else Ok "[object Object]"
  end.

Definition hex_digit (n : nat) : ascii :=
  ascii_of_nat (if (n <? 10)%nat then 48 + n else 87 + n).

(** One code unit inside a JSON string literal. *)
Definition escape (a : ascii) : string :=
  let n := nat_of_ascii a in
  if (n =? 8)%nat then "\b"
  else if (n =? 9)%nat then "\t"
  else if (n =? 10)%nat then "\n"
  else if (n =? 12)%nat then "\f"
  else if (n =? 13)%nat then "\r"
  else if (n =? 34)%nat then String "\" dquote
  else if (n =? 92)%nat then "\\"
  else if (n <? 32)%nat then
    String "\" (String "u" (String "0" (String "0"
      (String (hex_digit (n / 16)) (String (hex_digit (n mod 16)) EmptyString)))))
  else String a EmptyString.

Fixpoint escape_all (s : string) : string :=
  match s with
  | EmptyString => EmptyString
  | String a s' => (escape a ++ escape_all s')%string
  end.

Definition quote (s : string) : string :=
  (dquote ++ escape_all s ++ dquote)%string.

(** [JSON.stringify(v)], without indentation.  An own property [toJSON]
    of a parsed value is never callable and is printed like any other. *)
Fixpoint JSON_stringify (v : value) : string :=
  match v with
  | VNull => "null"
  | VBool true => "true"
  | VBool false => "false"
  | VNum n => number_to_string n
  | VStr s => quote s
  | VArr l => ("[" ++ String.concat "," (map JSON_stringify l) ++ "]")%string
  | VObj o =>
      ("{" ++ String.concat ","
                (map (fun kv => (quote (fst kv) ++ ":" ++ JSON_stringify (snd kv))%string) o)
           ++ "}")%string
  end.

(* ----------------------------------------------------------------- *)
(** *** Property reads through the prototype chain *)

Definition Object_prototype_names : list string :=
  [ "constructor"; "__defineGetter__"; "__defineSetter__"; "hasOwnProperty";
    "__lookupGetter__"; "__lookupSetter__"; "isPrototypeOf";
    "propertyIsEnumerable"; "toString"; "valueOf"; "__proto__";
    "toLocaleString" ].

(** The word-shaped property names of [Array.prototype] in ECMAScript 2023. *)
Definition Array_prototype_names : list string :=
  [ "at"; "concat"; "copyWithin"; "entries"; "every"; "fill"; "filter";
    "find"; "findIndex"; "findLast"; "findLastIndex"; "flat"; "flatMap";
    "forEach"; "includes"; "indexOf"; "join"; "keys"; "lastIndexOf"; "map";
    "pop"; "push"; "reduce"; "reduceRight"; "reverse"; "shift"; "slice";
    "some"; "sort"; "splice"; "toLocaleString"; "toReversed"; "toSorted";
    "toSpliced"; "toString"; "unshift"; "values"; "with"; "constructor" ].

Definition mem (k : string) (l : list string) : bool :=
  existsb (String.eqb k) l.

(** What [data[key]] can be when [data] is a parsed value. *)
Inductive property : Type :=
| Data (v : value)             (* an own property *)
| Native (fname : string)      (* an inherited built-in function *)
| Proto (json : string)        (* the prototype object itself, with its JSON text *)
| Undefined.

Definition get_property (data : value) (key : string) : property :=
  match data with
  | VObj o =>
      match obj_get key o with
      | Some v => Data v
      | None =>
          if key =? "__proto__" then Proto "{}"
          else if key =? "constructor" then Native "Object"
          else if mem key Object_prototype_names then Native key
          else Undefined
      end
  | VArr l =>
      match array_index key with
      | Some n =>
          match nth_error l (N.to_nat n) with
          | Some v => Data v
          | None => Undefined
          end
      | None =>
          if key =? "length" then Data (VNum (Z.of_nat (List.length l)))
          else if key =? "__proto__" then Proto "[]"
          else if key =? "constructor" then Native "Array"
          else if mem key Array_prototype_names || mem key Object_prototype_names
          then Native key
          else Undefined
      end
  | _ => Undefined
  end.

(** [key in data]: a TypeError unless [data] is an object. *)
Definition js_in (key : string) (data : value) : completion bool :=
  match data with
  | VObj _ | VArr _ =>
      Ok (match get_property data key with Undefined => false | _ => true end)
  | _ => Throw TypeError
  end.

(* ================================================================= *)
(** ** parser.ts: [renderTemplate] *)

(** The regular expression [/\{\{\s*\.(\w+)\s*\}\}/] tried at the head of
    [s]: the captured key and the text after the match.  The classes that
    follow one another are disjoint, so the greedy match is the only one. *)
Definition match_token (s : string) : option (string * string) :=
  match s with
  | String "{" (String "{" s1) =>
      match skip_spaces s1 with
      | String "." s2 =>
          let (key, s3) := take_word s2 in
          if key =? "" then None
          else
            match skip_spaces s3 with
            | String "}" (String "}" rest) => Some (key, rest)
            | _ => None
            end
      | _ => None
      end
  | _ => None
  end.

(** [s.replace(re, f)] with the global flag: matches are sought from left
    to right, each search resuming after the previous match.  [skip]
    counts the units of the current match still to pass over. *)
Fixpoint replace_tokens (f : string -> string -> completion string)
    (skip : nat) (s : string) : completion string :=
  match s with
  | EmptyString => Ok EmptyString
  | String a s' =>
      match skip with
      | S n => replace_tokens f n s'
      | 0 =>
          match match_token s with
          | Some (key, rest) =>
              let width := String.length s - String.length rest in
              let* r := f (substring 0 width s) key in
              let* out := replace_tokens f (width - 1) s' in
              Ok (r ++ out)%string
          | None =>
              let* out := replace_tokens f 0 s' in
              Ok (String a out)
          end
      end
  end.

(** The callback of [renderTemplate]. *)
Definition substitute (data : value) (matched key : string) : completion string :=
  let* found := js_in key data in
  if found then
    match get_property data key with
    | Data v =>
        if typeof v =? "object" then Ok (JSON_stringify v) else to_String v
    | Native fname => Ok ("function " ++ fname ++ "() { [native code] }")%string
    | Proto json => Ok json
    | Undefined => Ok "undefined"
    end
  else Ok matched.

Definition renderTemplate (template : string) (data : value) : completion string :=
  replace_tokens (substitute data) 0 template.

(* ================================================================= *)
(** ** types.ts and the messages of the provider *)

Record MarkdownlangProgram : Type := {
  name : string;
  description : string;
  input : value;
  output : value;
  imports : option (list string);
  body : string;
  sourcePath : option string
}.

Record RunOptions : Type := {
  model : option string;
  verbose : bool
}.

(** [options = {}] *)
Definition no_options : RunOptions := {| model := None; verbose := false |}.

(** A tool call of the provider: [id], [function.name], [function.arguments]. *)
Record ToolCall : Type := {
  id : string;
  function_name : string;
  function_arguments : string
}.

(** [choice.message]; [content] is a string or [null]. *)
Record AssistantMessage : Type := {
  content : option string;
  tool_calls : option (list ToolCall)
}.

Inductive Message : Type :=
| SystemMessage (text : string)
| UserMessage (text : string)
| Assistant (message : AssistantMessage)
| ToolMessage (tool_call_id : string) (text : string).

(** A tool declaration: [function.name], [function.description],
    [function.parameters]. *)
Record Tool : Type := {
  tool_name : string;
  tool_description : string;
  parameters : value
}.

(** The argument of [client.chat.completions.create]. *)
Record Request : Type := {
  request_model : string;
  messages : list Message;
  schema_name : string;
  schema : value;
  strict : bool;
  tools : option (list Tool)
}.

Record Response : Type := {
  choices : list AssistantMessage
}.

(** What [console.error] prints when [options.verbose] is set, by line. *)
Inductive Diagnostic : Type :=
| LogProgram (program_name : string)
| LogModel (model_name : string)
| LogPrompt (prompt : string)
| LogOutputSchema (strictSchema : value)
| LogResult (result : value).

(** The libraries and services around the program.  [None] stands for
    the exception the library raises; [yaml_load] yields [Some None] for
    [undefined], the value of an empty document.  The provider is a state
    machine: it may answer the same request differently each time. *)
Record Runtime : Type := {
  path_resolve : string -> string;
  readFileSync : string -> option string;
  yaml_load : string -> option (option value);
  JSON_parse : string -> option value;
  provider : Type;
  create : provider -> Request -> provider * option Response
}.

(* ================================================================= *)
(** ** parser.ts: [parseSource] and [parse] *)

Definition invalid (sourcePath reason : string) : exn :=
  Error ("Invalid markdownlang file (" ++ sourcePath ++ "): " ++ reason)%string.

Definition missing_field (field : string) : string :=
  ("missing required field " ++ dquote ++ field ++ dquote ++ " in frontmatter")%string.

(** The loop over the four mandatory fields. *)
Fixpoint require_fields (sourcePath : string) (fields : list string)
    (frontmatter : value) : completion unit :=
  match fields with
  | [] => Ok tt
  | field :: rest =>
      let* found := js_in field frontmatter in
      if found then require_fields sourcePath rest frontmatter
      else Throw (invalid sourcePath (missing_field field))
  end.

(** [String(frontmatter.field)]; a missing property reads [undefined]. *)
Definition String_of_property (p : property) : completion string :=
  match p with
  | Data v => to_String v
  | Native fname => Ok ("function " ++ fname ++ "() { [native code] }")%string
  | Proto _ => Ok "[object Object]"
  | Undefined => Ok "undefined"
  end.

Definition value_of_property (p : property) : value :=
  match p with
  | Data v => v
  | _ => VNull
  end.

Section Parser.
Context (rt : Runtime).

Definition parseSource (source : string) (sourcePath : string)
  : completion MarkdownlangProgram :=
  let trimmed := trim source in
  if negb (prefix "---" trimmed) then
    Throw (invalid sourcePath
             "must start with YAML frontmatter delimited by ---")
  else
    match index 3 "---" trimmed with
    | None =>
        Throw (invalid sourcePath "missing closing --- for frontmatter")
    | Some secondDash =>
        let frontmatterRaw := trim (slice 3 secondDash trimmed) in
        let body := trim (slice_from (secondDash + 3) trimmed) in
        match yaml_load rt frontmatterRaw with
        | None => Throw YAMLException
        | Some None =>
            Throw (invalid sourcePath "frontmatter is not a valid YAML object")
        | Some (Some frontmatter) =>
            if negb (truthy frontmatter)
               || negb (typeof frontmatter =? "object")
            then
              Throw (invalid sourcePath
                       "frontmatter is not a valid YAML object")
            else
              let* _ :=
                require_fields sourcePath
                  ["name"; "description"; "input"; "output"] frontmatter in
              let* name := String_of_property (get_property frontmatter "name") in
              let* description :=
                String_of_property (get_property frontmatter "description") in
              let* imports :=
                match get_property frontmatter "imports" with
                | Data (VArr l) =>
                    let* l' := mapM to_String l in Ok (Some l')
                | _ => Ok None
                end in
              Ok {| name := name;
                    description := description;
                    input := value_of_property (get_property frontmatter "input");
                    output := value_of_property (get_property frontmatter "output");
                    imports := imports;
                    body := body;
                    sourcePath := Some sourcePath |}
        end
    end.

Definition parse (filePath : string) : completion MarkdownlangProgram :=
  let absolutePath := path_resolve rt filePath in
  match readFileSync rt absolutePath with
  | None => Throw FsError
  | Some content => parseSource content absolutePath
  end.
End Parser.

(* ================================================================= *)
(** ** runner.ts: the agentic loop *)

(** How a call of [run] can end.  The recursion of [run] through the
    imports need not end; [Unfinished] is a call cut short after the
    given number of nested runs. *)
Inductive outcome (A : Type) : Type :=
| Returned (a : A)
| Thrown (e : exn)
| Unfinished.
Arguments Returned {A} a.
Arguments Thrown {A} e.
Arguments Unfinished {A}.

Definition lift {A : Type} (c : completion A) : outcome A :=
  match c with
  | Ok a => Returned a
  | Throw e => Thrown e
  end.

(** How one pass of the loop ends, when it does not throw. *)
Inductive flow : Type :=
| Continue (messages : list Message)
| Return (result : value).

Section Runner.
Context (rt : Runtime).

(** The world a run acts on: the provider, the number of clients made
    so far with [new OpenAI()], the requests sent (each with the client
    that sent it, oldest first) and the lines written to the diagnostic
    stream. *)
Record World : Type := {
  remote : provider rt;
  clients : nat;
  sent : list (nat * Request);
  stderr : list Diagnostic
}.

Definition Action (A : Type) : Type := World -> outcome A * World.

Definition ret {A : Type} (a : A) : Action A := fun w => (Returned a, w).

Definition throw {A : Type} (e : exn) : Action A := fun w => (Thrown e, w).

Definition and_then {A B : Type} (m : Action A) (k : A -> Action B) : Action B :=
  fun w =>
    match m w with
    | (Returned a, w') => k a w'
    | (Thrown e, w') => (Thrown e, w')
    | (Unfinished, w') => (Unfinished, w')
    end.

Definition pure {A : Type} (c : completion A) : Action A :=
  fun w => (lift c, w).

(** [new OpenAI()] *)
Definition new_OpenAI : Action nat :=
  fun w =>
    (Returned (clients w),
     {| remote := remote w; clients := S (clients w);
        sent := sent w; stderr := stderr w |}).

(** [await client.chat.completions.create(request)] *)
Definition chat_completions_create (client : nat) (request : Request)
  : Action Response :=
  fun w =>
    let (remote', answer) := create rt (remote w) request in
    let w' := {| remote := remote'; clients := clients w;
                 sent := sent w ++ [(client, request)];
                 stderr := stderr w |} in
    match answer with
    | Some response => (Returned response, w')
    | None => (Thrown APIError, w')
    end.

(** [console.error(...)] *)
Definition console_error (lines : list Diagnostic) : Action unit :=
  fun w =>
    (Returned tt,
     {| remote := remote w; clients := clients w;
        sent := sent w; stderr := stderr w ++ lines |}).

Definition when (b : bool) (m : Action unit) : Action unit :=
  if b then m else ret tt.

(** [resolveImportedTools]; the loop over [program.imports]. *)
Fixpoint import_tools (paths : list string) : completion (list Tool) :=
  match paths with
  | [] => Ok []
  | importPath :: rest =>
      let* imported := parse rt importPath in
      let* params := prepareSchemaForStrictMode (input imported) in
      let* tools := import_tools rest in
      Ok ({| tool_name := name imported;
             tool_description := description imported;
             parameters := params |} :: tools)
  end.

Definition resolveImportedTools (program : MarkdownlangProgram)
  : completion (list Tool) :=
  match imports program with
  | None => Ok []
  | Some paths => import_tools paths
  end.

Definition no_imports (tool : string) : exn :=
  Error ("No imports defined but tool call received: " ++ tool)%string.

Definition unknown_tool (tool : string) : exn :=
  Error ("Unknown tool: " ++ tool)%string.

Definition no_content : exn := Error "No response content from OpenAI".

Definition iteration_limit : exn :=
  Error "Agentic loop exceeded maximum iterations".

(** [executeToolCall], with the recursive [run] as a parameter. *)
Section ExecuteToolCall.
Variable run : MarkdownlangProgram -> value -> RunOptions -> Action value.

Fixpoint find_import (toolCall : ToolCall) (paths : list string)
  : Action value :=
  match paths with
  | [] => throw (unknown_tool (function_name toolCall))
  | importPath :: rest =>
      and_then (pure (parse rt importPath)) (fun imported =>
      if name imported =? function_name toolCall then
        match JSON_parse rt (function_arguments toolCall) with
        | None => throw SyntaxError
        | Some input => run imported input no_options
        end
      else find_import toolCall rest)
  end.

Definition executeToolCall (toolCall : ToolCall)
    (parentProgram : MarkdownlangProgram) : Action value :=
  match imports parentProgram with
  | None => throw (no_imports (function_name toolCall))
  | Some paths => find_import toolCall paths
  end.

(** [for (const toolCall of choice.message.tool_calls) { ... }] *)
Fixpoint execute_tool_calls (program : MarkdownlangProgram)
    (calls : list ToolCall) (messages : list Message)
  : Action (list Message) :=
  match calls with
  | [] => ret messages
  | toolCall :: rest =>
      and_then (executeToolCall toolCall program) (fun toolResult =>
      execute_tool_calls program rest
        (messages ++ [ToolMessage (id toolCall) (JSON_stringify toolResult)]))
  end.

(** One pass through the body of the [while] loop, up to its
    [continue] or [return]. *)
Definition turn (program : MarkdownlangProgram) (options : RunOptions)
    (client : nat) (model : string) (strictSchema : value)
    (tools : list Tool) (messages : list Message) : Action flow :=
  and_then (chat_completions_create client
              {| request_model := model;
                 messages := messages;
                 schema_name := name program;
                 schema := strictSchema;
                 strict := true;
                 tools := match tools with [] => None | _ => Some tools end |})
           (fun response =>
  match choices response with
  | [] => throw TypeError
  | choice :: _ =>
      match tool_calls choice with
      | Some (toolCall :: calls) =>
          and_then (execute_tool_calls program (toolCall :: calls)
                      (messages ++ [Assistant choice]))
                   (fun messages' => ret (Continue messages'))
      | _ =>
          match content choice with
          | None | Some EmptyString => throw no_content
          | Some text =>
              match JSON_parse rt text with
              | None => throw SyntaxError
              | Some result =>
                  and_then (when (verbose options)
                              (console_error [LogResult result]))
                           (fun _ => ret (Return result))
              end
          end
      end
  end).

(** [while (maxIterations-- > 0) { ... }] followed by the final
    [throw]: [maxIterations] is the value the test reads. *)
Fixpoint agentic_loop (program : MarkdownlangProgram)
    (options : RunOptions) (client : nat) (model : string)
    (strictSchema : value) (tools : list Tool)
    (maxIterations : nat) (messages : list Message) : Action value :=
  match maxIterations with
  | 0 => throw iteration_limit
  | S maxIterations' =>
      and_then (turn program options client model strictSchema tools messages)
               (fun next =>
      match next with
      | Continue messages' =>
          agentic_loop program options client model strictSchema tools
            maxIterations' messages'
      | Return result => ret result
      end)
  end.

Definition system_prompt (program : MarkdownlangProgram) : string :=
  String.concat " "
    [ ("You are executing a markdownlang program called "
         ++ dquote ++ name program ++ dquote ++ ".")%string;
      description program;
      "Follow the instructions precisely and return the result as JSON matching the required output schema.";
      "Be precise and deterministic. Do not add extra commentary — just return valid JSON." ].

(** The body of [run]. *)
Definition run_body (program : MarkdownlangProgram) (input : value)
    (options : RunOptions) : Action value :=
  let model :=
    match model options with
    | Some m => m
    | None => "gpt-4o-mini"
    end in
  and_then new_OpenAI (fun client =>
  and_then (pure (renderTemplate (body program) input)) (fun prompt =>
  and_then (pure (resolveImportedTools program)) (fun tools =>
  and_then (pure (prepareSchemaForStrictMode (output program))) (fun strictSchema =>
  and_then (when (verbose options)
              (console_error [ LogProgram (name program); LogModel model;
                               LogPrompt prompt; LogOutputSchema strictSchema ]))
           (fun _ =>
  agentic_loop program options client model strictSchema tools
    10 [ SystemMessage (system_prompt program); UserMessage prompt ]))))).
End ExecuteToolCall.

(** [run]: every nested run, started by a tool call, is one level
    deeper; [depth] bounds the nesting. *)
Fixpoint run (depth : nat) : MarkdownlangProgram -> value -> RunOptions -> Action value :=
  match depth with
  | 0 => fun _ _ _ w => (Unfinished, w)
  | S depth' => run_body (run depth')
  end.
End Runner.

Arguments remote {rt} w.
Arguments clients {rt} w.
Arguments sent {rt} w.
Arguments stderr {rt} w.
Arguments ret {rt A} a w.
Arguments throw {rt A} e w.
Arguments and_then {rt A B} m k w.
Arguments pure {rt A} c w.
Arguments when {rt} b m w.
Arguments console_error {rt} lines w.
Arguments new_OpenAI {rt} w.

(** No import of [paths] fails to load, and none is named [tool]. *)
Definition none_named (rt : Runtime) (tool : string) (paths : list string) : bool :=
  forallb (fun importPath =>
             match parse rt importPath with
             | Ok imported => negb (name imported =? tool)
             | Throw _ => false
             end) paths.

(* ================================================================= *)
(** ** Test doubles *)

Definition child_source : string :=
"---
name: child
description: A helper
input: {}
output: {}
---
Greet {{ .who }}".

Definition child_frontmatter : value :=
  VObj [ ("name", VStr "child"); ("description", VStr "A helper");
         ("input", VObj []); ("output", VObj []) ].

(** A runtime with one file, [child.mdlang]; a YAML loader and a JSON
    parser that know the documents of the examples and reject every other
    text; and a stateless provider that answers a request with [answer]. *)
Definition stub (answer : Request -> Response) : Runtime :=
  {| path_resolve := fun p => p;
     readFileSync := fun p =>
       if p =? "child.mdlang" then Some child_source else None;
     yaml_load := fun text =>
       if text =? "name: child
description: A helper
input: {}
output: {}" then Some (Some child_frontmatter) else None;
     JSON_parse := fun text => if text =? "{}" then Some (VObj []) else None;
     provider := unit;
     create := fun st request => (st, Some (answer request)) |}.

Definition start (answer : Request -> Response) : World (stub answer) :=
  Build_World (stub answer) tt 0 [] [].

Definition calls_tool (tool : string) : Response :=
  {| choices :=
       [ {| content := None;
            tool_calls := Some [ {| id := "call_1"; function_name := tool;
                                    function_arguments := "{}" |} ] |} ] |}.

Definition says (text : option string) : Response :=
  {| choices := [ {| content := text; tool_calls := None |} ] |}.

(** A provider that asks for the tool [child] on every response. *)
Definition always_calls : Request -> Response := fun _ => calls_tool "child".

(** A provider that asks the program [parent] to call [child], and gives
    every other program its final answer. *)
Definition delegating : Request -> Response :=
  fun request =>
    if schema_name request =? "parent" then calls_tool "child"
    else says (Some "{}").

Definition answer_schema : value :=
  VObj [ ("type", VStr "object");
         ("properties", VObj [ ("answer", VObj [ ("type", VStr "string") ]) ]) ].

(** A program without imports, and one that imports [child.mdlang]. *)
Definition lonely : MarkdownlangProgram :=
  {| name := "lonely"; description := "Answers alone";
     input := VObj []; output := answer_schema;
     imports := None; body := "Answer {{ .question }}";
     sourcePath := None |}.

Definition parent : MarkdownlangProgram :=
  {| name := "parent"; description := "Delegates";
     input := VObj []; output := answer_schema;
     imports := Some ["child.mdlang"]; body := "Ask the helper.";
     sourcePath := None |}.

(* ================================================================= *)
(** ** The source format, in the words of the parser and of the spec *)

(** What the parser looks for in the trimmed source: [---] at its start,
    and the first further [---] at [secondDash], at or after position 3. *)
Definition delimited (trimmed : string) (secondDash : nat) : Prop :=
  substring 0 3 trimmed = "---"
  /\ 3 <= secondDash
  /\ substring secondDash 3 trimmed = "---"
  /\ forall p, 3 <= p -> p < secondDash -> substring p 3 trimmed <> "---".

Definition mandatory : list string := ["name"; "description"; "input"; "output"].


(** The lines of a text, as the spec speaks of them: the pieces between
    line feeds. *)
Fixpoint lines (s : string) : list string :=
  match s with
  | EmptyString => [EmptyString]
  | String a s' =>
      if (nat_of_ascii a =? 10)%nat then EmptyString :: lines s'
      else
        match lines s' with
        | l :: ls => String a l :: ls
        | [] => [String a EmptyString]
        end
  end.


(* ================================================================= *)
(** ** The template language, in the words of the spec *)

(** White space: any number of white space characters. *)
Inductive white : string -> Prop :=
| white_none : white EmptyString
| white_1 a s : space1 a = true -> white s -> white (String a s)
| white_2 a b s :
    space2 a b = true -> white s -> white (String a (String b s))
| white_3 a b c s :
    space3 a b c = true -> white s ->
    white (String a (String b (String c s))).

(** Identifier characters only. *)
Fixpoint word (s : string) : bool :=
  match s with
  | EmptyString => true
  | String a s' => is_word a && word s'
  end.

(** A placeholder token and its identifier: double-open-brace, optional
    white space, dot, identifier characters, optional white space,
    double-close-brace. *)
Inductive token : string -> string -> Prop :=
| token_intro ws1 key ws2 :
    white ws1 -> key <> EmptyString -> word key = true -> white ws2 ->
    token ("{{" ++ ws1 ++ "." ++ key ++ ws2 ++ "}}")%string key.




(* ================================================================= *)
(** ** Example schemas *)

(** An object schema with a constraint keyword at each level. *)
Definition person_schema : value :=
  VObj [ ("type", VStr "object");
         ("title", VStr "Person");
         ("properties",
          VObj [ ("name", VObj [ ("type", VStr "string"); ("pattern", VStr "^[A-Z]") ]);
                 ("age", VObj [ ("type", VStr "integer"); ("minimum", VNum 0);
                                ("maximum", VNum 150) ]) ]) ].

(** An object schema one of whose properties is named [__proto__], as
    [yaml.load] and [JSON.parse] both produce it: an own property. *)
Definition proto_schema : value :=
  VObj [ ("type", VStr "object");
         ("properties",
          VObj [ ("__proto__", VObj [ ("type", VStr "string") ]);
                 ("b", VObj [ ("type", VStr "integer"); ("minimum", VNum 1) ]) ]) ].

(* ================================================================= *)
(** ** Vocabulary of the statements *)

(** The invariant of [result]: supported keys, no key twice. *)
Definition tidy (r : obj) : Prop :=
  NoDup (map fst r) /\ Forall (fun k => supported k = true) (map fst r).

(** Results on which the three blocks of the normaliser change nothing,
    [rec] being the recursive call. *)
Section SettledResult.
Variable rec : value -> completion value.

Definition settled_object (r : obj) : Prop :=
  forall props,
    obj_get "properties" r = Some props ->
    is_string (obj_get "type" r) "object" && truthy props = true ->
    exists ps,
      props = VObj ps
      /\ enumeration_order (map fst ps) = true
      /\ ~ In "__proto__" (map fst ps)
      /\ (forall p, In p ps -> rec (snd p) = Ok (snd p))
      /\ obj_get "required" r = Some (VArr (map VStr (map fst ps)))
      /\ obj_get "additionalProperties" r = Some (VBool false).

Definition settled_array (r : obj) : Prop :=
  forall items,
    obj_get "items" r = Some items ->
    is_string (obj_get "type" r) "array" && truthy items = true ->
    rec items = Ok items.

Definition settled_anyOf (r : obj) : Prop :=
  forall xs,
    obj_get "anyOf" r = Some xs -> truthy xs = true ->
    array_map rec xs = Ok xs.
End SettledResult.

Definition default_model : string := "gpt-4o-mini".

(** [options.model ?? "gpt-4o-mini"] *)
Definition chosen_model (options : RunOptions) : string :=
  match model options with
  | Some m => m
  | None => default_model
  end.

(** The number of requests that client [c] sent among [log]. *)
Definition round_trips (c : nat) (log : list (nat * Request)) : nat :=
  List.length (filter (fun e => fst e =? c)%nat log).

(** A request of the run that owns client [c] and runs model [m], or a
    request of a run nested in it. *)
Definition tagged (c : nat) (m : string) (e : nat * Request) : Prop :=
  (fst e = c /\ request_model (snd e) = m)
  \/ (c < fst e /\ request_model (snd e) = default_model).

Definition nested (c : nat) (e : nat * Request) : Prop :=
  c < fst e /\ request_model (snd e) = default_model.

Section Effects.
Context (rt : Runtime).

(** What an action may do to the world, seen from the run that owns
    client [c]: requests and clients are only added, every new request
    satisfies [P], and a quiet action prints nothing. *)
Definition effect (P : nat * Request -> Prop) (quiet : bool)
    (w w' : World rt) : Prop :=
  clients w <= clients w'
  /\ (exists new, sent w' = sent w ++ new /\ Forall P new)
  /\ (quiet = true -> stderr w' = stderr w).

Definition tool_effect (c : nat) (w w' : World rt) : Prop :=
  effect (nested c) true w w'.

(** The contract of a run, for any options: its own requests carry the
    chosen model, those of nested runs the default one, and nothing is
    printed unless [verbose] is set. *)
Definition run_contract
    (run : MarkdownlangProgram -> value -> RunOptions -> Action rt value)
  : Prop :=
  forall program input options w,
    effect (tagged (clients w) (chosen_model options))
           (negb (verbose options)) w
           (snd (run program input options w)).

(** The world of the loop: a client made, the diagnostics printed. *)
Definition loop_world (program : MarkdownlangProgram) (options : RunOptions)
    (prompt : string) (strictSchema : value) (w : World rt) : World rt :=
  {| remote := remote w;
     clients := S (clients w);
     sent := sent w;
     stderr :=
       if verbose options then
         stderr w ++ [ LogProgram (name program);
                       LogModel (chosen_model options);
                       LogPrompt prompt; LogOutputSchema strictSchema ]
       else stderr w |}.
End Effects.
Arguments effect {rt} P quiet w w'.
Arguments tool_effect {rt} c w w'.
Arguments run_contract {rt} run.
Arguments loop_world {rt} program options prompt strictSchema w.

(** The first request of a run, once its setup has succeeded. *)
Definition first_request (program : MarkdownlangProgram)
    (options : RunOptions) (prompt : string) (strictSchema : value)
    (tools : list Tool) : Request :=
  {| request_model := chosen_model options;
     messages := [SystemMessage (system_prompt program); UserMessage prompt];
     schema_name := name program;
     schema := strictSchema;
     strict := true;
     tools := match tools with [] => None | _ => Some tools end |}.

(** A character that starts no white space stops the skipping. *)
Definition stops (a : ascii) : Prop :=
  nat_of_ascii a < 128 /\ space1 a = false.

(** The first character after white space, if any, is no word character. *)
Definition unworded (r : string) : Prop :=
  match r with
  | EmptyString => True
  | String a _ => is_word a = false
  end.

Definition loud : RunOptions := {| model := Some "gpt-5"; verbose := true |}.

(* ================================================================= *)
(** ** Strict schemas *)

(** What the strict output mode of the provider asks of a schema, along
    the paths the normaliser follows: an object schema with properties
    requires all of them and allows no other, and so do the schemas of
    its properties, the [items] of an array schema and the alternatives
    of an [anyOf]. *)
Local Unset Elimination Schemes.
Inductive Strict : value -> Prop :=
| Strict_scalar v : (forall o, v <> VObj o) -> Strict v
| Strict_object o :
    (forall ps,
       obj_get "properties" o = Some (VObj ps) ->
       is_string (obj_get "type" o) "object" = true ->
       obj_get "required" o = Some (VArr (map VStr (map fst ps)))
       /\ obj_get "additionalProperties" o = Some (VBool false)
       /\ forall k p, In (k, p) ps -> Strict p) ->
    (forall items,
       obj_get "items" o = Some items ->
       is_string (obj_get "type" o) "array" = true ->
       Strict items) ->
    (forall l,
       obj_get "anyOf" o = Some (VArr l) ->
       forall x, In x l -> Strict x) ->
    Strict (VObj o).
Local Set Elimination Schemes.

(** No unsupported keyword is left, along the same paths. *)
Local Unset Elimination Schemes.
Inductive Stripped : value -> Prop :=
| Stripped_scalar v : (forall o, v <> VObj o) -> Stripped v
| Stripped_object o :
    (forall k, In k (map fst o) -> In k supportedKeys) ->
    (forall ps,
       obj_get "properties" o = Some (VObj ps) ->
       is_string (obj_get "type" o) "object" = true ->
       forall k p, In (k, p) ps -> Stripped p) ->
    (forall items,
       obj_get "items" o = Some items ->
       is_string (obj_get "type" o) "array" = true ->
       Stripped items) ->
    (forall l,
       obj_get "anyOf" o = Some (VArr l) ->
       forall x, In x l -> Stripped x) ->
    Stripped (VObj o).
Local Set Elimination Schemes.

(* ================================================================= *)
(** ** More example schemas *)

(** A schema with a constraint keyword inside [oneOf] and inside [$defs]. *)
Definition variant_schema : value :=
  VObj [ ("type", VStr "string");
         ("oneOf", VArr [ VObj [ ("type", VStr "string"); ("minLength", VNum 1) ] ]);
         ("$defs", VObj [ ("id", VObj [ ("type", VStr "integer"); ("minimum", VNum 0) ]) ]);
         ("title", VStr "Variant") ].

(** An array schema whose [items] is a list of schemas, one for each
    position. *)
Definition tuple_schema : value :=
  VObj [ ("type", VStr "array");
         ("items", VArr [ VObj [ ("type", VStr "string") ];
                          VObj [ ("type", VStr "number") ] ]) ].

(** A schema with two alternatives, one of them an object schema. *)
Definition choice_schema : value :=
  VObj [ ("anyOf",
          VArr [ VObj [ ("type", VStr "object");
                        ("properties", VObj [ ("id", VObj [ ("type", VStr "string");
                                                            ("format", VStr "uuid") ]) ]) ];
                 VObj [ ("type", VStr "null") ] ]) ].

(* ================================================================= *)
(** ** Templates and bindings *)

(** No part of the template is a placeholder token. *)
Definition token_free (template : string) : Prop :=
  forall pre text key rest,
    token text key -> template <> (pre ++ text ++ rest)%string.

(** Bindings that are no object: [null], a boolean, a number or a string. *)
Definition primitive (data : value) : bool :=
  match data with
  | VObj _ | VArr _ => false
  | _ => true
  end.

(* ================================================================= *)
(** ** The failures of the parser *)

(** The reasons the parser gives in an "Invalid markdownlang file" error. *)
Definition reasons : list string :=
  "must start with YAML frontmatter delimited by ---"
  :: "missing closing --- for frontmatter"
  :: "frontmatter is not a valid YAML object"
  :: map missing_field mandatory.

(* ================================================================= *)
(** ** More test doubles *)

(** A runtime over the given files in which every frontmatter text loads
    as [frontmatter], with the given JSON parser and a stateless provider
    that answers a request with [answer]. *)
Definition fixture (files : string -> option string)
    (frontmatter : option (option value))
    (json : string -> option value)
    (answer : Request -> Response) : Runtime :=
  {| path_resolve := fun p => ("/work/" ++ p)%string;
     readFileSync := files;
     yaml_load := fun _ => frontmatter;
     JSON_parse := json;
     provider := unit;
     create := fun st request => (st, Some (answer request)) |}.

Definition no_files : string -> option string := fun _ => None.

Definition no_json : string -> option value := fun _ => None.

(** A source with delimiters; what is between them is left to the loader
    of the fixture. *)
Definition plain_source : string :=
"---
(frontmatter)
---
Say hello to {{ .who }}.
".

(** The program that [child_source] parses to, read as inline text. *)
Definition child_program : MarkdownlangProgram :=
  {| name := "child"; description := "A helper";
     input := VObj []; output := VObj []; imports := None;
     body := "Greet {{ .who }}"; sourcePath := Some "<inline>" |}.

(* ================================================================= *)
(** ** Vocabulary of the statements about [run] *)

(** The requests that client [c] sent among [log], oldest first. *)
Definition own (c : nat) (log : list (nat * Request)) : list Request :=
  map snd (filter (fun e => fst e =? c)%nat log).

(** The messages that answer the tool calls of one response: one for
    each call, in the order of the calls, with the id of the call and the
    JSON text of its result. *)
Definition tool_messages (calls : list ToolCall) (results : list value)
  : list Message :=
  map (fun cr => ToolMessage (id (fst cr)) (JSON_stringify (snd cr)))
      (combine calls results).

(** The request that one pass of the loop sends. *)
Definition request_of (program : MarkdownlangProgram) (model : string)
    (strictSchema : value) (tools : list Tool) (messages : list Message)
  : Request :=
  {| request_model := model;
     messages := messages;
     schema_name := name program;
     schema := strictSchema;
     strict := true;
     tools := match tools with [] => None | _ => Some tools end |}.

Section RunVocabulary.
Context (rt : Runtime).

(** What [run] computes between making its client and its first
    diagnostic: the prompt, the tools and the strict output schema, in
    this order, each of which may throw. *)
Definition setup (program : MarkdownlangProgram) (input : value)
  : completion (string * list Tool * value) :=
  let* prompt := renderTemplate (body program) input in
  let* tools := resolveImportedTools rt program in
  let* strictSchema := prepareSchemaForStrictMode (output program) in
  Ok (prompt, tools, strictSchema).

Variable run : MarkdownlangProgram -> value -> RunOptions -> Action rt value.

(** [results] are what the calls returned, each in some world. *)
Definition answered (program : MarkdownlangProgram)
    (calls : list ToolCall) (results : list value) : Prop :=
  Forall2 (fun toolCall result =>
             exists w1 w2,
               executeToolCall rt run toolCall program w1 = (Returned result, w2))
          calls results.

(** Request [r'] follows request [r] in the conversation of a run: it
    differs in its messages only, which are those of [r], the message
    of the assistant that asked for tools, and the results of the
    tools. *)
Definition follows (program : MarkdownlangProgram) (r r' : Request) : Prop :=
  exists choice calls results,
    tool_calls choice = Some calls
    /\ calls <> []
    /\ answered program calls results
    /\ r' = {| request_model := request_model r;
               messages := messages r ++ Assistant choice :: tool_messages calls results;
               schema_name := schema_name r;
               schema := schema r;
               strict := strict r;
               tools := tools r |}.

Fixpoint chain (program : MarkdownlangProgram) (r : Request)
    (later : list Request) : Prop :=
  match later with
  | [] => True
  | r' :: later' => follows program r r' /\ chain program r' later'
  end.
End RunVocabulary.

(** The diagnostics of a verbose run before its first request. *)
Definition header (program : MarkdownlangProgram) (options : RunOptions)
    (prompt : string) (strictSchema : value) : list Diagnostic :=
  [ LogProgram (name program); LogModel (chosen_model options);
    LogPrompt prompt; LogOutputSchema strictSchema ].

(** A provider that answers without any choice. *)
Definition silent : Request -> Response := fun _ => {| choices := [] |}.

(** A call of the tool [child] whose arguments are no JSON text. *)
Definition bad_call : ToolCall :=
  {| id := "call_1"; function_name := "child"; function_arguments := "{bad json" |}.


Definition answer_strict : value :=
  VObj [ ("type", VStr "object");
         ("properties", VObj [ ("answer", VObj [ ("type", VStr "string") ]) ]);
         ("required", VArr [VStr "answer"]);
         ("additionalProperties", VBool false) ].

(* ================================================================= *)
(** ** cli.ts: the commands [run] and [parse] *)

(** The actions of the two commands are embedded as the file writes
    them, from the arguments that the option parser hands them.  The
    [compile] command calls [compile] of [compiler.ts], which is not
    among the sources, and is left out. *)

Definition newline : string := String "010"%char EmptyString.

(** [JSON.stringify(v, null, 2)] at the indentation [indent]: an empty
    array or object is printed closed, any other with one element or
    member to a line, two more spaces in. *)
Fixpoint stringify_pretty (indent : string) (v : value) : string :=
  match v with
  | VArr l =>
      match l with
      | [] => "[]"
      | _ =>
          ("[" ++ newline
           ++ String.concat ("," ++ newline)
                (map (fun x => indent ++ "  " ++ stringify_pretty (indent ++ "  ") x) l)
           ++ newline ++ indent ++ "]")%string
      end
  | VObj o =>
      match o with
      | [] => "{}"
      | _ =>
          ("{" ++ newline
           ++ String.concat ("," ++ newline)
                (map (fun kv =>
                        indent ++ "  " ++ quote (fst kv) ++ ": "
                        ++ stringify_pretty (indent ++ "  ") (snd kv)) o)
           ++ newline ++ indent ++ "}")%string
      end
  | _ => JSON_stringify v
  end.

(** [xs.join(sep)] on an array: [null] joins as the empty string. *)
Definition Array_join (sep : string) (l : list value) : completion string :=
  let* parts :=
    mapM (fun x => match x with VNull => Ok "" | _ => to_String x end) l in
  Ok (String.concat sep parts).

(** The options of the [run] command as its action receives them:
    [input] and [model] always hold a string, the option parser filling
    in "{}" and "gpt-4o-mini"; [verbose] is set or not. *)
Record RunCommandOptions : Type := {
  cli_input : string;
  cli_model : string;
  cli_verbose : bool
}.

(** A line on the standard error stream.  The text after "Error: " is
    the message of the exception; the program chooses it for its own
    errors only. *)
Inductive ErrorLine : Type :=
| Line (text : string)
| MessageOf (e : exn).

(** [`Error: ${err.message ?? err}`] *)
Definition report (e : exn) : ErrorLine :=
  match e with
  | Error message => Line ("Error: " ++ message)
  | _ => MessageOf e
  end.

(** What an action wrote: the lines of [console.log], and the lines of
    [console.error], which follow the diagnostics of the run on the same
    stream. *)
Record Terminal : Type := {
  out : list string;
  err : list ErrorLine
}.

(** How an action ends: with [process.exit(code)], by returning, or cut
    short like the run inside it. *)
Inductive ending : Type :=
| Exited (code : nat)
| Completed
| Cut.

(** How a step inside the [try] block goes on: to the next statement,
    into the [catch] clause, or out of the process. *)
Inductive step : Type :=
| Go
| Raise (e : exn)
| Stop (code : nat).

Definition missing_input (field : string) : ErrorLine :=
  Line ("Error: missing required input field " ++ dquote ++ field ++ dquote).

(** [prog.input.required.join(", ")]: only an array has a [join]. *)
Definition join_required (required : value) : completion string :=
  match required with
  | VArr l => Array_join ", " l
  | _ => Throw TypeError
  end.

(** The loop over [prog.input.required], [data] being the parsed input
    of the command line: the lines written and how the loop is left.
    [field in data] converts [field] to a property key and throws unless
    [data] is an object. *)
Fixpoint check_required (required : value) (fields : list value) (data : value)
  : list ErrorLine * step :=
  match fields with
  | [] => ([], Go)
  | field :: rest =>
      match (let* key := to_String field in
             let* found := js_in key data in
             Ok (key, found)) with
      | Throw e => ([], Raise e)
      | Ok (key, true) => check_required required rest data
      | Ok (key, false) =>
          match join_required required with
          | Throw e => ([missing_input key], Raise e)
          | Ok joined =>
              ([missing_input key; Line ("Required fields: " ++ joined)], Stop 1)
          end
      end
  end.

(** [if (prog.input.required) { for (const field of ...) ... }].  Reading
    a property of [null] throws; [required] is no member of any
    prototype; a string is iterated by character, and a number, [true]
    or an object cannot be iterated. *)
Definition validate (prog : MarkdownlangProgram) (data : value)
  : list ErrorLine * step :=
  match input prog with
  | VNull => ([], Raise TypeError)
  | schema =>
      match get_property schema "required" with
      | Data required =>
          if truthy required then
            match required with
            | VArr l => check_required required l data
            | VStr s => check_required required (chars s) data
            | _ => ([], Raise TypeError)
            end
          else ([], Go)
      | Undefined => ([], Go)
      | Native _ | Proto _ => ([], Raise TypeError)
      end
  end.


Section Cli.
Context (rt : Runtime).

(** The options the [run] command passes to [run]. *)
Definition run_options (opts : RunCommandOptions) : RunOptions :=
  {| model := Some (cli_model opts); verbose := cli_verbose opts |}.

(** The action of the [run] command. *)
Definition run_command (depth : nat) (file : string) (opts : RunCommandOptions)
    (w : World rt) : ending * Terminal * World rt :=
  match parse rt file with
  | Throw e => (Exited 1, {| out := []; err := [report e] |}, w)
  | Ok prog =>
      match JSON_parse rt (cli_input opts) with
      | None =>
          (Exited 1,
           {| out := []; err := [Line "Error: --input must be valid JSON"] |}, w)
      | Some data =>
          match validate prog data with
          | (lines, Stop code) => (Exited code, {| out := []; err := lines |}, w)
          | (lines, Raise e) =>
              (Exited 1, {| out := []; err := lines ++ [report e] |}, w)
          | (lines, Go) =>
              match run rt depth prog data (run_options opts) w with
              | (Returned result, w') =>
                  (Completed,
                   {| out := [stringify_pretty "" result]; err := lines |}, w')
              | (Thrown e, w') =>
                  (Exited 1, {| out := []; err := lines ++ [report e] |}, w')
              | (Unfinished, w') => (Cut, {| out := []; err := lines |}, w')
              end
          end
      end
  end.

End Cli.

(* ----------------------------------------------------------------- *)
(** *** A program with a required input field, and its runtime *)

Definition greeter_input : list (string * value) :=
  [ ("type", VStr "object");
    ("properties", VObj [ ("who", VObj [ ("type", VStr "string") ]) ]);
    ("required", VArr [ VStr "who" ]) ].

Definition greeter_frontmatter : value :=
  VObj [ ("name", VStr "greeter"); ("description", VStr "Greets");
         ("input", VObj greeter_input); ("output", answer_schema) ].

Definition greeter : MarkdownlangProgram :=
  {| name := "greeter"; description := "Greets";
     input := VObj greeter_input; output := answer_schema;
     imports := None; body := "Say hello to {{ .who }}.";
     sourcePath := Some "/work/greeter.mdlang" |}.

(** A runtime with the file [greeter.mdlang] in its working directory,
    whose JSON parser knows the empty object, and whose provider gives
    every run the empty object as its final answer. *)
Definition office : Runtime :=
  fixture (fun p => if p =? "/work/greeter.mdlang" then Some plain_source else None)
          (Some (Some greeter_frontmatter))
          (fun text => if text =? "{}" then Some (VObj []) else None)
          (fun _ => says (Some "{}")).

Definition office_start : World office := Build_World office tt 0 [] [].

Definition loud_options : RunCommandOptions :=
  {| cli_input := "{}"; cli_model := "gpt-4o"; cli_verbose := true |}.

(* ================================================================= *)
(** ** The errors of a run *)

(** The errors a run can end with: an exception of the language or of a
    library, or one of the errors the program raises itself. *)
Definition known_error (e : exn) : Prop :=
  match e with
  | Error _ =>
      e = no_content
      \/ e = iteration_limit
      \/ (exists tool, e = no_imports tool)
      \/ (exists tool, e = unknown_tool tool)
      \/ (exists path reason, In reason reasons /\ e = invalid path reason)
  | _ => True
  end.

(* ================================================================= *)
(** ** Own properties: reading after writing *)

Ltac eqb_cases :=
  repeat match goal with
  | |- context [String.eqb ?a ?b] =>
      let E := fresh "E" in
      destruct (String.eqb a b) eqn:E;
      [apply String.eqb_eq in E | apply String.eqb_neq in E]
  | H : context [String.eqb ?a ?b] |- _ =>
      let E := fresh "E" in
      destruct (String.eqb a b) eqn:E;
      [apply String.eqb_eq in E | apply String.eqb_neq in E]
  end.

Lemma obj_get_update_same k v o :
  has_own k o = true -> obj_get k (obj_update k v o) = Some v.
Proof.
  unfold has_own. induction o as [|[k' v'] o IH]; simpl; [discriminate|].
  destruct (k' =? k) eqn:E; simpl; rewrite E; auto.
Qed.

Lemma obj_get_update_other k k' v o :
  k <> k' -> obj_get k (obj_update k' v o) = obj_get k o.
Proof.
  intros Hne. induction o as [|[k1 v1] o IH]; simpl; [reflexivity|].
  destruct (k1 =? k') eqn:E; simpl.
  - apply String.eqb_eq in E. subst k1.
    apply not_eq_sym, String.eqb_neq in Hne. rewrite Hne. reflexivity.
  - rewrite IH. reflexivity.
Qed.

Lemma obj_get_insert_other n k k' v o :
  k <> k' -> obj_get k (insert_index n k' v o) = obj_get k o.
Proof.
  intros Hne. apply not_eq_sym in Hne. apply String.eqb_neq in Hne.
  induction o as [|[k1 v1] o IH]; simpl.
  - rewrite Hne. reflexivity.
  - destruct (array_index k1) as [n'|].
    + destruct (n <? n')%N; simpl.
      * rewrite Hne. reflexivity.
      * rewrite IH. reflexivity.
    + simpl. rewrite Hne. reflexivity.
Qed.

Lemma obj_get_insert_same n k v o :
  obj_get k o = None -> obj_get k (insert_index n k v o) = Some v.
Proof.
  induction o as [|[k1 v1] o IH]; simpl; intros H.
  - rewrite String.eqb_refl. reflexivity.
  - destruct (k1 =? k) eqn:E; [discriminate|].
    destruct (array_index k1) as [n'|].
    + destruct (n <? n')%N; simpl.
      * rewrite String.eqb_refl. reflexivity.
      * rewrite E. auto.
    + simpl. rewrite String.eqb_refl. reflexivity.
Qed.

Lemma obj_get_app k o o' :
  obj_get k (o ++ o') =
  match obj_get k o with Some v => Some v | None => obj_get k o' end.
Proof.
  induction o as [|[k1 v1] o IH]; simpl; [reflexivity|].
  destruct (k1 =? k); auto.
Qed.

Lemma obj_get_set_other k k' v o :
  k <> k' -> obj_get k (obj_set k' v o) = obj_get k o.
Proof.
  intros Hne. unfold obj_set.
  destruct (has_own k' o).
  - apply obj_get_update_other; assumption.
  - destruct (k' =? "__proto__"); [reflexivity|].
    destruct (array_index k').
    + apply obj_get_insert_other; assumption.
    + rewrite obj_get_app. destruct (obj_get k o); [reflexivity|].
      simpl. apply not_eq_sym in Hne. apply String.eqb_neq in Hne.
      rewrite Hne. reflexivity.
Qed.

Lemma obj_get_set_same k v o :
  k <> "__proto__" -> obj_get k (obj_set k v o) = Some v.
Proof.
  intros Hne. unfold obj_set.
  destruct (has_own k o) eqn:Hown.
  - apply obj_get_update_same; assumption.
  - apply String.eqb_neq in Hne. rewrite Hne.
    unfold has_own in Hown.
    destruct (obj_get k o) eqn:G; [discriminate|].
    destruct (array_index k).
    + apply obj_get_insert_same; assumption.
    + rewrite obj_get_app, G. simpl. rewrite String.eqb_refl. reflexivity.
Qed.

Lemma obj_get_In k v o : obj_get k o = Some v -> In (k, v) o.
Proof.
  induction o as [|[k1 v1] o IH]; simpl; [discriminate|].
  destruct (k1 =? k) eqn:E.
  - apply String.eqb_eq in E. intros [= ->]. subst. left; reflexivity.
  - intros H. right; auto.
Qed.

Lemma obj_get_None k o : obj_get k o = None <-> ~ In k (map fst o).
Proof.
  induction o as [|[k1 v1] o IH]; simpl.
  - split; auto.
  - destruct (k1 =? k) eqn:E.
    + apply String.eqb_eq in E. split; [discriminate|]. intros H. exfalso; auto.
    + apply String.eqb_neq in E. rewrite IH. split; intros H; [intros [?|?]|]; tauto.
Qed.

(** *** Entries after a write *)

Lemma In_obj_update k v o e :
  In e (obj_update k v o) -> e = (k, v) \/ In e o.
Proof.
  induction o as [|[k1 v1] o IH]; simpl; [tauto|].
  destruct (k1 =? k) eqn:E; simpl.
  - apply String.eqb_eq in E. subst. intros [<-|H]; auto.
  - intros [<-|H]; auto. destruct (IH H); auto.
Qed.

Lemma In_insert_index n k v o e :
  In e (insert_index n k v o) -> e = (k, v) \/ In e o.
Proof.
  induction o as [|[k1 v1] o IH]; simpl.
  - intros [<-|[]]; auto.
  - destruct (array_index k1) as [n'|].
    + destruct (n <? n')%N; simpl.
      * intros [<-|[<-|H]]; auto.
      * intros [<-|H]; auto. destruct (IH H); auto.
    + simpl. intros [<-|[<-|H]]; auto.
Qed.

Lemma In_obj_set k v o e :
  In e (obj_set k v o) -> e = (k, v) \/ In e o.
Proof.
  unfold obj_set. destruct (has_own k o).
  - apply In_obj_update.
  - destruct (k =? "__proto__"); [auto|].
    destruct (array_index k).
    + apply In_insert_index.
    + rewrite in_app_iff. simpl. intros [H|[<-|[]]]; auto.
Qed.

Lemma In_copy_supported es acc e :
  In e (copy_supported es acc) -> (In e es /\ supported (fst e) = true) \/ In e acc.
Proof.
  revert acc. induction es as [|[k v] es IH]; simpl; intros acc H; [auto|].
  apply IH in H. destruct H as [[H1 H2]|H]; [auto|].
  destruct (supported k) eqn:S; [|auto].
  apply In_obj_set in H. destruct H as [->|H]; auto.
Qed.

(* ================================================================= *)
(** ** The recursion of the normaliser is well founded *)

Lemma list_max_In x l : In x l -> x <= list_max l.
Proof.
  induction l as [|y l IH]; simpl; [tauto|].
  intros [->|H]; [lia|]. specialize (IH H). lia.
Qed.

Lemma height_elem v l : In v l -> height v < height (VArr l).
Proof.
  intros H. simpl. apply Nat.lt_succ_r. apply list_max_In.
  apply in_map. assumption.
Qed.

Lemma height_prop k v o : In (k, v) o -> height v < height (VObj o).
Proof.
  intros H. simpl. apply Nat.lt_succ_r. apply list_max_In.
  apply (in_map (fun kv => height (snd kv)) _ _ H).
Qed.

Lemma In_index_entries k v l : In (k, v) (index_entries l) -> In v l.
Proof. unfold index_entries. apply in_combine_r. Qed.

Lemma height_chars v s : In v (chars s) -> height v = 0.
Proof.
  induction s as [|c s IH]; simpl; [tauto|]. intros [<-|H]; auto.
Qed.

Lemma height_entries s es k v :
  Object_entries s = Ok es -> In (k, v) es -> height v <= height s.
Proof.
  destruct s; simpl; intros [= <-] H; try contradiction.
  - apply In_index_entries in H. apply height_chars in H. lia.
  - apply In_index_entries in H. apply height_elem in H. simpl in H. lia.
  - apply height_prop in H. simpl in H. lia.
Qed.

Lemma height_entries_object s es k v :
  typeof s = "object" ->
  Object_entries s = Ok es -> In (k, v) es -> height v < height s.
Proof.
  destruct s; simpl; try discriminate; intros _ [= <-] H.
  - apply In_index_entries in H. apply height_elem in H. assumption.
  - apply height_prop in H. assumption.
Qed.

Lemma assign_props_ext rec1 rec2 es acc :
  (forall k v, In (k, v) es -> rec1 v = rec2 v) ->
  assign_props rec1 es acc = assign_props rec2 es acc.
Proof.
  revert acc. induction es as [|[k v] es IH]; simpl; intros acc H; [reflexivity|].
  rewrite (H k v) by auto. destruct (rec2 v); simpl; [|reflexivity].
  apply IH. intros k' v' Hin. apply (H k' v'). auto.
Qed.

Lemma mapM_ext {A B} (f g : A -> completion B) l :
  (forall a, In a l -> f a = g a) -> mapM f l = mapM g l.
Proof.
  induction l as [|a l IH]; simpl; intros H; [reflexivity|].
  rewrite (H a) by auto. rewrite IH by auto. reflexivity.
Qed.

Lemma array_map_ext rec1 rec2 xs :
  (forall v, height v < height xs -> rec1 v = rec2 v) ->
  array_map rec1 xs = array_map rec2 xs.
Proof.
  destruct xs; simpl; try reflexivity. intros H.
  rewrite (mapM_ext rec1 rec2); [reflexivity|].
  intros a Ha. apply H. apply (height_elem a _ Ha).
Qed.

(** What the first loop leaves in [result] was an entry of the schema. *)
Lemma copied_height s es k v :
  typeof s = "object" -> Object_entries s = Ok es ->
  obj_get k (copy_supported es []) = Some v -> height v < height s.
Proof.
  intros Ht He G. apply obj_get_In in G. apply In_copy_supported in G.
  destruct G as [[G _]|[]]. eapply height_entries_object; eauto.
Qed.

Lemma strict_object_ext rec1 rec2 r bound :
  (forall k v, obj_get k r = Some v -> height v < bound) ->
  (forall v, height v < bound -> rec1 v = rec2 v) ->
  strict_object rec1 r = strict_object rec2 r.
Proof.
  intros Hr H. unfold strict_object.
  destruct (obj_get "properties" r) as [props|] eqn:Gp; [|reflexivity].
  destruct (is_string (obj_get "type" r) "object" && truthy props); [|reflexivity].
  destruct (Object_keys props); simpl; [|reflexivity].
  destruct (Object_entries props) as [ps|] eqn:Hp; simpl; [|reflexivity].
  rewrite (assign_props_ext rec1 rec2); [reflexivity|].
  intros k v Hin. apply H.
  pose proof (height_entries _ _ _ _ Hp Hin).
  pose proof (Hr _ _ Gp). lia.
Qed.

Lemma strict_object_keeps rec r r1 k :
  strict_object rec r = Ok r1 ->
  k <> "required" -> k <> "additionalProperties" -> k <> "properties" ->
  obj_get k r1 = obj_get k r.
Proof.
  unfold strict_object. intros H N1 N2 N3.
  destruct (obj_get "properties" r) as [props|]; [|injection H as <-; reflexivity].
  destruct (is_string (obj_get "type" r) "object" && truthy props);
    [|injection H as <-; reflexivity].
  destruct (Object_keys props); simpl in H; [|discriminate].
  destruct (Object_entries props) as [ps|]; simpl in H; [|discriminate].
  destruct (assign_props rec ps []); simpl in H; [|discriminate].
  injection H as <-. rewrite !obj_get_set_other by assumption. reflexivity.
Qed.

Lemma strict_array_ext rec1 rec2 r bound :
  (forall v, obj_get "items" r = Some v -> height v < bound) ->
  (forall v, height v < bound -> rec1 v = rec2 v) ->
  strict_array rec1 r = strict_array rec2 r.
Proof.
  intros Hr H. unfold strict_array.
  destruct (obj_get "items" r) as [items|] eqn:Gi; [|reflexivity].
  destruct (is_string (obj_get "type" r) "array" && truthy items); [|reflexivity].
  rewrite (H items) by auto. reflexivity.
Qed.

Lemma strict_array_keeps rec r r1 k :
  strict_array rec r = Ok r1 -> k <> "items" -> obj_get k r1 = obj_get k r.
Proof.
  unfold strict_array. intros H N1.
  destruct (obj_get "items" r) as [items|]; [|injection H as <-; reflexivity].
  destruct (is_string (obj_get "type" r) "array" && truthy items);
    [|injection H as <-; reflexivity].
  destruct (rec items); simpl in H; [|discriminate].
  injection H as <-. rewrite obj_get_set_other by assumption. reflexivity.
Qed.

Lemma strict_anyOf_ext rec1 rec2 r bound :
  (forall v, obj_get "anyOf" r = Some v -> height v < bound) ->
  (forall v, height v < bound -> rec1 v = rec2 v) ->
  strict_anyOf rec1 r = strict_anyOf rec2 r.
Proof.
  intros Hr H. unfold strict_anyOf.
  destruct (obj_get "anyOf" r) as [xs|] eqn:Gi; [|reflexivity].
  destruct (truthy xs); [|reflexivity].
  rewrite (array_map_ext rec1 rec2); [reflexivity|].
  intros v Hv. apply H. specialize (Hr xs eq_refl). lia.
Qed.

Lemma prepare_body_ext rec1 rec2 s :
  (forall v, height v < height s -> rec1 v = rec2 v) ->
  prepare_body rec1 s = prepare_body rec2 s.
Proof.
  intros H. unfold prepare_body.
  destruct (negb (truthy s) || negb (typeof s =? "object")) eqn:G; [reflexivity|].
  apply orb_false_elim in G. destruct G as [_ G].
  apply negb_false_iff, String.eqb_eq in G.
  destruct (Object_entries s) as [es|] eqn:He; simpl; [|reflexivity].
  set (r0 := copy_supported es []).
  assert (Hr0 : forall k v, obj_get k r0 = Some v -> height v < height s)
    by (intros k v; apply (copied_height s es k v G He)).
  rewrite (strict_object_ext rec1 rec2 r0 (height s) Hr0 H).
  destruct (strict_object rec2 r0) as [r1|] eqn:E1; simpl; [|reflexivity].
  assert (Hi : obj_get "items" r1 = obj_get "items" r0)
    by (apply (strict_object_keeps _ _ _ _ E1); discriminate).
  assert (Ha : obj_get "anyOf" r1 = obj_get "anyOf" r0)
    by (apply (strict_object_keeps _ _ _ _ E1); discriminate).
  rewrite (strict_array_ext rec1 rec2 r1 (height s));
    [|intros v Hv; rewrite Hi in Hv; eauto|assumption].
  destruct (strict_array rec2 r1) as [r2|] eqn:E2; simpl; [|reflexivity].
  assert (Ha2 : obj_get "anyOf" r2 = obj_get "anyOf" r1)
    by (apply (strict_array_keeps _ _ _ _ E2); discriminate).
  rewrite (strict_anyOf_ext rec1 rec2 r2 (height s));
    [reflexivity|intros v Hv; rewrite Ha2, Ha in Hv; eauto|assumption].
Qed.

Lemma prepare_fuel_stable n m s :
  height s < n -> height s < m -> prepare_fuel n s = prepare_fuel m s.
Proof.
  revert m s. induction n as [|n IH]; intros m s Hn Hm; [lia|].
  destruct m as [|m]; [lia|]. simpl.
  apply prepare_body_ext. intros v Hv. apply IH; lia.
Qed.

(** The function satisfies the recursive equation of the source. *)
Lemma prepare_unfold s :
  prepareSchemaForStrictMode s = prepare_body prepareSchemaForStrictMode s.
Proof.
  unfold prepareSchemaForStrictMode at 1. simpl.
  apply prepare_body_ext. intros v Hv.
  unfold prepareSchemaForStrictMode. apply prepare_fuel_stable; lia.
Qed.

(* ================================================================= *)
(** ** Keys of the result *)

Lemma supported_In k : supported k = true <-> In k supportedKeys.
Proof.
  unfold supported. rewrite existsb_exists. split.
  - intros [x [Hin E]]. apply String.eqb_eq in E. subst. assumption.
  - intros H. exists k. split; [assumption|apply String.eqb_refl].
Qed.

(** No supported key is an array index or [__proto__]: a supported key
    that is new to an object is enumerated last. *)
Lemma supported_plain k :
  supported k = true -> array_index k = None /\ k <> "__proto__".
Proof.
  intros H. apply supported_In in H. unfold supportedKeys in H. simpl in H.
  repeat (destruct H as [<-|H]; [split; [reflexivity|discriminate]|]).
  contradiction.
Qed.

Lemma obj_set_fresh k v o :
  supported k = true -> obj_get k o = None -> obj_set k v o = o ++ [(k, v)].
Proof.
  intros Hs Hg. destruct (supported_plain k Hs) as [Hi Hp].
  unfold obj_set, has_own. rewrite Hg, Hi.
  apply String.eqb_neq in Hp. rewrite Hp. reflexivity.
Qed.

Lemma obj_update_keys k v o : map fst (obj_update k v o) = map fst o.
Proof.
  induction o as [|[k1 v1] o IH]; simpl; [reflexivity|].
  destruct (k1 =? k); simpl; [reflexivity|]. rewrite IH. reflexivity.
Qed.

Lemma obj_update_same k v o :
  obj_get k o = Some v -> obj_update k v o = o.
Proof.
  induction o as [|[k1 v1] o IH]; simpl; [reflexivity|].
  destruct (k1 =? k); [intros [= ->]; reflexivity|].
  intros H. rewrite IH by assumption. reflexivity.
Qed.

(** Writing the value that is already there changes nothing. *)
Lemma obj_set_same_value k v o : obj_get k o = Some v -> obj_set k v o = o.
Proof.
  intros H. unfold obj_set, has_own. rewrite H. apply obj_update_same. assumption.
Qed.

Lemma obj_set_keys k v o x :
  In x (map fst (obj_set k v o)) -> x = k \/ In x (map fst o).
Proof.
  intros H. apply in_map_iff in H. destruct H as [[k1 v1] [<- H]].
  apply In_obj_set in H. destruct H as [[= -> ->]|H]; [left; reflexivity|].
  right. apply (in_map fst _ _ H).
Qed.

Lemma tidy_nil : tidy [].
Proof. split; constructor. Qed.

Lemma tidy_set k v r : supported k = true -> tidy r -> tidy (obj_set k v r).
Proof.
  intros Hs [Hn Hf]. destruct (obj_get k r) as [v0|] eqn:G.
  - unfold obj_set, has_own. rewrite G. unfold tidy.
    rewrite obj_update_keys. split; assumption.
  - rewrite obj_set_fresh by assumption. unfold tidy. rewrite map_app. simpl.
    split.
    + apply NoDup_app; [assumption|repeat constructor; simpl; tauto|].
      intros x Hx [<-|[]]. apply obj_get_None in G. contradiction.
    + apply Forall_app. split; [assumption|repeat constructor; assumption].
Qed.

Lemma tidy_copy es acc : tidy acc -> tidy (copy_supported es acc).
Proof.
  revert acc. induction es as [|[k v] es IH]; simpl; intros acc H; [assumption|].
  apply IH. destruct (supported k) eqn:S; [apply tidy_set|]; assumption.
Qed.

Lemma tidy_strict_object rec r r1 :
  strict_object rec r = Ok r1 -> tidy r -> tidy r1.
Proof.
  unfold strict_object. intros H T.
  destruct (obj_get "properties" r) as [props|]; [|injection H as <-; assumption].
  destruct (is_string (obj_get "type" r) "object" && truthy props);
    [|injection H as <-; assumption].
  destruct (Object_keys props); simpl in H; [|discriminate].
  destruct (Object_entries props) as [ps|]; simpl in H; [|discriminate].
  destruct (assign_props rec ps []); simpl in H; [|discriminate].
  injection H as <-. repeat apply tidy_set; auto.
Qed.

Lemma tidy_strict_array rec r r1 :
  strict_array rec r = Ok r1 -> tidy r -> tidy r1.
Proof.
  unfold strict_array. intros H T.
  destruct (obj_get "items" r) as [items|]; [|injection H as <-; assumption].
  destruct (is_string (obj_get "type" r) "array" && truthy items);
    [|injection H as <-; assumption].
  destruct (rec items); simpl in H; [|discriminate].
  injection H as <-. apply tidy_set; auto.
Qed.

Lemma tidy_strict_anyOf rec r r1 :
  strict_anyOf rec r = Ok r1 -> tidy r -> tidy r1.
Proof.
  unfold strict_anyOf. intros H T.
  destruct (obj_get "anyOf" r) as [xs|]; [|injection H as <-; assumption].
  destruct (truthy xs); [|injection H as <-; assumption].
  destruct (array_map rec xs); simpl in H; [|discriminate].
  injection H as <-. apply tidy_set; auto.
Qed.

(** Whatever the input, a returned object carries supported keys only. *)
Lemma prepare_body_tidy rec s r :
  truthy s = true -> typeof s = "object" ->
  prepare_body rec s = Ok r -> exists o, r = VObj o /\ tidy o.
Proof.
  intros Ht Hty. unfold prepare_body. rewrite Ht, Hty. simpl.
  destruct (Object_entries s) as [es|]; simpl; [|discriminate].
  destruct (strict_object rec _) as [r1|] eqn:E1; simpl; [|discriminate].
  destruct (strict_array rec r1) as [r2|] eqn:E2; simpl; [|discriminate].
  destruct (strict_anyOf rec r2) as [r3|] eqn:E3; simpl; [|discriminate].
  intros [= <-]. exists r3. split; [reflexivity|].
  eapply tidy_strict_anyOf; [eassumption|].
  eapply tidy_strict_array; [eassumption|].
  eapply tidy_strict_object; [eassumption|].
  apply tidy_copy, tidy_nil.
Qed.

(* ================================================================= *)
(** ** Arrays and primitives *)

Lemma index_key_unsupported i : supported (index_key i) = false.
Proof.
  unfold index_key. destruct (Nat.to_uint i); reflexivity.
Qed.

Lemma copy_unsupported es acc :
  (forall e, In e es -> supported (fst e) = false) ->
  copy_supported es acc = acc.
Proof.
  revert acc. induction es as [|[k v] es IH]; simpl; intros acc H; [reflexivity|].
  pose proof (H (k, v) (or_introl eq_refl)) as Hk. simpl in Hk. rewrite Hk.
  apply IH. intros e He. apply H. auto.
Qed.

Lemma index_entries_unsupported l e :
  In e (index_entries l) -> supported (fst e) = false.
Proof.
  destruct e as [k v]. unfold index_entries. intros H.
  apply in_combine_l in H. apply in_map_iff in H.
  destruct H as [i [<- _]]. apply index_key_unsupported.
Qed.

Lemma prepare_array l : prepareSchemaForStrictMode (VArr l) = Ok (VObj []).
Proof.
  rewrite prepare_unfold. unfold prepare_body. simpl.
  rewrite copy_unsupported by apply index_entries_unsupported.
  reflexivity.
Qed.

(* ================================================================= *)
(** ** Schemas are normalised without a throw *)

Lemma is_schema_entry o k v :
  is_schema (VObj o) = true -> In (k, v) o ->
  (k = "properties" ->
     exists ps, v = VObj ps /\ forall p, In p ps -> is_schema (snd p) = true) /\
  (k = "items" -> is_schema v = true) /\
  (k = "anyOf" ->
     exists l, v = VArr l /\ forall x, In x l -> is_schema x = true).
Proof.
  simpl. intros H Hin. rewrite forallb_forall in H.
  specialize (H (k, v) Hin). simpl in H.
  repeat split; intros ->; simpl in H.
  - destruct v; try discriminate. eexists; split; [reflexivity|].
    rewrite forallb_forall in H. exact H.
  - exact H.
  - destruct v; try discriminate. eexists; split; [reflexivity|].
    rewrite forallb_forall in H. exact H.
Qed.

Lemma copied_entry o k v :
  obj_get k (copy_supported o []) = Some v -> In (k, v) o.
Proof.
  intros G. apply obj_get_In in G. apply In_copy_supported in G.
  destruct G as [[G _]|[]]. exact G.
Qed.

Lemma assign_props_total rec es acc :
  (forall p, In p es -> exists q, rec (snd p) = Ok q) ->
  exists qs, assign_props rec es acc = Ok qs.
Proof.
  revert acc. induction es as [|[k v] es IH]; simpl; intros acc H.
  - eauto.
  - destruct (H (k, v) (or_introl eq_refl)) as [q Hq]. simpl in Hq.
    rewrite Hq. simpl. apply IH. intros p Hp. apply H. auto.
Qed.

Lemma mapM_total {A B} (f : A -> completion B) l :
  (forall a, In a l -> exists b, f a = Ok b) -> exists bs, mapM f l = Ok bs.
Proof.
  induction l as [|a l IH]; simpl; intros H; [eauto|].
  destruct (H a (or_introl eq_refl)) as [b ->]. simpl.
  destruct IH as [bs ->]; [intros; apply H; auto|]. simpl. eauto.
Qed.

Lemma strict_object_total rec r :
  (forall props, obj_get "properties" r = Some props ->
     exists ps, props = VObj ps /\
       forall p, In p ps -> exists q, rec (snd p) = Ok q) ->
  exists r1, strict_object rec r = Ok r1.
Proof.
  intros H. unfold strict_object.
  destruct (obj_get "properties" r) as [props|]; [|eauto].
  destruct (H props eq_refl) as [ps [-> Hps]].
  destruct (is_string (obj_get "type" r) "object" && truthy (VObj ps)); [|eauto].
  simpl. destruct (assign_props_total rec ps [] Hps) as [qs ->]. simpl. eauto.
Qed.

Lemma strict_array_total rec r :
  (forall items, obj_get "items" r = Some items -> exists q, rec items = Ok q) ->
  exists r1, strict_array rec r = Ok r1.
Proof.
  intros H. unfold strict_array.
  destruct (obj_get "items" r) as [items|]; [|eauto].
  destruct (is_string (obj_get "type" r) "array" && truthy items); [|eauto].
  destruct (H items eq_refl) as [q ->]. simpl. eauto.
Qed.

Lemma strict_anyOf_total rec r :
  (forall xs, obj_get "anyOf" r = Some xs ->
     exists l, xs = VArr l /\ forall x, In x l -> exists q, rec x = Ok q) ->
  exists r1, strict_anyOf rec r = Ok r1.
Proof.
  intros H. unfold strict_anyOf.
  destruct (obj_get "anyOf" r) as [xs|]; [|eauto].
  destruct (truthy xs); [|eauto].
  destruct (H xs eq_refl) as [l [-> Hl]]. simpl.
  destruct (mapM_total rec l Hl) as [bs ->]. simpl. eauto.
Qed.

Lemma prepare_schema_total n s :
  height s < n -> is_schema s = true ->
  exists r, prepareSchemaForStrictMode s = Ok (VObj r) /\ tidy r.
Proof.
  revert s. induction n as [|n IH]; intros s Hn Hs; [lia|].
  destruct s as [| | | | |o]; try discriminate.
  assert (Hrec : forall k v, In (k, v) o -> is_schema v = true ->
            exists q, prepareSchemaForStrictMode v = Ok q).
  { intros k v Hin Hv. pose proof (height_prop _ _ _ Hin).
    destruct (IH v) as [q [Hq _]]; [lia|assumption|eauto]. }
  assert (Hex : exists r, prepareSchemaForStrictMode (VObj o) = Ok r).
  { rewrite prepare_unfold. unfold prepare_body. simpl.
    set (r0 := copy_supported o []).
    destruct (strict_object_total prepareSchemaForStrictMode r0) as [r1 E1].
    { intros props G. apply copied_entry in G.
      destruct (is_schema_entry o _ _ Hs G) as [Hp _].
      destruct (Hp eq_refl) as [ps [-> Hps]].
      exists ps. split; [reflexivity|].
      intros [k v] Hin. simpl.
      pose proof (height_prop _ _ _ G). pose proof (height_prop _ _ _ Hin).
      destruct (IH v) as [q [Hq _]]; [lia|apply (Hps _ Hin)|eauto]. }
    rewrite E1. simpl.
    destruct (strict_array_total prepareSchemaForStrictMode r1) as [r2 E2].
    { intros items G.
      rewrite (strict_object_keeps _ _ _ _ E1) in G by discriminate.
      apply copied_entry in G.
      destruct (is_schema_entry o _ _ Hs G) as [_ [Hi _]].
      apply (Hrec _ _ G). auto. }
    rewrite E2. simpl.
    destruct (strict_anyOf_total prepareSchemaForStrictMode r2) as [r3 E3].
    { intros xs G.
      rewrite (strict_array_keeps _ _ _ _ E2) in G by discriminate.
      rewrite (strict_object_keeps _ _ _ _ E1) in G by discriminate.
      apply copied_entry in G.
      destruct (is_schema_entry o _ _ Hs G) as [_ [_ Ha]].
      destruct (Ha eq_refl) as [l [-> Hl]].
      exists l. split; [reflexivity|].
      intros x Hx.
      pose proof (height_prop _ _ _ G). pose proof (height_elem _ _ Hx).
      destruct (IH x) as [q [Hq _]]; [lia|auto|eauto]. }
    rewrite E3. simpl. eauto. }
  destruct Hex as [r Hr].
  pose proof Hr as Hr'. rewrite prepare_unfold in Hr'.
  apply prepare_body_tidy in Hr'; [|reflexivity|reflexivity].
  destruct Hr' as [o' [-> T]]. eauto.
Qed.

(* ================================================================= *)
(** ** Enumeration order and the second loop *)

Lemma enumeration_order_split xs k ys :
  enumeration_order (xs ++ k :: ys) = true ->
  ~ In k xs /\ forall a, In a xs -> precedes a k = true.
Proof.
  induction xs as [|x xs IH]; simpl; intros H; [split; [tauto|intros a []]|].
  apply andb_true_iff in H. destruct H as [H H3].
  apply andb_true_iff in H. destruct H as [H1 H2].
  destruct (IH H3) as [IH1 IH2].
  rewrite forallb_forall in H2.
  split.
  - intros [->|Hin]; [|contradiction].
    apply negb_true_iff in H1.
    assert (existsb (String.eqb k) (xs ++ k :: ys) = true); [|congruence].
    apply existsb_exists. exists k. split; [|apply String.eqb_refl].
    apply in_or_app. right. left. reflexivity.
  - intros a [<-|Hin]; [|auto].
    apply H2. apply in_or_app. right. left. reflexivity.
Qed.

Lemma enumeration_order_NoDup ks : enumeration_order ks = true -> NoDup ks.
Proof.
  induction ks as [|k ks IH]; simpl; intros H; [constructor|].
  apply andb_true_iff in H. destruct H as [H H3].
  apply andb_true_iff in H. destruct H as [H1 _].
  constructor; [|auto].
  intros Hin. apply negb_true_iff in H1.
  assert (existsb (String.eqb k) ks = true); [|congruence].
  apply existsb_exists. exists k. split; [assumption|apply String.eqb_refl].
Qed.

Lemma insert_index_last n k v acc :
  array_index k = Some n ->
  (forall a, In a (map fst acc) -> precedes a k = true) ->
  insert_index n k v acc = acc ++ [(k, v)].
Proof.
  intros Hk. induction acc as [|[k1 v1] acc IH]; simpl; intros H; [reflexivity|].
  pose proof (H k1 (or_introl eq_refl)) as H1. unfold precedes in H1.
  rewrite Hk in H1. destruct (array_index k1) as [n1|]; [|discriminate].
  apply N.ltb_lt in H1.
  destruct (n <? n1)%N eqn:E; [apply N.ltb_lt in E; lia|].
  rewrite IH by auto. reflexivity.
Qed.

(** A key that may follow every key of the object is enumerated last. *)
Lemma obj_set_last k v acc :
  ~ In k (map fst acc) -> k <> "__proto__" ->
  (forall a, In a (map fst acc) -> precedes a k = true) ->
  obj_set k v acc = acc ++ [(k, v)].
Proof.
  intros Hn Hp Ha. unfold obj_set, has_own.
  apply obj_get_None in Hn. rewrite Hn.
  apply String.eqb_neq in Hp. rewrite Hp.
  destruct (array_index k) as [n|] eqn:E; [|reflexivity].
  apply insert_index_last; assumption.
Qed.

(** Assigning the entries of an object one by one to a fresh object
    rebuilds them in the same order, unless one is named [__proto__]. *)
Lemma assign_props_ordered rec ps : forall acc qs,
  enumeration_order (map fst acc ++ map fst ps) = true ->
  ~ In "__proto__" (map fst ps) ->
  Forall2 (fun p q => fst q = fst p /\ rec (snd p) = Ok (snd q)) ps qs ->
  assign_props rec ps acc = Ok (acc ++ qs).
Proof.
  induction ps as [|[k v] ps IH]; intros acc qs Ho Hp HF.
  - inversion HF; subst. simpl. rewrite app_nil_r. reflexivity.
  - inversion HF as [|p q ps' qs' [Hk Hv] HF']; subst. simpl in *.
    destruct q as [k' v']. simpl in *. subst k'. rewrite Hv. simpl.
    destruct (enumeration_order_split _ _ _ Ho) as [Hfresh Hprec].
    rewrite obj_set_last; [|assumption|tauto|assumption].
    rewrite (IH (acc ++ [(k, v')]) qs').
    + rewrite <- app_assoc. reflexivity.
    + rewrite map_app. simpl. rewrite <- app_assoc. simpl. exact Ho.
    + tauto.
    + assumption.
Qed.

Lemma Forall2_build {A B} (R : A -> B -> Prop) l :
  (forall a, In a l -> exists b, R a b) -> exists l', Forall2 R l l'.
Proof.
  induction l as [|a l IH]; intros H; [exists []; constructor|].
  destruct (H a (or_introl eq_refl)) as [b Hb].
  destruct IH as [l' Hl']; [intros; apply H; right; assumption|].
  exists (b :: l'). constructor; assumption.
Qed.

Lemma Forall2_keys (rec : value -> completion value) (ps qs : obj) :
  Forall2 (fun p q => fst q = fst p /\ rec (snd p) = Ok (snd q)) ps qs ->
  map fst qs = map fst ps.
Proof.
  induction 1 as [|p q ps qs [H1 _] _ IH]; simpl; [reflexivity|].
  rewrite H1, IH. reflexivity.
Qed.

(* ================================================================= *)
(** ** Copying an object whose keys are all supported *)

Lemma copy_supported_app es : forall acc,
  tidy acc -> NoDup (map fst es) ->
  (forall k, In k (map fst es) -> ~ In k (map fst acc)) ->
  copy_supported es acc = acc ++ filter (fun e => supported (fst e)) es.
Proof.
  induction es as [|[k v] es IH]; simpl; intros acc T Hn Hd.
  - rewrite app_nil_r. reflexivity.
  - inversion Hn as [|? ? Hk Hn']; subst.
    destruct (supported k) eqn:S.
    + assert (G : obj_get k acc = None) by (apply obj_get_None; apply Hd; auto).
      rewrite obj_set_fresh by assumption.
      rewrite IH.
      * rewrite <- app_assoc. reflexivity.
      * rewrite <- (obj_set_fresh k v acc S G). apply tidy_set; assumption.
      * assumption.
      * intros x Hx. rewrite map_app, in_app_iff. simpl.
        intros [Hin|[<-|[]]]; [|contradiction].
        apply (Hd x); auto.
    + apply IH; auto.
Qed.

Lemma filter_all {A} (f : A -> bool) l :
  Forall (fun a => f a = true) l -> filter f l = l.
Proof.
  induction 1 as [|a l Ha _ IH]; simpl; [reflexivity|].
  rewrite Ha, IH. reflexivity.
Qed.

Lemma copy_tidy r : tidy r -> copy_supported r [] = r.
Proof.
  intros [Hn Hf]. rewrite copy_supported_app.
  - simpl. apply filter_all. rewrite Forall_map in Hf. exact Hf.
  - apply tidy_nil.
  - assumption.
  - intros k _ [].
Qed.

Lemma obj_get_filter k o :
  supported k = true ->
  obj_get k (filter (fun e => supported (fst e)) o) = obj_get k o.
Proof.
  intros S. induction o as [|[k1 v1] o IH]; simpl; [reflexivity|].
  destruct (k1 =? k) eqn:E.
  - apply String.eqb_eq in E. subst. rewrite S. simpl.
    rewrite String.eqb_refl. reflexivity.
  - destruct (supported k1); simpl; [rewrite E|]; exact IH.
Qed.

(** On an object as JavaScript has it, the first loop is a filter. *)
Lemma copy_lookup k o :
  NoDup (map fst o) -> supported k = true ->
  obj_get k (copy_supported o []) = obj_get k o.
Proof.
  intros Hn S. rewrite copy_supported_app.
  - simpl. apply obj_get_filter. assumption.
  - apply tidy_nil.
  - assumption.
  - intros x _ [].
Qed.

(* ================================================================= *)
(** ** Results on which the three blocks change nothing *)

Section Settled.
Variable rec : value -> completion value.

Lemma Forall2_self (ps : obj) :
  (forall p, In p ps -> rec (snd p) = Ok (snd p)) ->
  Forall2 (fun p q => fst q = fst p /\ rec (snd p) = Ok (snd q)) ps ps.
Proof.
  induction ps as [|p ps IH]; intros H; constructor.
  - split; [reflexivity|]. apply H. left; reflexivity.
  - apply IH. intros q Hq. apply H. right; assumption.
Qed.

Lemma settled_object_fix r : settled_object rec r -> strict_object rec r = Ok r.
Proof.
  intros H. unfold strict_object.
  destruct (obj_get "properties" r) as [props|] eqn:Gp; [|reflexivity].
  destruct (is_string (obj_get "type" r) "object" && truthy props) eqn:G;
    [|reflexivity].
  destruct (H props Gp G) as [ps [-> [Ho [Hp [Hrec [Hreq Hadd]]]]]].
  simpl.
  rewrite (assign_props_ordered rec ps [] ps); simpl;
    [|assumption|assumption|apply Forall2_self; assumption].
  rewrite (obj_set_same_value "required") by assumption.
  rewrite (obj_set_same_value "additionalProperties") by assumption.
  rewrite (obj_set_same_value "properties") by assumption.
  reflexivity.
Qed.

Lemma settled_array_fix r : settled_array rec r -> strict_array rec r = Ok r.
Proof.
  intros H. unfold strict_array.
  destruct (obj_get "items" r) as [items|] eqn:Gi; [|reflexivity].
  destruct (is_string (obj_get "type" r) "array" && truthy items) eqn:G;
    [|reflexivity].
  rewrite (H items Gi G). simpl.
  rewrite obj_set_same_value by assumption. reflexivity.
Qed.

Lemma settled_anyOf_fix r : settled_anyOf rec r -> strict_anyOf rec r = Ok r.
Proof.
  intros H. unfold strict_anyOf.
  destruct (obj_get "anyOf" r) as [xs|] eqn:Gi; [|reflexivity].
  destruct (truthy xs) eqn:G; [|reflexivity].
  rewrite (H xs Gi G). simpl.
  rewrite obj_set_same_value by assumption. reflexivity.
Qed.

Lemma settled_fix r :
  tidy r -> settled_object rec r -> settled_array rec r -> settled_anyOf rec r ->
  prepare_body rec (VObj r) = Ok (VObj r).
Proof.
  intros T H1 H2 H3. unfold prepare_body. simpl.
  rewrite copy_tidy by assumption.
  rewrite settled_object_fix by assumption. simpl.
  rewrite settled_array_fix by assumption. simpl.
  rewrite settled_anyOf_fix by assumption. reflexivity.
Qed.

(** Each predicate reads a few keys only. *)
Lemma settled_object_keeps r r' :
  obj_get "type" r' = obj_get "type" r ->
  obj_get "properties" r' = obj_get "properties" r ->
  obj_get "required" r' = obj_get "required" r ->
  obj_get "additionalProperties" r' = obj_get "additionalProperties" r ->
  settled_object rec r -> settled_object rec r'.
Proof.
  intros E1 E2 E3 E4 H props. rewrite E1, E2, E3, E4. apply H.
Qed.

Lemma settled_array_keeps r r' :
  obj_get "type" r' = obj_get "type" r ->
  obj_get "items" r' = obj_get "items" r ->
  settled_array rec r -> settled_array rec r'.
Proof.
  intros E1 E2 H items. rewrite E1, E2. apply H.
Qed.

(** What the first block establishes. *)
Lemma strict_object_first r :
  (forall props, obj_get "properties" r = Some props ->
     exists ps, props = VObj ps
       /\ enumeration_order (map fst ps) = true
       /\ ~ In "__proto__" (map fst ps)
       /\ forall p, In p ps ->
            exists q, rec (snd p) = Ok q /\ rec q = Ok q) ->
  exists r1, strict_object rec r = Ok r1 /\ settled_object rec r1.
Proof.
  intros H. unfold strict_object.
  destruct (obj_get "properties" r) as [props|] eqn:Gp.
  2:{ exists r. split; [reflexivity|]. intros props G. congruence. }
  destruct (is_string (obj_get "type" r) "object" && truthy props) eqn:G.
  2:{ exists r. split; [reflexivity|]. intros props' G'.
      rewrite Gp in G'. injection G' as <-. congruence. }
  destruct (H props eq_refl) as [ps [-> [Ho [Hp Hch]]]]. simpl.
  destruct (Forall2_build
              (fun p q => fst q = fst p /\ (rec (snd p) = Ok (snd q)
                                            /\ rec (snd q) = Ok (snd q))) ps)
    as [qs HF].
  { intros [k v] Hin. destruct (Hch _ Hin) as [q [Hq1 Hq2]].
    exists (k, q). simpl. auto. }
  assert (HF' : Forall2 (fun p q => fst q = fst p /\ rec (snd p) = Ok (snd q)) ps qs).
  { eapply Forall2_impl; [|exact HF]. simpl. intros a b [? [? ?]]. auto. }
  rewrite (assign_props_ordered rec ps [] qs); simpl; [|assumption|assumption|assumption].
  eexists. split; [reflexivity|].
  pose proof (Forall2_keys rec ps qs HF') as Hkeys.
  intros props' G' _.
  rewrite obj_get_set_same in G' by discriminate. injection G' as <-.
  exists qs. split; [reflexivity|]. rewrite Hkeys.
  repeat split; try assumption.
  - intros q Hq. clear - HF Hq.
    induction HF as [|p0 q0 ps qs [_ [_ H]] _ IH]; [contradiction|].
    destruct Hq as [<-|Hq]; auto.
  - rewrite obj_get_set_other by discriminate.
    rewrite obj_get_set_other by discriminate.
    apply obj_get_set_same. discriminate.
  - rewrite obj_get_set_other by discriminate.
    apply obj_get_set_same. discriminate.
Qed.

Lemma strict_array_first r :
  (forall items, obj_get "items" r = Some items ->
     exists q, rec items = Ok q /\ rec q = Ok q) ->
  exists r1, strict_array rec r = Ok r1 /\ settled_array rec r1.
Proof.
  intros H. unfold strict_array.
  destruct (obj_get "items" r) as [items|] eqn:Gi.
  2:{ exists r. split; [reflexivity|]. intros items G. congruence. }
  destruct (is_string (obj_get "type" r) "array" && truthy items) eqn:G.
  2:{ exists r. split; [reflexivity|]. intros items' G'.
      rewrite Gi in G'. injection G' as <-. congruence. }
  destruct (H items eq_refl) as [q [Hq1 Hq2]]. rewrite Hq1. simpl.
  eexists. split; [reflexivity|].
  intros items' G' _.
  rewrite obj_get_set_same in G' by discriminate. injection G' as <-.
  assumption.
Qed.

Lemma mapM_settle l :
  (forall x, In x l -> exists q, rec x = Ok q /\ rec q = Ok q) ->
  exists l', mapM rec l = Ok l' /\ mapM rec l' = Ok l'.
Proof.
  induction l as [|x l IH]; simpl; intros H; [exists []; auto|].
  destruct (H x (or_introl eq_refl)) as [q [Hq1 Hq2]].
  destruct IH as [l' [Hl1 Hl2]]; [intros; apply H; auto|].
  exists (q :: l'). rewrite Hq1. simpl. rewrite Hl1. simpl.
  rewrite Hq2. simpl. rewrite Hl2. auto.
Qed.

Lemma strict_anyOf_first r :
  (forall xs, obj_get "anyOf" r = Some xs ->
     exists l, xs = VArr l /\
       forall x, In x l -> exists q, rec x = Ok q /\ rec q = Ok q) ->
  exists r1, strict_anyOf rec r = Ok r1 /\ settled_anyOf rec r1.
Proof.
  intros H. unfold strict_anyOf.
  destruct (obj_get "anyOf" r) as [xs|] eqn:Gi.
  2:{ exists r. split; [reflexivity|]. intros xs G. congruence. }
  destruct (truthy xs) eqn:G.
  2:{ exists r. split; [reflexivity|]. intros xs' G'.
      rewrite Gi in G'. injection G' as <-. congruence. }
  destruct (H xs eq_refl) as [l [-> Hl]]. simpl.
  destruct (mapM_settle l Hl) as [l' [Hl1 Hl2]]. rewrite Hl1. simpl.
  eexists. split; [reflexivity|].
  intros xs' G' _.
  rewrite obj_get_set_same in G' by discriminate. injection G' as <-.
  simpl. rewrite Hl2. reflexivity.
Qed.
End Settled.

Lemma strict_anyOf_keeps rec r r1 k :
  strict_anyOf rec r = Ok r1 -> k <> "anyOf" -> obj_get k r1 = obj_get k r.
Proof.
  unfold strict_anyOf. intros H N1.
  destruct (obj_get "anyOf" r) as [xs|]; [|injection H as <-; reflexivity].
  destruct (truthy xs); [|injection H as <-; reflexivity].
  destruct (array_map rec xs); simpl in H; [|discriminate].
  injection H as <-. rewrite obj_get_set_other by assumption. reflexivity.
Qed.

Lemma well_formed_entry o k v :
  well_formed (VObj o) = true -> In (k, v) o -> well_formed v = true.
Proof.
  simpl. intros H Hin. apply andb_true_iff in H. destruct H as [_ H].
  rewrite forallb_forall in H. apply (H (k, v) Hin).
Qed.

Lemma well_formed_elem l x :
  well_formed (VArr l) = true -> In x l -> well_formed x = true.
Proof.
  simpl. intros H Hin. rewrite forallb_forall in H. auto.
Qed.

Lemma well_formed_keys o :
  well_formed (VObj o) = true -> enumeration_order (map fst o) = true.
Proof.
  simpl. intros H. apply andb_true_iff in H. tauto.
Qed.

Lemma proto_free_entry o k v :
  proto_free (VObj o) = true -> In (k, v) o ->
  (k = "properties" -> forall ps, v = VObj ps ->
     ~ In "__proto__" (map fst ps)
     /\ forall p, In p ps -> proto_free (snd p) = true) /\
  (k = "items" -> proto_free v = true) /\
  (k = "anyOf" -> forall l, v = VArr l ->
     forall x, In x l -> proto_free x = true).
Proof.
  simpl. intros H Hin. rewrite forallb_forall in H.
  specialize (H (k, v) Hin). simpl in H.
  split; [|split].
  - intros -> ps ->. simpl in H. rewrite forallb_forall in H. split.
    + intros Hp. apply in_map_iff in Hp. destruct Hp as [p [Hk Hp]].
      specialize (H p Hp). rewrite Hk in H. discriminate.
    + intros p Hp. specialize (H p Hp). apply andb_true_iff in H. tauto.
  - intros ->. exact H.
  - intros -> l -> x Hx. simpl in H. rewrite forallb_forall in H. auto.
Qed.

(** Apart from properties named [__proto__], normalising a schema twice
    is normalising it once. *)
Lemma prepare_idempotent_fuel n : forall s,
  height s < n ->
  well_formed s = true -> is_schema s = true -> proto_free s = true ->
  exists r, prepareSchemaForStrictMode s = Ok r
            /\ prepareSchemaForStrictMode r = Ok r.
Proof.
  induction n as [|n IH]; intros s Hn Hw Hs Hp; [lia|].
  destruct s as [| | | | |o]; try discriminate.
  set (N := prepareSchemaForStrictMode).
  assert (T0 : tidy (copy_supported o [])) by apply tidy_copy, tidy_nil.
  destruct (strict_object_first N (copy_supported o [])) as [r1 [E1 S1]].
  { intros props G. apply copied_entry in G.
    destruct (is_schema_entry o _ _ Hs G) as [Hsp _].
    destruct (Hsp eq_refl) as [ps [-> Hps]].
    destruct (proto_free_entry o _ _ Hp G) as [Hpp _].
    destruct (Hpp eq_refl ps eq_refl) as [Hnp Hpf].
    pose proof (well_formed_entry _ _ _ Hw G) as Hwp.
    exists ps. repeat split; try assumption.
    - apply well_formed_keys. assumption.
    - intros [k v] Hin. simpl.
      pose proof (height_prop _ _ _ G). pose proof (height_prop _ _ _ Hin).
      apply IH; [lia| | |].
      + apply (well_formed_entry _ _ _ Hwp Hin).
      + apply (Hps _ Hin).
      + apply (Hpf _ Hin). }
  pose proof (tidy_strict_object _ _ _ E1 T0) as T1.
  destruct (strict_array_first N r1) as [r2 [E2 S2]].
  { intros items G.
    rewrite (strict_object_keeps _ _ _ _ E1) in G by discriminate.
    apply copied_entry in G.
    destruct (is_schema_entry o _ _ Hs G) as [_ [Hsi _]].
    destruct (proto_free_entry o _ _ Hp G) as [_ [Hpi _]].
    pose proof (height_prop _ _ _ G).
    apply IH; [lia| | |]; auto.
    apply (well_formed_entry _ _ _ Hw G). }
  pose proof (tidy_strict_array _ _ _ E2 T1) as T2.
  destruct (strict_anyOf_first N r2) as [r3 [E3 S3]].
  { intros xs G.
    rewrite (strict_array_keeps _ _ _ _ E2) in G by discriminate.
    rewrite (strict_object_keeps _ _ _ _ E1) in G by discriminate.
    apply copied_entry in G.
    destruct (is_schema_entry o _ _ Hs G) as [_ [_ Hsa]].
    destruct (Hsa eq_refl) as [l [-> Hl]].
    destruct (proto_free_entry o _ _ Hp G) as [_ [_ Hpa]].
    pose proof (well_formed_entry _ _ _ Hw G) as Hwa.
    exists l. split; [reflexivity|].
    intros x Hx.
    pose proof (height_prop _ _ _ G). pose proof (height_elem _ _ Hx).
    apply IH; [lia| | |]; auto.
    - apply (well_formed_elem _ _ Hwa Hx).
    - apply (Hpa eq_refl l eq_refl x Hx). }
  pose proof (tidy_strict_anyOf _ _ _ E3 T2) as T3.
  exists (VObj r3). split.
  - unfold N. rewrite prepare_unfold. unfold prepare_body. simpl.
    fold N. rewrite E1. simpl. rewrite E2. simpl. rewrite E3. reflexivity.
  - unfold N. rewrite prepare_unfold. fold N. apply settled_fix.
    + assumption.
    + apply (settled_object_keeps N r1).
      * rewrite (strict_anyOf_keeps _ _ _ _ E3) by discriminate.
        apply (strict_array_keeps _ _ _ _ E2). discriminate.
      * rewrite (strict_anyOf_keeps _ _ _ _ E3) by discriminate.
        apply (strict_array_keeps _ _ _ _ E2). discriminate.
      * rewrite (strict_anyOf_keeps _ _ _ _ E3) by discriminate.
        apply (strict_array_keeps _ _ _ _ E2). discriminate.
      * rewrite (strict_anyOf_keeps _ _ _ _ E3) by discriminate.
        apply (strict_array_keeps _ _ _ _ E2). discriminate.
      * assumption.
    + apply (settled_array_keeps N r2).
      * apply (strict_anyOf_keeps _ _ _ _ E3). discriminate.
      * apply (strict_anyOf_keeps _ _ _ _ E3). discriminate.
      * assumption.
    + assumption.
Qed.

(** X5: normalising twice is normalising once, for every schema that
    declares no property named [__proto__]: the result of the normaliser
    is a schema that the normaliser returns as it is. *)
Lemma prepare_idempotent_plain s :
  well_formed s = true -> is_schema s = true -> proto_free s = true ->
  exists r, prepareSchemaForStrictMode s = Ok r
            /\ prepareSchemaForStrictMode r = Ok r.
Proof. apply (prepare_idempotent_fuel (S (height s))). lia. Qed.

(** Apart from a property named [__proto__], an object schema with
    properties gets all of them required, no additional ones, and each
    property normalised in place. *)
Lemma strict_object_contract o ps :
  well_formed (VObj o) = true -> is_schema (VObj o) = true ->
  obj_get "type" o = Some (VStr "object") ->
  obj_get "properties" o = Some (VObj ps) ->
  ~ In "__proto__" (map fst ps) ->
  exists r qs,
    prepareSchemaForStrictMode (VObj o) = Ok (VObj r)
    /\ obj_get "required" r = Some (VArr (map VStr (map fst ps)))
    /\ obj_get "additionalProperties" r = Some (VBool false)
    /\ obj_get "properties" r = Some (VObj qs)
    /\ Forall2 (fun p q => fst q = fst p
                  /\ prepareSchemaForStrictMode (snd p) = Ok (snd q)) ps qs.
Proof.
  intros Hw Hs Gt Gp Hnp.
  set (N := prepareSchemaForStrictMode).
  destruct (prepare_schema_total _ (VObj o) (Nat.lt_succ_diag_r _) Hs) as [r [Hr _]].
  pose proof Hr as Hr'. rewrite prepare_unfold in Hr'.
  unfold prepare_body in Hr'. simpl in Hr'.
  pose proof (enumeration_order_NoDup _ (well_formed_keys _ Hw)) as Hnd.
  set (r0 := copy_supported o []) in *.
  assert (G0t : obj_get "type" r0 = Some (VStr "object"))
    by (unfold r0; rewrite copy_lookup; auto).
  assert (G0p : obj_get "properties" r0 = Some (VObj ps))
    by (unfold r0; rewrite copy_lookup; auto).
  pose proof (obj_get_In _ _ _ Gp) as Hin.
  destruct (is_schema_entry o _ _ Hs Hin) as [Hsp _].
  destruct (Hsp eq_refl) as [ps' [Eps Hps]]. injection Eps as <-.
  destruct (Forall2_build
              (fun p q => fst q = fst p /\ N (snd p) = Ok (snd q)) ps)
    as [qs HF].
  { intros [k v] Hp. simpl.
    destruct (prepare_schema_total _ v (Nat.lt_succ_diag_r _) (Hps _ Hp))
      as [q [Hq _]].
    exists (k, VObj q). simpl. auto. }
  assert (E1 : strict_object N r0 =
    Ok (obj_set "properties" (VObj qs)
          (obj_set "additionalProperties" (VBool false)
             (obj_set "required" (VArr (map VStr (map fst ps))) r0)))).
  { unfold strict_object. rewrite G0p, G0t. simpl.
    rewrite (assign_props_ordered N ps [] qs); simpl; auto.
    apply well_formed_keys. apply (well_formed_entry _ _ _ Hw Hin). }
  fold N in Hr'. rewrite E1 in Hr'. simpl in Hr'.
  destruct (strict_array N _) as [r2|] eqn:E2; simpl in Hr'; [|discriminate].
  destruct (strict_anyOf N r2) as [r3|] eqn:E3; simpl in Hr'; [|discriminate].
  injection Hr' as <-.
  exists r3, qs. split; [exact Hr|].
  repeat split.
  - rewrite (strict_anyOf_keeps _ _ _ _ E3) by discriminate.
    rewrite (strict_array_keeps _ _ _ _ E2) by discriminate.
    rewrite obj_get_set_other by discriminate.
    rewrite obj_get_set_other by discriminate.
    apply obj_get_set_same. discriminate.
  - rewrite (strict_anyOf_keeps _ _ _ _ E3) by discriminate.
    rewrite (strict_array_keeps _ _ _ _ E2) by discriminate.
    rewrite obj_get_set_other by discriminate.
    apply obj_get_set_same. discriminate.
  - rewrite (strict_anyOf_keeps _ _ _ _ E3) by discriminate.
    rewrite (strict_array_keeps _ _ _ _ E2) by discriminate.
    apply obj_get_set_same. discriminate.
  - exact HF.
Qed.

(* ================================================================= *)
(** ** The normaliser against its specification *)

(** C1 fails on the code: [proto_schema] is an object schema with the
    properties [__proto__] and [b].  Both names are required, but the
    normalised properties hold [b] alone: the assignment
    [newProps["__proto__"] = ...] sets the prototype of [newProps] and
    adds no property. *)
Theorem proto_property_dropped :
  well_formed proto_schema = true
  /\ is_schema proto_schema = true
  /\ prepareSchemaForStrictMode proto_schema
     = Ok (VObj [ ("type", VStr "object");
                  ("properties", VObj [ ("b", VObj [ ("type", VStr "integer") ]) ]);
                  ("required", VArr [ VStr "__proto__"; VStr "b" ]);
                  ("additionalProperties", VBool false) ]).
Proof. repeat split; reflexivity. Qed.

(** C2 fails on the code, for the same reason: the property [__proto__]
    is lost by the first pass and the second pass no longer requires it. *)
Theorem proto_breaks_idempotence :
  exists once twice,
    prepareSchemaForStrictMode proto_schema = Ok once
    /\ prepareSchemaForStrictMode once = Ok twice
    /\ once <> twice
    /\ twice
       = VObj [ ("type", VStr "object");
                ("properties", VObj [ ("b", VObj [ ("type", VStr "integer") ]) ]);
                ("required", VArr [ VStr "b" ]);
                ("additionalProperties", VBool false) ].
Proof.
  eexists. eexists. split; [reflexivity|]. split; [reflexivity|].
  split; [discriminate|reflexivity].
Qed.

(** C8: normalising a schema returns an object; every key of it is on the
    allow-list, so no other key of the input is a key of the output. *)
Theorem normalize_allow_list s :
  is_schema s = true ->
  exists r,
    prepareSchemaForStrictMode s = Ok (VObj r)
    /\ (forall k, In k (map fst r) -> In k supportedKeys)
    /\ (forall k, ~ In k supportedKeys -> ~ In k (map fst r)).
Proof.
  intros Hs.
  destruct (prepare_schema_total _ s (Nat.lt_succ_diag_r _) Hs) as [r [Hr [_ Hf]]].
  exists r. split; [exact Hr|].
  assert (H : forall k, In k (map fst r) -> In k supportedKeys).
  { intros k Hk. apply supported_In. rewrite Forall_forall in Hf. auto. }
  split; [exact H|]. intros k Hn Hk. apply Hn. apply H. exact Hk.
Qed.

Lemma normalize_allow_list_witness :
  is_schema person_schema = true
  /\ exists r,
       prepareSchemaForStrictMode person_schema = Ok (VObj r)
       /\ (forall k, In k (map fst r) -> In k supportedKeys)
       /\ (forall k, ~ In k supportedKeys -> ~ In k (map fst r)).
Proof.
  split; [reflexivity|]. apply (normalize_allow_list person_schema). reflexivity.
Defined.

(** X27: the allow-list holds beyond schemas.  Whatever object or
    array the normaliser is given, if it returns, it returns an object
    all of whose keys are supported. *)
Lemma normalize_allow_list_any s r :
  truthy s = true -> typeof s = "object" ->
  prepareSchemaForStrictMode s = Ok r ->
  exists o, r = VObj o /\ forall k, In k (map fst o) -> In k supportedKeys.
Proof.
  intros Ht Hty H. rewrite prepare_unfold in H.
  destruct (prepare_body_tidy _ s r Ht Hty H) as [o [-> [_ Hf]]].
  exists o. split; [reflexivity|].
  intros k Hk. apply supported_In. rewrite Forall_forall in Hf. auto.
Qed.

(** C9 fails as stated: an array is not an object of JSON, and it is not
    returned unchanged. *)
Lemma array_becomes_empty_object :
  prepareSchemaForStrictMode (VArr [VNum 1; VNum 2]) = Ok (VObj [])
  /\ Ok (VObj []) <> Ok (VArr [VNum 1; VNum 2]).
Proof. split; [reflexivity|discriminate]. Qed.

(** C9, as amended: [null], booleans, numbers and strings are returned
    unchanged; an array, which [typeof] calls an object, has no supported
    key and comes back as the empty object. *)
Theorem normalize_non_object v :
  match v with
  | VNull | VBool _ | VNum _ | VStr _ => prepareSchemaForStrictMode v = Ok v
  | VArr _ => prepareSchemaForStrictMode v = Ok (VObj [])
  | VObj _ => True
  end.
Proof.
  destruct v as [|b|n|s|l|o]; try exact I; try apply prepare_array;
    rewrite prepare_unfold; unfold prepare_body; simpl.
  - reflexivity.
  - destruct b; reflexivity.
  - destruct (n =? 0)%Z; reflexivity.
  - destruct (s =? ""); reflexivity.
Qed.

(** The example of the spec: properties [a] and [b], no [required]. *)
Example normalize_two_properties :
  prepareSchemaForStrictMode
    (VObj [ ("type", VStr "object");
            ("properties", VObj [ ("a", VObj [ ("type", VStr "string") ]);
                                  ("b", VObj [ ("type", VStr "number") ]) ]) ])
  = Ok (VObj [ ("type", VStr "object");
               ("properties", VObj [ ("a", VObj [ ("type", VStr "string") ]);
                                     ("b", VObj [ ("type", VStr "number") ]) ]);
               ("required", VArr [ VStr "a"; VStr "b" ]);
               ("additionalProperties", VBool false) ]).
Proof. reflexivity. Qed.

Section Template.

(* ================================================================= *)
(** ** The regular expression of renderTemplate *)

Ltac bool_arith :=
repeat match goal with
| H : _ && _ = true |- _ => apply andb_true_iff in H; destruct H
| H : _ || _ = true |- _ => apply orb_true_iff in H; destruct H
| H : (_ <=? _)%nat = true |- _ => apply Nat.leb_le in H
| H : (_ =? _)%nat = true |- _ => apply Nat.eqb_eq in H
| H : (_ <=? _)%nat = false |- _ => apply Nat.leb_gt in H
| H : (_ =? _)%nat = false |- _ => apply Nat.eqb_neq in H
end.

Ltac bool_false :=
repeat (apply orb_false_iff; split);
repeat match goal with
| |- _ && _ = false => apply andb_false_iff
| |- (_ <=? _)%nat = false => apply Nat.leb_gt
| |- (_ =? _)%nat = false => apply Nat.eqb_neq
end.

Lemma space1_not_word a : space1 a = true -> is_word a = false.
Proof.
unfold space1, is_word. set (n := nat_of_ascii a). intros H. bool_arith;
  repeat (apply orb_false_iff; split);
  try (apply andb_false_iff;
       first [left; apply Nat.leb_gt; lia | right; apply Nat.leb_gt; lia]);
  apply Nat.eqb_neq; lia.
Qed.

Lemma space2_lead a b : space2 a b = true -> nat_of_ascii a = 194.
Proof. unfold space2. intros H. bool_arith. assumption. Qed.

Lemma space3_lead a b c :
space3 a b c = true ->
nat_of_ascii a = 225 \/ nat_of_ascii a = 226 \/ nat_of_ascii a = 227
\/ nat_of_ascii a = 239.
Proof. unfold space3. intros H. bool_arith; lia. Qed.

Lemma high_not_space1 a : 128 <= nat_of_ascii a -> space1 a = false.
Proof.
unfold space1. intros H. apply orb_false_iff. split.
- apply andb_false_iff. right. apply Nat.leb_gt. lia.
- apply Nat.eqb_neq. lia.
Qed.

Lemma high_not_word a : 128 <= nat_of_ascii a -> is_word a = false.
Proof.
unfold is_word. intros H.
repeat (apply orb_false_iff; split);
  try (apply andb_false_iff; right; apply Nat.leb_gt; lia).
apply Nat.eqb_neq. lia.
Qed.

Lemma lead3_not_space2 a b :
nat_of_ascii a <> 194 -> space2 a b = false.
Proof.
unfold space2. intros H. apply andb_false_iff. left. apply Nat.eqb_neq. exact H.
Qed.

Local Arguments is_word : simpl never.
Local Arguments space1 : simpl never.
Local Arguments space2 : simpl never.
Local Arguments space3 : simpl never.

(** White space at the head is skipped whole. *)
Lemma skip_white ws : white ws -> forall r, skip_spaces (ws ++ r) = skip_spaces r.
Proof.
induction 1 as [|a s Ha _ IH|a b s Hab _ IH|a b c s Habc _ IH]; intros r.
- reflexivity.
- simpl. rewrite Ha. apply IH.
- simpl. rewrite high_not_space1 by (rewrite (space2_lead a b Hab); lia).
  rewrite Hab. apply IH.
- pose proof (space3_lead a b c Habc) as Hl.
  simpl. rewrite high_not_space1 by lia.
  rewrite lead3_not_space2 by lia. rewrite Habc. apply IH.
Qed.

Lemma skip_stops a s : stops a -> skip_spaces (String a s) = String a s.
Proof.
intros [Hlt H1]. simpl. rewrite H1.
destruct s as [|b s]; [reflexivity|].
rewrite lead3_not_space2 by lia.
destruct s as [|c s]; [reflexivity|].
assert (H3 : space3 a b c = false).
{ destruct (space3 a b c) eqn:E; [|reflexivity].
  apply space3_lead in E. lia. }
rewrite H3. reflexivity.
Qed.

Lemma stops_dot : stops ".".
Proof. split; [apply Nat.ltb_lt; reflexivity|reflexivity]. Qed.

Lemma stops_brace : stops "}".
Proof. split; [apply Nat.ltb_lt; reflexivity|reflexivity]. Qed.

Lemma string_length_app s1 s2 :
String.length (s1 ++ s2) = String.length s1 + String.length s2.
Proof. induction s1 as [|a s1 IH]; simpl; [reflexivity|]. rewrite IH. reflexivity. Qed.

Lemma string_app_assoc (s1 s2 s3 : string) :
((s1 ++ s2) ++ s3 = s1 ++ (s2 ++ s3))%string.
Proof. induction s1 as [|a s1 IH]; simpl; [reflexivity|]. rewrite IH. reflexivity. Qed.

Lemma string_app_nil (s : string) : (s ++ "")%string = s.
Proof. induction s as [|a s IH]; simpl; [reflexivity|]. rewrite IH. reflexivity. Qed.

(** What was skipped was white space. *)
Lemma skip_spaces_split n : forall s,
String.length s <= n ->
exists ws, white ws /\ s = (ws ++ skip_spaces s)%string.
Proof.
induction n as [|n IH]; intros s Hn.
- destruct s; [|simpl in Hn; lia]. exists "". split; [constructor|reflexivity].
- destruct s as [|a s1]; [exists ""; split; [constructor|reflexivity]|].
  simpl in Hn. simpl skip_spaces.
  destruct (space1 a) eqn:H1.
  { destruct (IH s1) as [ws [Hw E]]; [lia|].
    exists (String a ws). split; [constructor; assumption|].
    simpl. rewrite <- E. reflexivity. }
  destruct s1 as [|b s2]; [exists ""; split; [constructor|reflexivity]|].
  simpl in Hn.
  destruct (space2 a b) eqn:H2.
  { destruct (IH s2) as [ws [Hw E]]; [lia|].
    exists (String a (String b ws)). split; [constructor; assumption|].
    simpl. rewrite <- E. reflexivity. }
  destruct s2 as [|c s3]; [exists ""; split; [constructor|reflexivity]|].
  simpl in Hn.
  destruct (space3 a b c) eqn:H3.
  { destruct (IH s3) as [ws [Hw E]]; [lia|].
    exists (String a (String b (String c ws))).
    split; [constructor; assumption|].
    simpl. rewrite <- E. reflexivity. }
  exists "". split; [constructor|reflexivity].
Qed.

Lemma white_unworded ws r : white ws -> unworded r -> unworded (ws ++ r).
Proof.
intros Hw Hr. destruct Hw as [|a s Ha _|a b s Hab _|a b c s Habc _]; simpl.
- exact Hr.
- apply space1_not_word. exact Ha.
- apply high_not_word. rewrite (space2_lead a b Hab). lia.
- apply high_not_word. pose proof (space3_lead a b c Habc). lia.
Qed.

Lemma take_word_app key r :
word key = true -> unworded r -> take_word (key ++ r) = (key, r).
Proof.
intros Hk Hr. induction key as [|a key IH]; simpl.
- destruct r as [|b r]; [reflexivity|]. simpl in *. rewrite Hr. reflexivity.
- simpl in Hk. apply andb_true_iff in Hk. destruct Hk as [Ha Hk].
  rewrite Ha, (IH Hk). reflexivity.
Qed.

Lemma take_word_split s :
s = (fst (take_word s) ++ snd (take_word s))%string
/\ word (fst (take_word s)) = true.
Proof.
induction s as [|a s [IH1 IH2]]; simpl; [auto|].
destruct (is_word a) eqn:Ha.
- destruct (take_word s) as [w r]. simpl in *. rewrite Ha, IH2.
  split; [f_equal; exact IH1|reflexivity].
- simpl. auto.
Qed.

(** The regular expression matches a token, and nothing else. *)
Lemma match_token_complete text key rest :
token text key -> match_token (text ++ rest) = Some (key, rest).
Proof.
intros [ws1 key0 ws2 Hw1 Hne Hk Hw2].
change (("{{" ++ ws1 ++ "." ++ key0 ++ ws2 ++ "}}") ++ rest)%string
  with (String "{" (String "{" ((ws1 ++ "." ++ key0 ++ ws2 ++ "}}") ++ rest)))%string.
unfold match_token.
rewrite string_app_assoc, (skip_white ws1 Hw1).
change (("." ++ key0 ++ ws2 ++ "}}") ++ rest)%string
  with (String "." ((key0 ++ ws2 ++ "}}") ++ rest))%string.
rewrite skip_stops by exact stops_dot.
rewrite !string_app_assoc.
rewrite take_word_app;
  [|exact Hk|apply white_unworded; [exact Hw2|reflexivity]].
destruct (key0 =? "") eqn:E; [apply String.eqb_eq in E; contradiction|].
rewrite (skip_white ws2 Hw2).
change ("}}" ++ rest)%string with (String "}" (String "}" rest)).
rewrite skip_stops by exact stops_brace.
reflexivity.
Qed.

Lemma match_token_sound s key rest :
match_token s = Some (key, rest) ->
exists text, token text key /\ s = (text ++ rest)%string.
Proof.
unfold match_token.
destruct s as [|a0 s]; [discriminate|].
destruct (Ascii.eqb a0 "{") eqn:E0;
  [apply Ascii.eqb_eq in E0; subst a0
  |destruct a0 as [[] [] [] [] [] [] [] []]; try discriminate].
destruct s as [|a1 s1]; [discriminate|].
destruct (Ascii.eqb a1 "{") eqn:E1;
  [apply Ascii.eqb_eq in E1; subst a1
  |destruct a1 as [[] [] [] [] [] [] [] []]; try discriminate].
destruct (skip_spaces_split _ s1 (le_n _)) as [ws1 [Hw1 Es1]].
destruct (skip_spaces s1) as [|d s2] eqn:Sk1; [discriminate|].
destruct (Ascii.eqb d ".") eqn:Ed;
  [apply Ascii.eqb_eq in Ed; subst d
  |destruct d as [[] [] [] [] [] [] [] []]; try discriminate].
destruct (take_word_split s2) as [Es2 Hk].
destruct (take_word s2) as [key0 s3]. simpl in Es2, Hk.
destruct (key0 =? "") eqn:Ek; [discriminate|]. apply String.eqb_neq in Ek.
destruct (skip_spaces_split _ s3 (le_n _)) as [ws2 [Hw2 Es3]].
destruct (skip_spaces s3) as [|c0 s4] eqn:Sk2; [discriminate|].
destruct (Ascii.eqb c0 "}") eqn:Ec0;
  [apply Ascii.eqb_eq in Ec0; subst c0
  |destruct c0 as [[] [] [] [] [] [] [] []]; try discriminate].
destruct s4 as [|c1 s5]; [discriminate|].
destruct (Ascii.eqb c1 "}") eqn:Ec1;
  [apply Ascii.eqb_eq in Ec1; subst c1
  |destruct c1 as [[] [] [] [] [] [] [] []]; try discriminate].
intros [= <- <-].
exists ("{{" ++ ws1 ++ "." ++ key0 ++ ws2 ++ "}}")%string. split.
- constructor; assumption.
- rewrite Es1, Es2, Es3. simpl. f_equal. f_equal.
  rewrite !string_app_assoc. simpl. rewrite !string_app_assoc. reflexivity.
Qed.

(* ================================================================= *)
(** ** The global replacement *)

Section Replace.
Variable f : string -> string -> completion string.

Lemma replace_skip p rest :
replace_tokens f (String.length p) (p ++ rest) = replace_tokens f 0 rest.
Proof. induction p as [|a p IH]; simpl; [reflexivity|exact IH]. Qed.

Lemma substring_prefix p r : substring 0 (String.length p) (p ++ r) = p.
Proof.
induction p as [|a p IH]; simpl.
- destruct r; reflexivity.
- rewrite IH. reflexivity.
Qed.

Lemma token_nonempty text key :
token text key -> exists a t, text = String a t.
Proof. intros [ws1 k ws2 _ _ _ _]. simpl. eauto. Qed.

Lemma replace_token text key rest :
token text key ->
replace_tokens f 0 (text ++ rest)
= let* r := f text key in
  let* out := replace_tokens f 0 rest in
  Ok (r ++ out)%string.
Proof.
intros Ht. pose proof (match_token_complete text key rest Ht) as Hm.
destruct (token_nonempty text key Ht) as [a [t ->]].
change (String a t ++ rest)%string with (String a (t ++ rest)) in *.
cbn [replace_tokens]. rewrite Hm.
change (String a (t ++ rest)) with (String a t ++ rest)%string.
rewrite string_length_app.
replace (String.length (String a t) + String.length rest - String.length rest)
  with (String.length (String a t)) by lia.
rewrite substring_prefix.
destruct (f (String a t) key) as [r|e]; simpl; [|reflexivity].
rewrite Nat.sub_0_r, replace_skip. reflexivity.
Qed.

Lemma replace_char a s :
match_token (String a s) = None ->
replace_tokens f 0 (String a s)
= let* out := replace_tokens f 0 s in Ok (String a out).
Proof. intros Hm. cbn [replace_tokens]. rewrite Hm. reflexivity. Qed.

Lemma no_token_here a s :
match_token (String a s) = None <->
forall text key rest, token text key -> String a s <> (text ++ rest)%string.
Proof.
split.
- intros Hm text key rest Ht E.
  rewrite E, (match_token_complete text key rest Ht) in Hm. discriminate.
- intros H. destruct (match_token (String a s)) as [[key rest]|] eqn:Hm;
    [|reflexivity].
  destruct (match_token_sound _ _ _ Hm) as [text [Ht E]].
  exfalso. apply (H text key rest Ht E).
Qed.



End Replace.

Local Arguments mem : simpl never.




(** The two examples of the spec. *)
Example render_examples :
renderTemplate "{{ .x }} and {{ .y }}" (VObj [("x", VNum 3)])
= Ok "3 and {{ .y }}"
/\ renderTemplate "{{ .items }}" (VObj [("items", VArr [VNum 1; VNum 2])])
   = Ok "[1,2]".
Proof. split; reflexivity. Qed.

(** C4 fails on the code: the identifier [toString] is no key of the
  bindings, and its token is not left verbatim; the operator [in] of the
  callback finds the member that every object inherits from
  [Object.prototype].  So it is with [constructor], [valueOf],
  [__proto__] and the other names of [Object_prototype_names]. *)
Theorem render_inherited_identifier :
obj_get "toString" [("x", VNum 3)] = None
/\ renderTemplate "{{ .x }} and {{ .toString }}" (VObj [("x", VNum 3)])
   = Ok "3 and function toString() { [native code] }"
/\ renderTemplate "{{ .constructor }}" (VObj [])
   = Ok "function Object() { [native code] }"
/\ renderTemplate "{{ .__proto__ }}" (VObj []) = Ok "{}".
Proof. repeat split; reflexivity. Qed.

End Template.

(* ================================================================= *)
(** ** parseSource *)

Lemma index_ge s1 : forall s2 n m, index n s1 s2 = Some m -> n <= m.
Proof.
  induction s2 as [|b s2 IH]; intros n m; simpl.
  - destruct n; [|discriminate]. destruct s1; [|discriminate].
    intros [= <-]. lia.
  - destruct n as [|n].
    + intros _. lia.
    + destruct (index n s1 s2) as [k|] eqn:E; [|discriminate].
      intros [= <-]. apply IH in E. lia.
Qed.

Lemma delimited_index trimmed secondDash :
  delimited trimmed secondDash
  <-> prefix "---" trimmed = true /\ index 3 "---" trimmed = Some secondDash.
Proof.
  unfold delimited. split.
  - intros [H0 [H1 [H2 H3]]]. split; [apply prefix_correct; exact H0|].
    destruct (index 3 "---" trimmed) as [m|] eqn:E.
    + f_equal.
      destruct (Nat.lt_trichotomy m secondDash) as [Hlt|[Heq|Hgt]];
        [|assumption|].
      * exfalso. apply (H3 m); [apply (index_ge _ _ _ _ E)|assumption|].
        apply (index_correct1 _ _ _ _ E).
      * exfalso. apply (index_correct2 _ _ _ _ E secondDash H1 Hgt). exact H2.
    + exfalso. apply (index_correct3 3 secondDash _ _ E); [discriminate|assumption|].
      exact H2.
  - intros [H0 E]. split; [apply prefix_correct in H0; exact H0|].
    split; [apply (index_ge _ _ _ _ E)|]. split.
    + apply (index_correct1 _ _ _ _ E).
    + intros p Hp1 Hp2. apply (index_correct2 _ _ _ _ E p Hp1 Hp2).
Qed.

Lemma js_in_mandatory_array field l :
  In field mandatory -> js_in field (VArr l) = Ok false.
Proof.
  unfold mandatory. simpl.
  intros [<-|[<-|[<-|[<-|[]]]]]; reflexivity.
Qed.

Lemma get_property_plain field o :
  In field ("imports" :: mandatory) ->
  get_property (VObj o) field
  = match obj_get field o with Some v => Data v | None => Undefined end.
Proof.
  unfold mandatory. simpl.
  intros [<-|[<-|[<-|[<-|[<-|[]]]]]]; simpl;
    match goal with |- context [obj_get ?k o] => destruct (obj_get k o) end;
    reflexivity.
Qed.

Lemma js_in_mandatory_object field o :
  In field mandatory ->
  js_in field (VObj o)
  = Ok (match obj_get field o with Some _ => true | None => false end).
Proof.
  intros H. unfold js_in. rewrite get_property_plain by (right; exact H).
  destruct (obj_get field o); reflexivity.
Qed.

Lemma require_fields_object path o :
  (exists u, require_fields path mandatory (VObj o) = Ok u)
  <-> forall field, In field mandatory -> obj_get field o <> None.
Proof.
  assert (G : forall fields,
            (forall f, In f fields -> In f mandatory) ->
            ((exists u, require_fields path fields (VObj o) = Ok u)
             <-> forall field, In field fields -> obj_get field o <> None)).
  { induction fields as [|f fields IH]; intros Hsub.
    - simpl. split; [intros _ field []|intros _; eauto].
    - cbn [require_fields]. rewrite js_in_mandatory_object by (apply Hsub; left; auto).
      simpl. destruct (obj_get f o) as [v|] eqn:E.
      + rewrite IH by (intros; apply Hsub; right; assumption).
        split.
        * intros H field [<-|Hin]; [congruence|auto].
        * intros H field Hin. apply H. right. exact Hin.
      + split.
        * intros [u Hu]. discriminate.
        * intros H. exfalso. apply (H f); [left; reflexivity|exact E]. }
  apply G. auto.
Qed.

Lemma require_fields_array path l u :
  require_fields path mandatory (VArr l) = Ok u -> False.
Proof.
  unfold mandatory. cbn [require_fields].
  rewrite js_in_mandatory_array by (left; reflexivity). simpl. discriminate.
Qed.

Section ParserContract.
Context (rt : Runtime).



End ParserContract.



(* ================================================================= *)
(** ** The requests of a run *)

Lemma round_trips_app c l1 l2 :
  round_trips c (l1 ++ l2) = round_trips c l1 + round_trips c l2.
Proof. unfold round_trips. rewrite filter_app, length_app. reflexivity. Qed.

Lemma round_trips_nested c l : Forall (nested c) l -> round_trips c l = 0.
Proof.
  unfold round_trips. induction 1 as [|e l [H _] _ IH]; simpl; [reflexivity|].
  destruct (fst e =? c)%nat eqn:E; [apply Nat.eqb_eq in E; lia|exact IH].
Qed.

Lemma round_trips_own c req l :
  Forall (nested c) l -> round_trips c ((c, req) :: l) = 1.
Proof.
  intros H. change ((c, req) :: l) with ([(c, req)] ++ l).
  rewrite round_trips_app, (round_trips_nested c l H).
  unfold round_trips. simpl. rewrite Nat.eqb_refl. reflexivity.
Qed.

Lemma nested_tagged c m l : Forall (nested c) l -> Forall (tagged c m) l.
Proof. apply Forall_impl. intros e H. right. exact H. Qed.

Section RunnerFacts.
Context (rt : Runtime).

Lemma effect_refl P quiet (w : World rt) : effect P quiet w w.
Proof.
  split; [lia|]. split; [|reflexivity].
  exists []. rewrite app_nil_r. auto.
Qed.

Lemma effect_trans P quiet (w1 w2 w3 : World rt) :
  effect P quiet w1 w2 -> effect P quiet w2 w3 -> effect P quiet w1 w3.
Proof.
  intros [C1 [[n1 [S1 F1]] Q1]] [C2 [[n2 [S2 F2]] Q2]].
  split; [lia|]. split.
  - exists (n1 ++ n2). rewrite S2, S1, app_assoc. split; [reflexivity|].
    apply Forall_app. auto.
  - intros Hq. rewrite Q2, Q1; auto.
Qed.

Lemma effect_weaken (P Q : nat * Request -> Prop) quiet (w w' : World rt) :
  (forall e, P e -> Q e) -> effect P quiet w w' -> effect Q quiet w w'.
Proof.
  intros H [C [[n [S F]] Qt]]. split; [assumption|]. split; [|assumption].
  exists n. split; [assumption|]. eapply Forall_impl; eauto.
Qed.

Section Nested.
Variable run : MarkdownlangProgram -> value -> RunOptions -> Action rt value.
Hypothesis run_ok : run_contract run.

Lemma nested_run c program input w :
  c < clients w ->
  tool_effect c w (snd (run program input no_options w)).
Proof.
  intros Hc. pose proof (run_ok program input no_options w) as H.
  simpl in H. revert H. apply effect_weaken.
  intros e [[H1 H2]|[H1 H2]]; split; try assumption; lia.
Qed.

Lemma find_import_effect c toolCall paths w :
  c < clients w ->
  tool_effect c w (snd (find_import rt run toolCall paths w)).
Proof.
  intros Hc. induction paths as [|p paths IH]; simpl.
  - apply effect_refl.
  - unfold and_then, pure. destruct (parse rt p) as [imported|e]; simpl.
    + destruct (name imported =? function_name toolCall).
      * destruct (JSON_parse rt (function_arguments toolCall)); simpl.
        -- apply nested_run. assumption.
        -- apply effect_refl.
      * exact IH.
    + apply effect_refl.
Qed.

Lemma executeToolCall_effect c toolCall parent w :
  c < clients w ->
  tool_effect c w (snd (executeToolCall rt run toolCall parent w)).
Proof.
  intros Hc. unfold executeToolCall.
  destruct (imports parent); [apply find_import_effect; assumption|].
  apply effect_refl.
Qed.

Lemma execute_tool_calls_effect c program calls : forall messages w,
  c < clients w ->
  tool_effect c w (snd (execute_tool_calls rt run program calls messages w)).
Proof.
  induction calls as [|tc calls IH]; intros messages w Hc; simpl.
  - apply effect_refl.
  - unfold and_then.
    pose proof (executeToolCall_effect c tc program w Hc) as H1.
    destruct (executeToolCall rt run tc program w) as [[v|e|] w1]; simpl in *.
    + eapply effect_trans; [exact H1|]. apply IH.
      destruct H1 as [H1 _]. lia.
    + exact H1.
    + exact H1.
Qed.

(** One pass of the loop sends exactly one request of its own. *)
Lemma turn_effect c m program options strictSchema tools messages w :
  c < clients w ->
  let w' := snd (turn rt run program options c m strictSchema tools messages w) in
  clients w <= clients w'
  /\ (exists req nest,
        sent w' = sent w ++ (c, req) :: nest
        /\ request_model req = m /\ Forall (nested c) nest)
  /\ (verbose options = false -> stderr w' = stderr w).
Proof.
  intros Hc. unfold turn, and_then, chat_completions_create.
  destruct (create rt (remote w) _) as [remote' answer] eqn:Ec.
  set (req := {| request_model := m; messages := messages;
                 schema_name := name program; schema := strictSchema;
                 strict := true;
                 tools := match tools with [] => None | _ :: _ => Some tools end |}) in *.
  set (w1 := {| remote := remote'; clients := clients w;
                sent := sent w ++ [(c, req)]; stderr := stderr w |}).
  assert (Base : clients w <= clients w1
    /\ (exists req0 nest, sent w1 = sent w ++ (c, req0) :: nest
          /\ request_model req0 = m /\ Forall (nested c) nest)
    /\ (verbose options = false -> stderr w1 = stderr w)).
  { split; [simpl; lia|]. split; [|reflexivity].
    exists req, []. simpl. auto. }
  destruct answer as [response|]; simpl; [|exact Base].
  destruct (choices response) as [|choice rest]; simpl; [exact Base|].
  assert (Log : forall result : value,
    let w' := {| remote := remote w1; clients := clients w1;
                 sent := sent w1; stderr := stderr w1 ++ [LogResult result] |} in
    verbose options = true ->
    clients w <= clients w'
    /\ (exists req0 nest, sent w' = sent w ++ (c, req0) :: nest
          /\ request_model req0 = m /\ Forall (nested c) nest)
    /\ (verbose options = false -> stderr w' = stderr w)).
  { intros result w' Hv. split; [simpl; lia|]. split; [|congruence].
    exists req, []. simpl. auto. }
  destruct (tool_calls choice) as [[|tc calls]|].
  1,3: (destruct (content choice) as [[|a s0]|]; simpl; try exact Base;
        destruct (JSON_parse rt (String a s0)); simpl; [|exact Base];
        unfold when; destruct (verbose options) eqn:Hv; simpl;
        [apply Log; reflexivity|exact Base]).
  pose proof (execute_tool_calls_effect c program (tc :: calls)
                (messages ++ [Assistant choice]) w1 Hc) as H.
  assert (C1 : clients w1 = clients w) by reflexivity.
  assert (S1 : sent w1 = sent w ++ [(c, req)]) by reflexivity.
  assert (Q1 : stderr w1 = stderr w) by reflexivity.
  clearbody w1.
  unfold tool_effect in H. simpl in H.
  match type of H with
  | context [snd ?x] => destruct x as [[ms|e|] w2]
  end; simpl in *;
    destruct H as [C [[new [S F]] Q]];
    (split; [lia|]; split;
     [exists req, new; rewrite S, S1, <- app_assoc; simpl; auto
     |intros _; rewrite Q, Q1; reflexivity]).
Qed.

(** The loop sends at most [maxIterations] requests of its own. *)
Lemma agentic_loop_effect c m program options strictSchema tools n :
  forall messages w,
  c < clients w ->
  let w' := snd (agentic_loop rt run program options c m strictSchema tools
                   n messages w) in
  clients w <= clients w'
  /\ (exists new,
        sent w' = sent w ++ new
        /\ Forall (tagged c m) new /\ round_trips c new <= n)
  /\ (verbose options = false -> stderr w' = stderr w).
Proof.
  induction n as [|n IH]; intros messages w Hc; simpl.
  - split; [lia|]. split; [|reflexivity].
    exists []. rewrite app_nil_r. auto.
  - unfold and_then.
    pose proof (turn_effect c m program options strictSchema tools messages w Hc)
      as T. simpl in T.
    destruct (turn rt run program options c m strictSchema tools messages w)
      as [[next|e|] w1]; simpl in *;
      destruct T as [C [[req [nest [Hs [M F]]]] Q]].
    2,3: (split; [lia|]; split; [|assumption];
          exists ((c, req) :: nest); split; [assumption|]; split;
          [constructor; [left; auto|apply nested_tagged; assumption]
          |rewrite round_trips_own by assumption; lia]).
    destruct next as [messages'|result]; simpl.
    + assert (Hc1 : c < clients w1) by lia.
      destruct (IH messages' w1 Hc1) as [C2 [[new [Hs2 [F2 R2]]] Q2]].
      split; [lia|]. split.
      * exists (((c, req) :: nest) ++ new). split.
        -- rewrite Hs2, Hs, <- app_assoc. reflexivity.
        -- split.
           ++ apply Forall_app. split; [|assumption].
              constructor; [left; auto|apply nested_tagged; assumption].
           ++ rewrite round_trips_app, round_trips_own by assumption. lia.
      * intros Hv. rewrite Q2, Q; auto.
    + split; [lia|]. split; [|assumption].
      exists ((c, req) :: nest). split; [assumption|]. split.
      * constructor; [left; auto|apply nested_tagged; assumption].
      * rewrite round_trips_own by assumption. lia.
Qed.


Local Arguments agentic_loop : simpl never.
Local Arguments system_prompt : simpl never.

(** The setup of a run and its loop. *)
Lemma run_body_effect program input options w :
  let w' := snd (run_body rt run program input options w) in
  clients w <= clients w'
  /\ (exists new,
        sent w' = sent w ++ new
        /\ Forall (tagged (clients w) (chosen_model options)) new
        /\ round_trips (clients w) new <= 10)
  /\ (verbose options = false -> stderr w' = stderr w).
Proof.
  unfold run_body, and_then, new_OpenAI, pure. simpl.
  set (w0 := {| remote := remote w; clients := Datatypes.S (clients w);
                sent := sent w; stderr := stderr w |}).
  assert (Base : clients w <= clients w0
    /\ (exists new, sent w0 = sent w ++ new
          /\ Forall (tagged (clients w) (chosen_model options)) new
          /\ round_trips (clients w) new <= 10)
    /\ (verbose options = false -> stderr w0 = stderr w)).
  { split; [simpl; lia|]. split; [|reflexivity].
    exists []. rewrite app_nil_r. repeat split; [constructor|].
    unfold round_trips. simpl. apply Nat.le_0_l. }
  destruct (renderTemplate (body program) input) as [prompt|e]; simpl;
    [|exact Base].
  destruct (resolveImportedTools rt program) as [tools|e]; simpl; [|exact Base].
  destruct (prepareSchemaForStrictMode (output program)) as [strictSchema|e];
    simpl; [|exact Base].
  unfold when, console_error, ret.
  destruct (verbose options) eqn:Hv.
  - set (w1 := {| remote := remote w0; clients := clients w0; sent := sent w0;
                  stderr := stderr w0 ++ _ |}).
    assert (Hc : clients w < clients w1) by (simpl; lia).
    destruct (agentic_loop_effect (clients w) (chosen_model options) program
                options strictSchema tools 10
                [SystemMessage (system_prompt program); UserMessage prompt]
                w1 Hc) as [C [E Q]].
    unfold chosen_model, default_model in *.
    split; [simpl in C; lia|]. split; [exact E|]. discriminate.
  - assert (Hc : clients w < clients w0) by (simpl; lia).
    destruct (agentic_loop_effect (clients w) (chosen_model options) program
                options strictSchema tools 10
                [SystemMessage (system_prompt program); UserMessage prompt]
                w0 Hc) as [C [E Q]].
    unfold chosen_model, default_model in *.
    split; [simpl in C; lia|]. split; [exact E|].
    intros _. rewrite Q by assumption. reflexivity.
Qed.
End Nested.

Lemma run_contract_holds depth : run_contract (run rt depth).
Proof.
  induction depth as [|depth IH]; intros program input options w; simpl.
  - apply effect_refl.
  - destruct (run_body_effect (run rt depth) IH program input options w)
      as [C [[new [Hs [F _]]] Q]].
    split; [exact C|]. split; [eauto|].
    intros Hq. apply Q. apply negb_true_iff. exact Hq.
Qed.

Lemma run_requests depth program input options w :
  exists new,
    sent (snd (run rt depth program input options w)) = sent w ++ new
    /\ Forall (tagged (clients w) (chosen_model options)) new
    /\ round_trips (clients w) new <= 10.
Proof.
  destruct depth as [|depth]; simpl.
  - exists []. rewrite app_nil_r. repeat split; [constructor|].
    unfold round_trips. simpl. apply Nat.le_0_l.
  - destruct (run_body_effect (run rt depth) (run_contract_holds depth)
                program input options w) as [_ [E _]].
    exact E.
Qed.

End RunnerFacts.

Section RunnerContract.
Context (rt : Runtime).

Local Arguments agentic_loop : simpl never.
Local Arguments system_prompt : simpl never.

Lemma run_unfold depth program input options w prompt tl strictSchema :
  renderTemplate (body program) input = Ok prompt ->
  resolveImportedTools rt program = Ok tl ->
  prepareSchemaForStrictMode (output program) = Ok strictSchema ->
  run rt (S depth) program input options w
  = agentic_loop rt (run rt depth) program options (clients w)
      (chosen_model options) strictSchema tl 10
      [SystemMessage (system_prompt program); UserMessage prompt]
      (loop_world program options prompt strictSchema w).
Proof.
  intros H1 H2 H3. simpl. unfold run_body, and_then, new_OpenAI, pure.
  rewrite H1, H2, H3. simpl. unfold when, loop_world.
  destruct (verbose options); reflexivity.
Qed.


(** X23: against a provider whose every response asks for a tool, no
    run returns and no run sends a second request of its own: the first
    tool call must end before the second request, and it ends only if a
    nested run returns. *)
Lemma one_round_trip_under_tool_calls :
  (forall st request,
     exists st' choice rest toolCall calls,
       create rt st request = (st', Some {| choices := choice :: rest |})
       /\ tool_calls choice = Some (toolCall :: calls)) ->
  forall depth program input options w,
    (forall v, fst (run rt depth program input options w) <> Returned v)
    /\ exists new,
         sent (snd (run rt depth program input options w)) = sent w ++ new
         /\ round_trips (clients w) new <= 1.
Proof.
  intros Hp. induction depth as [|depth IH]; intros program input options w.
  - simpl. split; [discriminate|]. exists []. rewrite app_nil_r.
    split; [reflexivity|]. unfold round_trips. simpl. lia.
  - assert (Hfind : forall tc paths w1 v,
              fst (find_import rt (run rt depth) tc paths w1) <> Returned v).
    { intros tc paths w1 v. induction paths as [|p paths IHp]; simpl.
      - discriminate.
      - unfold and_then, pure. destruct (parse rt p) as [imported|e]; simpl;
          [|discriminate].
        destruct (name imported =? function_name tc); [|exact IHp].
        destruct (JSON_parse rt (function_arguments tc)) as [args|]; simpl;
          [|discriminate].
        apply (IH imported args no_options w1). }
    assert (Hexec : forall tc w1 v,
              fst (executeToolCall rt (run rt depth) tc program w1) <> Returned v).
    { intros tc w1 v. unfold executeToolCall.
      destruct (imports program); [apply Hfind|discriminate]. }
    simpl. unfold run_body, and_then, new_OpenAI, pure.
    set (w0 := {| remote := remote w; clients := S (clients w);
                  sent := sent w; stderr := stderr w |}).
    assert (Base : forall (o : outcome value) (w' : World rt),
              (forall v, o <> Returned v) -> sent w' = sent w ->
              (forall v, fst (o, w') <> Returned v)
              /\ exists new, sent (snd (o, w')) = sent w ++ new
                             /\ round_trips (clients w) new <= 1).
    { intros o w' Ho Hs. split; [exact Ho|]. exists []. simpl.
      rewrite app_nil_r. split; [exact Hs|]. unfold round_trips. simpl. lia. }
    destruct (renderTemplate (body program) input) as [prompt|e]; simpl;
      [|apply Base; [discriminate|reflexivity]].
    destruct (resolveImportedTools rt program) as [tl|e]; simpl;
      [|apply Base; [discriminate|reflexivity]].
    destruct (prepareSchemaForStrictMode (output program)) as [strictSchema|e];
      simpl; [|apply Base; [discriminate|reflexivity]].
    match goal with
    | |- context [when ?b ?m w0] => destruct (when b m w0) as [[[]|e|] w1] eqn:Ew
    end.
    2,3: (unfold when in Ew; destruct (verbose options); discriminate).
    assert (Hw1 : sent w1 = sent w /\ clients w < clients w1).
    { unfold when, console_error, ret in Ew.
      destruct (verbose options); injection Ew as <-; simpl; split; auto. }
    destruct Hw1 as [Hs1 Hc1]. clear Ew. clearbody w0.
    set (m := match model options with Some m => m | None => "gpt-4o-mini" end).
    set (msgs := [SystemMessage (system_prompt program); UserMessage prompt]).
    pose proof (turn_effect rt (run rt depth) (run_contract_holds rt depth)
                  (clients w) m program options strictSchema tl msgs w1 Hc1) as T.
    simpl in T. destruct T as [_ [[req [nest [Hs [_ F]]]] _]].
    assert (Hturn : forall next,
      fst (turn rt (run rt depth) program options (clients w) m strictSchema tl
             msgs w1) <> Returned next).
    { intros next. unfold turn, and_then, chat_completions_create.
      match goal with
      | |- context [create rt (remote w1) ?r] =>
          destruct (Hp (remote w1) r) as [st' [choice [rest [tc [calls [Ec Et]]]]]];
          rewrite Ec
      end.
      simpl. rewrite Et. simpl. unfold and_then.
      match goal with
      | |- context [executeToolCall rt (run rt depth) tc program ?x] =>
          pose proof (Hexec tc x) as Hx;
          destruct (executeToolCall rt (run rt depth) tc program x) as [[v|e|] w2]
      end; simpl; try discriminate.
      exfalso. apply (Hx v). reflexivity. }
    assert (E : agentic_loop rt (run rt depth) program options (clients w) m
                  strictSchema tl 10 msgs w1
                = match turn rt (run rt depth) program options (clients w) m
                          strictSchema tl msgs w1 with
                  | (Returned _, w2) => (Unfinished, w2)
                  | (Thrown e, w2) => (Thrown e, w2)
                  | (Unfinished, w2) => (Unfinished, w2)
                  end).
    { change (agentic_loop rt (run rt depth) program options (clients w) m
                strictSchema tl 10 msgs w1)
        with (and_then (turn rt (run rt depth) program options (clients w) m
                          strictSchema tl msgs)
                (fun next =>
                   match next with
                   | Continue messages' =>
                       agentic_loop rt (run rt depth) program options (clients w)
                         m strictSchema tl 9 messages'
                   | Return result => ret result
                   end) w1).
      unfold and_then.
      destruct (turn rt (run rt depth) program options (clients w) m strictSchema
                  tl msgs w1) as [[next|e|] w2]; try reflexivity.
      exfalso. apply (Hturn next). reflexivity. }
    rewrite E. clear E.
    destruct (turn rt (run rt depth) program options (clients w) m strictSchema tl
                msgs w1) as [[next|e|] w2]; simpl in *.
    + exfalso. apply (Hturn next). reflexivity.
    + split; [discriminate|]. exists ((clients w, req) :: nest).
      rewrite Hs, Hs1. split; [reflexivity|].
      rewrite round_trips_own by assumption. lia.
    + split; [discriminate|]. exists ((clients w, req) :: nest).
      rewrite Hs, Hs1. split; [reflexivity|].
      rewrite round_trips_own by assumption. lia.
Qed.



(** The nested run of a tool call gets the options [{}]. *)
Lemma matching_import_runs_with_defaults runf toolCall parentProgram
    before importPath after imported args w :
  imports parentProgram = Some (before ++ importPath :: after) ->
  none_named rt (function_name toolCall) before = true ->
  parse rt importPath = Ok imported ->
  name imported = function_name toolCall ->
  JSON_parse rt (function_arguments toolCall) = Some args ->
  executeToolCall rt runf toolCall parentProgram w
  = runf imported args no_options w.
Proof.
  intros Hi Hn Hp Hname Hargs. unfold executeToolCall. rewrite Hi. clear Hi.
  induction before as [|p before IH]; simpl.
  - unfold and_then, pure. rewrite Hp. simpl.
    rewrite Hname, String.eqb_refl, Hargs. reflexivity.
  - simpl in Hn. apply andb_true_iff in Hn. destruct Hn as [Hq Hn].
    unfold and_then, pure. destruct (parse rt p) as [other|e]; [|discriminate].
    simpl. apply negb_true_iff in Hq. rewrite Hq. apply IH. exact Hn.
Qed.

Lemma find_import_default runf (Hrun : run_contract runf) toolCall paths w :
  effect (fun e => request_model (snd e) = default_model) true w
    (snd (find_import rt runf toolCall paths w)).
Proof.
  induction paths as [|p paths IH]; simpl.
  - apply effect_refl.
  - unfold and_then, pure. destruct (parse rt p) as [imported|e]; simpl.
    + destruct (name imported =? function_name toolCall).
      * destruct (JSON_parse rt (function_arguments toolCall)) as [args|]; simpl.
        -- pose proof (Hrun imported args no_options w) as H. simpl in H.
           revert H. apply effect_weaken.
           intros e [[_ H]|[_ H]]; exact H.
        -- apply effect_refl.
      * exact IH.
    + apply effect_refl.
Qed.

(** C10: the execution of a tool call that the first matching import
    answers is the run of that import on the parsed arguments with the
    options [{}], under which the model is "gpt-4o-mini" and nothing is
    printed.  So, whatever options the parent run was given, every
    request that the execution of a tool call sends names the model
    "gpt-4o-mini", and the execution prints no diagnostics; among the
    requests of a run, all those not sent through its own client name
    that model. *)
Theorem nested_runs_use_defaults depth :
  (forall toolCall parentProgram before importPath after imported args w,
     imports parentProgram = Some (before ++ importPath :: after) ->
     none_named rt (function_name toolCall) before = true ->
     parse rt importPath = Ok imported ->
     name imported = function_name toolCall ->
     JSON_parse rt (function_arguments toolCall) = Some args ->
     executeToolCall rt (run rt depth) toolCall parentProgram w
     = run rt depth imported args no_options w
     /\ chosen_model no_options = "gpt-4o-mini"
     /\ verbose no_options = false)
  /\ (forall toolCall parentProgram w,
     let w' := snd (executeToolCall rt (run rt depth) toolCall parentProgram w) in
     stderr w' = stderr w
     /\ exists new,
          sent w' = sent w ++ new
          /\ Forall (fun e => request_model (snd e) = "gpt-4o-mini") new)
  /\ (forall program input options w,
        let w' := snd (run rt depth program input options w) in
        exists new,
          sent w' = sent w ++ new
          /\ Forall (fun e =>
                       (fst e = clients w /\
                        request_model (snd e) = chosen_model options)
                       \/ (fst e <> clients w /\
                           request_model (snd e) = "gpt-4o-mini")) new).
Proof.
  split; [|split].
  - intros toolCall parentProgram before importPath after imported args w
      Hi Hn Hp Hname Hargs.
    split; [|split; reflexivity].
    apply (matching_import_runs_with_defaults (run rt depth) toolCall
             parentProgram before importPath after imported args w);
      assumption.
  - intros toolCall parentProgram w. simpl.
    assert (H : effect (fun e => request_model (snd e) = default_model) true w
                  (snd (executeToolCall rt (run rt depth) toolCall parentProgram w))).
    { unfold executeToolCall. destruct (imports parentProgram).
      - apply find_import_default. apply run_contract_holds.
      - apply effect_refl. }
    destruct H as [_ [E Q]]. split; [apply Q; reflexivity|exact E].
  - intros program input options w. simpl.
    destruct (run_requests rt depth program input options w) as [new [Hs [F _]]].
    exists new. split; [exact Hs|].
    revert F. apply Forall_impl. intros e [[H1 H2]|[H1 H2]].
    + left. auto.
    + right. split; [lia|exact H2].
Qed.
End RunnerContract.

(* ----------------------------------------------------------------- *)
(** *** The loop against the test doubles *)






(** A parent run with its own model and diagnostics: the nested runs name
    the default model and print nothing. *)
Example nested_runs_example :
  map (fun e => (fst e, request_model (snd e)))
      (firstn 4 (sent (snd (run (stub delegating) 2 parent (VObj []) loud
                              (start delegating)))))
  = [ (0, "gpt-5"); (1, "gpt-4o-mini"); (0, "gpt-5"); (2, "gpt-4o-mini") ]
  /\ List.length (stderr (snd (run (stub delegating) 2 parent (VObj []) loud
                                 (start delegating)))) = 4.
Proof. split; reflexivity. Qed.

(* ================================================================= *)
(** ** The normaliser, block by block *)

(** The three blocks that follow the copying loop, one after the other. *)
Lemma prepare_steps o r :
  prepareSchemaForStrictMode (VObj o) = Ok r ->
  exists r1 r2 r3,
    strict_object prepareSchemaForStrictMode (copy_supported o []) = Ok r1
    /\ strict_array prepareSchemaForStrictMode r1 = Ok r2
    /\ strict_anyOf prepareSchemaForStrictMode r2 = Ok r3
    /\ r = VObj r3.
Proof.
  intros H. rewrite prepare_unfold in H. unfold prepare_body in H.
  cbn [truthy typeof negb orb Object_entries bind] in H.
  change ("object" =? "object") with true in H. cbn [negb orb bind] in H.
  destruct (strict_object prepareSchemaForStrictMode (copy_supported o []))
    as [r1|] eqn:E1; cbn [bind] in H; [|discriminate].
  destruct (strict_array prepareSchemaForStrictMode r1) as [r2|] eqn:E2;
    cbn [bind] in H; [|discriminate].
  destruct (strict_anyOf prepareSchemaForStrictMode r2) as [r3|] eqn:E3;
    cbn [bind] in H; [|discriminate].
  injection H as <-. exists r1, r2, r3. auto.
Qed.

Lemma strict_object_idle rec r r1 :
  strict_object rec r = Ok r1 ->
  is_string (obj_get "type" r) "object" && truthy_opt (obj_get "properties" r) = false ->
  r1 = r.
Proof.
  unfold strict_object. intros H G.
  destruct (obj_get "properties" r) as [props|]; [|injection H as <-; reflexivity].
  simpl in G. rewrite G in H. injection H as <-. reflexivity.
Qed.

Lemma strict_array_idle rec r r1 :
  strict_array rec r = Ok r1 ->
  is_string (obj_get "type" r) "array" && truthy_opt (obj_get "items" r) = false ->
  r1 = r.
Proof.
  unfold strict_array. intros H G.
  destruct (obj_get "items" r) as [items|]; [|injection H as <-; reflexivity].
  simpl in G. rewrite G in H. injection H as <-. reflexivity.
Qed.

Lemma strict_anyOf_idle rec r r1 :
  strict_anyOf rec r = Ok r1 -> truthy_opt (obj_get "anyOf" r) = false -> r1 = r.
Proof.
  unfold strict_anyOf. intros H G.
  destruct (obj_get "anyOf" r) as [xs|]; [|injection H as <-; reflexivity].
  simpl in G. rewrite G in H. injection H as <-. reflexivity.
Qed.

Lemma well_formed_NoDup o : well_formed (VObj o) = true -> NoDup (map fst o).
Proof. intros H. apply enumeration_order_NoDup, well_formed_keys, H. Qed.

(** X1: the normaliser rewrites five keys and no other.  A supported key
    of the result holds what it held in the schema, or is absent as it
    was there, unless it is [properties], [required] or
    [additionalProperties] of a schema whose [type] is "object" and whose
    [properties] is truthy, [items] of a schema whose [type] is "array"
    and whose [items] is truthy, or a truthy [anyOf].  So [oneOf],
    [$defs], [enum], [const], [$ref], [description] and [type] pass as
    they are, with whatever keywords the schemas inside them carry; and
    an object schema whose [type] is not the string "object", or which
    has no [properties], is not made strict. *)
Theorem normalize_untouched o r k :
  well_formed (VObj o) = true ->
  prepareSchemaForStrictMode (VObj o) = Ok (VObj r) ->
  supported k = true ->
  (is_string (obj_get "type" o) "object" && truthy_opt (obj_get "properties" o) = true ->
   k <> "properties" /\ k <> "required" /\ k <> "additionalProperties") ->
  (is_string (obj_get "type" o) "array" && truthy_opt (obj_get "items" o) = true ->
   k <> "items") ->
  (truthy_opt (obj_get "anyOf" o) = true -> k <> "anyOf") ->
  obj_get k r = obj_get k o.
Proof.
  intros Hw H Hk Gobj Garr Gany.
  destruct (prepare_steps _ _ H) as [r1 [r2 [r3 [E1 [E2 [E3 [= <-]]]]]]].
  pose proof (well_formed_NoDup _ Hw) as Hnd.
  set (r0 := copy_supported o []) in *.
  assert (L0 : forall x, supported x = true -> obj_get x r0 = obj_get x o)
    by (intros x Hx; apply copy_lookup; assumption).
  assert (L1 : obj_get k r1 = obj_get k o
               /\ obj_get "type" r1 = obj_get "type" o
               /\ obj_get "items" r1 = obj_get "items" o
               /\ obj_get "anyOf" r1 = obj_get "anyOf" o).
  { destruct (is_string (obj_get "type" o) "object"
              && truthy_opt (obj_get "properties" o)) eqn:G.
    - destruct (Gobj eq_refl) as [N1 [N2 N3]].
      rewrite !(strict_object_keeps _ _ _ _ E1) by (assumption || discriminate).
      rewrite !L0 by (assumption || reflexivity). auto.
    - assert (r1 = r0) as ->.
      { apply (strict_object_idle _ _ _ E1). rewrite !L0 by reflexivity. exact G. }
      rewrite !L0 by (assumption || reflexivity). auto. }
  destruct L1 as [Lk [Lt [Li La]]].
  assert (L2 : obj_get k r2 = obj_get k o /\ obj_get "anyOf" r2 = obj_get "anyOf" o).
  { destruct (is_string (obj_get "type" o) "array"
              && truthy_opt (obj_get "items" o)) eqn:G.
    - pose proof (Garr eq_refl) as N1.
      rewrite !(strict_array_keeps _ _ _ _ E2) by (assumption || discriminate). auto.
    - assert (r2 = r1) as ->.
      { apply (strict_array_idle _ _ _ E2). rewrite Lt, Li. exact G. }
      auto. }
  destruct L2 as [Lk2 La2].
  destruct (truthy_opt (obj_get "anyOf" o)) eqn:G.
  - pose proof (Gany eq_refl) as N1.
    rewrite (strict_anyOf_keeps _ _ _ _ E3) by assumption. exact Lk2.
  - assert (r = r2) as ->.
    { apply (strict_anyOf_idle _ _ _ E3). rewrite La2. exact G. }
    exact Lk2.
Qed.

(* ----------------------------------------------------------------- *)
(** *** The blocks for [items] and [anyOf] *)

Lemma strict_array_active rec r r1 items :
  strict_array rec r = Ok r1 -> obj_get "items" r = Some items ->
  is_string (obj_get "type" r) "array" && truthy items = true ->
  exists items', rec items = Ok items' /\ obj_get "items" r1 = Some items'.
Proof.
  unfold strict_array. intros H Gi G. rewrite Gi, G in H.
  destruct (rec items) as [items'|]; cbn [bind] in H; [|discriminate].
  injection H as <-. exists items'. split; [reflexivity|].
  apply obj_get_set_same. discriminate.
Qed.

Lemma mapM_Forall2 {A B} (f : A -> completion B) l : forall l',
  mapM f l = Ok l' <-> Forall2 (fun x x' => f x = Ok x') l l'.
Proof.
  induction l as [|a l IH]; intros l'; simpl.
  - split.
    + intros [= <-]. constructor.
    + intros H. inversion H. reflexivity.
  - split.
    + intros H. destruct (f a) as [b|] eqn:Ea; cbn [bind] in H; [|discriminate].
      destruct (mapM f l) as [bs|]; cbn [bind] in H; [|discriminate].
      injection H as <-. constructor; [exact Ea|]. apply IH. reflexivity.
    + intros H. inversion H as [|x y xs ys Hxy Hrest]; subst.
      rewrite Hxy. cbn [bind]. apply IH in Hrest. rewrite Hrest. reflexivity.
Qed.

Lemma strict_anyOf_active rec r r1 l :
  strict_anyOf rec r = Ok r1 -> obj_get "anyOf" r = Some (VArr l) ->
  exists l', obj_get "anyOf" r1 = Some (VArr l')
             /\ Forall2 (fun x x' => rec x = Ok x') l l'.
Proof.
  unfold strict_anyOf. intros H Ga. rewrite Ga in H. simpl in H.
  destruct (mapM rec l) as [l'|] eqn:E; cbn [bind] in H; [|discriminate].
  injection H as <-. exists l'. split.
  - apply obj_get_set_same. discriminate.
  - apply mapM_Forall2. exact E.
Qed.

(** The normaliser throws nothing but a TypeError. *)
Lemma assign_props_throws rec es : forall acc e,
  (forall v e', rec v = Throw e' -> e' = TypeError) ->
  assign_props rec es acc = Throw e -> e = TypeError.
Proof.
  induction es as [|[k v] es IH]; intros acc e Hrec H; simpl in H; [discriminate|].
  destruct (rec v) as [v'|e'] eqn:Ev; cbn [bind] in H.
  - apply (IH _ _ Hrec H).
  - injection H as <-. apply (Hrec _ _ Ev).
Qed.

Lemma mapM_throws {A B} (f : A -> completion B) l e :
  (forall a e', f a = Throw e' -> e' = TypeError) ->
  mapM f l = Throw e -> e = TypeError.
Proof.
  intros Hf. induction l as [|a l IH]; simpl; intros H; [discriminate|].
  destruct (f a) as [b|e'] eqn:Ea; cbn [bind] in H.
  - destruct (mapM f l) as [bs|e'']; cbn [bind] in H; [discriminate|].
    injection H as <-. apply IH. reflexivity.
  - injection H as <-. apply (Hf _ _ Ea).
Qed.

Lemma Object_entries_throws v e : Object_entries v = Throw e -> e = TypeError.
Proof. destruct v; simpl; intros H; try discriminate. injection H as <-. reflexivity. Qed.

Lemma strict_object_throws rec r e :
  (forall v e', rec v = Throw e' -> e' = TypeError) ->
  strict_object rec r = Throw e -> e = TypeError.
Proof.
  intros Hrec. unfold strict_object, Object_keys.
  destruct (obj_get "properties" r) as [props|]; [|discriminate].
  destruct (is_string (obj_get "type" r) "object" && truthy props); [|discriminate].
  destruct (Object_entries props) as [es|e'] eqn:Ee; cbn [bind].
  - destruct (assign_props rec es []) as [ps|e'] eqn:Ea; cbn [bind]; [discriminate|].
    intros [= <-]. apply (assign_props_throws _ _ _ _ Hrec Ea).
  - intros [= <-]. apply (Object_entries_throws _ _ Ee).
Qed.

Lemma strict_array_throws rec r e :
  (forall v e', rec v = Throw e' -> e' = TypeError) ->
  strict_array rec r = Throw e -> e = TypeError.
Proof.
  intros Hrec. unfold strict_array.
  destruct (obj_get "items" r) as [items|]; [|discriminate].
  destruct (is_string (obj_get "type" r) "array" && truthy items); [|discriminate].
  destruct (rec items) as [items'|e'] eqn:E; cbn [bind]; [discriminate|].
  intros [= <-]. apply (Hrec _ _ E).
Qed.

Lemma strict_anyOf_throws rec r e :
  (forall v e', rec v = Throw e' -> e' = TypeError) ->
  strict_anyOf rec r = Throw e -> e = TypeError.
Proof.
  intros Hrec. unfold strict_anyOf, array_map.
  destruct (obj_get "anyOf" r) as [xs|]; [|discriminate].
  destruct (truthy xs); [|discriminate].
  destruct xs as [| | | |l|]; cbn [bind]; try (intros [= <-]; reflexivity).
  destruct (mapM rec l) as [l'|e'] eqn:E; cbn [bind]; [discriminate|].
  intros [= <-]. apply (mapM_throws _ _ _ Hrec E).
Qed.

Lemma prepare_fuel_throws n : forall s e,
  prepare_fuel n s = Throw e -> e = TypeError.
Proof.
  induction n as [|n IH]; intros s e H; simpl in H; [discriminate|].
  unfold prepare_body in H.
  destruct (negb (truthy s) || negb (typeof s =? "object")); [discriminate|].
  destruct (Object_entries s) as [es|e'] eqn:Ee; cbn [bind] in H;
    [|injection H as <-; apply (Object_entries_throws _ _ Ee)].
  destruct (strict_object (prepare_fuel n) (copy_supported es [])) as [r1|e'] eqn:E1;
    cbn [bind] in H; [|injection H as <-; apply (strict_object_throws _ _ _ IH E1)].
  destruct (strict_array (prepare_fuel n) r1) as [r2|e'] eqn:E2;
    cbn [bind] in H; [|injection H as <-; apply (strict_array_throws _ _ _ IH E2)].
  destruct (strict_anyOf (prepare_fuel n) r2) as [r3|e'] eqn:E3;
    cbn [bind] in H; [discriminate|].
  injection H as <-. apply (strict_anyOf_throws _ _ _ IH E3).
Qed.

Lemma prepare_throws s e : prepareSchemaForStrictMode s = Throw e -> e = TypeError.
Proof. apply prepare_fuel_throws. Qed.

(** X2: [items] of a schema whose [type] is "array" is replaced by its
    normalisation.  An [items] that is itself an array, one schema for
    each position, is replaced by the empty schema: the copying loop finds
    no supported key among the indices. *)
Theorem normalize_items o r items :
  well_formed (VObj o) = true ->
  prepareSchemaForStrictMode (VObj o) = Ok (VObj r) ->
  obj_get "type" o = Some (VStr "array") ->
  obj_get "items" o = Some items ->
  truthy items = true ->
  (exists items',
     prepareSchemaForStrictMode items = Ok items'
     /\ obj_get "items" r = Some items')
  /\ (forall l, items = VArr l -> obj_get "items" r = Some (VObj [])).
Proof.
  intros Hw H Gt Gi Ht.
  destruct (prepare_steps _ _ H) as [r1 [r2 [r3 [E1 [E2 [E3 [= <-]]]]]]].
  pose proof (well_formed_NoDup _ Hw) as Hnd.
  assert (G1 : obj_get "type" r1 = Some (VStr "array")
               /\ obj_get "items" r1 = Some items).
  { rewrite !(strict_object_keeps _ _ _ _ E1) by discriminate.
    rewrite !copy_lookup by (assumption || reflexivity). auto. }
  destruct G1 as [G1t G1i].
  destruct (strict_array_active _ _ _ _ E2 G1i) as [items' [Hi Gi2]].
  { rewrite G1t, Ht. reflexivity. }
  assert (Gr : obj_get "items" r = Some items').
  { rewrite (strict_anyOf_keeps _ _ _ _ E3) by discriminate. exact Gi2. }
  split; [exists items'; auto|].
  intros l ->. rewrite prepare_array in Hi. injection Hi as <-. exact Gr.
Qed.

(** X3: a truthy [anyOf] is mapped over.  If it is an array, every
    alternative is replaced by its normalisation, in place; if it is any
    other truthy value, a string or a number or an object, the call of its
    [map] throws a TypeError, whatever else the schema holds. *)
Theorem normalize_anyOf o xs :
  well_formed (VObj o) = true ->
  obj_get "anyOf" o = Some xs ->
  truthy xs = true ->
  (forall l r,
     xs = VArr l -> prepareSchemaForStrictMode (VObj o) = Ok (VObj r) ->
     exists l',
       obj_get "anyOf" r = Some (VArr l')
       /\ Forall2 (fun x x' => prepareSchemaForStrictMode x = Ok x') l l')
  /\ ((forall l, xs <> VArr l) ->
      prepareSchemaForStrictMode (VObj o) = Throw TypeError).
Proof.
  intros Hw Ga Ht.
  pose proof (well_formed_NoDup _ Hw) as Hnd.
  assert (K : forall r1 r2,
            strict_object prepareSchemaForStrictMode (copy_supported o []) = Ok r1 ->
            strict_array prepareSchemaForStrictMode r1 = Ok r2 ->
            obj_get "anyOf" r2 = Some xs).
  { intros r1 r2 E1 E2.
    rewrite (strict_array_keeps _ _ _ _ E2) by discriminate.
    rewrite (strict_object_keeps _ _ _ _ E1) by discriminate.
    rewrite copy_lookup by (assumption || reflexivity). exact Ga. }
  split.
  - intros l r -> H.
    destruct (prepare_steps _ _ H) as [r1 [r2 [r3 [E1 [E2 [E3 [= <-]]]]]]].
    apply (strict_anyOf_active _ _ _ _ E3). apply (K r1 r2); assumption.
  - intros Hn.
    destruct (prepareSchemaForStrictMode (VObj o)) as [r|e] eqn:H.
    + exfalso.
      destruct (prepare_steps _ _ H) as [r1 [r2 [r3 [E1 [E2 [E3 _]]]]]].
      pose proof (K r1 r2 E1 E2) as G2.
      unfold strict_anyOf in E3. rewrite G2, Ht in E3.
      destruct xs as [| | | |l|]; try discriminate.
      apply (Hn l). reflexivity.
    + rewrite (prepare_throws _ _ H). reflexivity.
Qed.

(* ----------------------------------------------------------------- *)
(** *** Strictness at every depth *)

Lemma prepare_keeps_absent o r k :
  well_formed (VObj o) = true ->
  prepareSchemaForStrictMode (VObj o) = Ok (VObj r) ->
  In k ["properties"; "items"; "anyOf"] ->
  obj_get k o = None -> obj_get k r = None.
Proof.
  intros Hw H Hk Gk.
  destruct (prepare_steps _ _ H) as [r1 [r2 [r3 [E1 [E2 [E3 [= <-]]]]]]].
  pose proof (well_formed_NoDup _ Hw) as Hnd.
  assert (G0 : obj_get k (copy_supported o []) = None).
  { rewrite copy_lookup; [exact Gk|exact Hnd|].
    destruct Hk as [<-|[<-|[<-|[]]]]; reflexivity. }
  destruct Hk as [<-|[<-|[<-|[]]]].
  - assert (r1 = copy_supported o []) as ->.
    { apply (strict_object_idle _ _ _ E1). rewrite G0. apply andb_false_r. }
    rewrite (strict_anyOf_keeps _ _ _ _ E3), (strict_array_keeps _ _ _ _ E2)
      by discriminate. exact G0.
  - assert (G1 : obj_get "items" r1 = None).
    { rewrite (strict_object_keeps _ _ _ _ E1) by discriminate. exact G0. }
    assert (r2 = r1) as ->.
    { apply (strict_array_idle _ _ _ E2). rewrite G1. apply andb_false_r. }
    rewrite (strict_anyOf_keeps _ _ _ _ E3) by discriminate. exact G1.
  - assert (G2 : obj_get "anyOf" r2 = None).
    { rewrite (strict_array_keeps _ _ _ _ E2), (strict_object_keeps _ _ _ _ E1)
        by discriminate. exact G0. }
    assert (r = r2) as ->.
    { apply (strict_anyOf_idle _ _ _ E3). rewrite G2. reflexivity. }
    exact G2.
Qed.

Lemma prepare_keeps_type o r :
  well_formed (VObj o) = true ->
  prepareSchemaForStrictMode (VObj o) = Ok (VObj r) ->
  obj_get "type" r = obj_get "type" o.
Proof.
  intros Hw H.
  destruct (prepare_steps _ _ H) as [r1 [r2 [r3 [E1 [E2 [E3 [= <-]]]]]]].
  rewrite (strict_anyOf_keeps _ _ _ _ E3), (strict_array_keeps _ _ _ _ E2),
    (strict_object_keeps _ _ _ _ E1) by discriminate.
  apply copy_lookup; [apply well_formed_NoDup; exact Hw|reflexivity].
Qed.

Lemma is_string_inv v s : is_string v s = true -> v = Some (VStr s).
Proof.
  destruct v as [[| | |s'| |]|]; simpl; try discriminate.
  intros H. apply String.eqb_eq in H. subst. reflexivity.
Qed.

Lemma Forall2_In_r {A B} (R : A -> B -> Prop) l l' y :
  Forall2 R l l' -> In y l' -> exists x, In x l /\ R x y.
Proof.
  induction 1 as [|a b l l' Hab _ IH]; simpl; [intros []|].
  intros [<-|Hy].
  - exists a. auto.
  - destruct (IH Hy) as [x [Hx Hr]]. exists x. auto.
Qed.

Lemma is_schema_object s : is_schema s = true -> exists o, s = VObj o.
Proof. destruct s; simpl; try discriminate. eauto. Qed.

Lemma strict_fuel n : forall s,
  height s < n ->
  well_formed s = true -> is_schema s = true -> proto_free s = true ->
  exists r, prepareSchemaForStrictMode s = Ok r /\ Strict r.
Proof.
  induction n as [|n IH]; intros s Hh Hw Hs Hp; [lia|].
  destruct (is_schema_object _ Hs) as [o ->].
  destruct (prepare_schema_total _ (VObj o) (Nat.lt_succ_diag_r _) Hs) as [r [Hr _]].
  exists (VObj r). split; [exact Hr|].
  pose proof (prepare_keeps_type _ _ Hw Hr) as Ht.
  assert (Sub : forall k v, In (k, v) o -> height v < n).
  { intros k v Hin. pose proof (height_prop _ _ _ Hin). lia. }
  destruct (prepare_steps _ _ Hr) as [r1 [r2 [r3 [E1 [E2 [E3 [= <-]]]]]]].
  pose proof (well_formed_NoDup _ Hw) as Hnd.
  apply Strict_object.
  - intros qs Gq Gt. rewrite Ht in Gt. apply is_string_inv in Gt.
    destruct (obj_get "properties" o) as [props|] eqn:Gp.
    + pose proof (obj_get_In _ _ _ Gp) as Hin.
      destruct (proj1 (is_schema_entry _ _ _ Hs Hin) eq_refl) as [ps [-> Hps]].
      destruct (proj1 (proto_free_entry _ _ _ Hp Hin) eq_refl ps eq_refl)
        as [Hnp Hpf].
      destruct (strict_object_contract o ps Hw Hs Gt Gp Hnp)
        as [r' [qs' [Hr' [Gr [Ga [Gq' F]]]]]].
      rewrite Hr in Hr'. injection Hr' as <-.
      rewrite Gq in Gq'. injection Gq' as <-.
      rewrite (Forall2_keys _ _ _ F).
      split; [exact Gr|]. split; [exact Ga|].
      intros k q Hq.
      destruct (Forall2_In_r _ _ _ _ F Hq) as [[k0 p] [Hp0 [_ Hpq]]].
      simpl in Hpq.
      destruct (IH p) as [q' [Hq' Sq]].
      * pose proof (height_prop _ _ _ Hp0) as H1. pose proof (Sub _ _ Hin). lia.
      * apply (well_formed_entry ps k0 p); [|exact Hp0].
        apply (well_formed_entry o "properties" (VObj ps) Hw Hin).
      * apply (Hps (k0, p) Hp0).
      * apply (Hpf (k0, p) Hp0).
      * rewrite Hpq in Hq'. injection Hq' as <-. exact Sq.
    + rewrite (prepare_keeps_absent o r "properties" Hw Hr) in Gq;
        [discriminate|simpl; auto|exact Gp].
  - intros items' Gi Gt. rewrite Ht in Gt. apply is_string_inv in Gt.
    destruct (obj_get "items" o) as [items|] eqn:Gio.
    + pose proof (obj_get_In _ _ _ Gio) as Hin.
      pose proof (proj1 (proj2 (is_schema_entry _ _ _ Hs Hin)) eq_refl) as Hsi.
      pose proof (proj1 (proj2 (proto_free_entry _ _ _ Hp Hin)) eq_refl) as Hpi.
      destruct (IH items (Sub _ _ Hin) (well_formed_entry _ _ _ Hw Hin) Hsi Hpi)
        as [q [Hq Sq]].
      assert (G1 : obj_get "type" r1 = Some (VStr "array")
                   /\ obj_get "items" r1 = Some items).
      { rewrite !(strict_object_keeps _ _ _ _ E1) by discriminate.
        rewrite !copy_lookup by (assumption || reflexivity). auto. }
      destruct G1 as [G1t G1i].
      destruct (strict_array_active _ _ _ _ E2 G1i) as [q' [Hq' Gq']].
      { rewrite G1t. destruct (is_schema_object _ Hsi) as [oi ->]. reflexivity. }
      rewrite (strict_anyOf_keeps _ _ _ _ E3) in Gi by discriminate.
      rewrite Gq' in Gi. injection Gi as <-.
      rewrite Hq in Hq'. injection Hq' as <-. exact Sq.
    + rewrite (prepare_keeps_absent o r "items" Hw Hr) in Gi;
        [discriminate|simpl; auto|exact Gio].
  - intros l' Ga x Hx.
    destruct (obj_get "anyOf" o) as [xs|] eqn:Gao.
    + pose proof (obj_get_In _ _ _ Gao) as Hin.
      destruct (proj2 (proj2 (is_schema_entry _ _ _ Hs Hin)) eq_refl) as [l [-> Hl]].
      pose proof (proj2 (proj2 (proto_free_entry _ _ _ Hp Hin)) eq_refl l eq_refl)
        as Hpl.
      assert (G2 : obj_get "anyOf" r2 = Some (VArr l)).
      { rewrite (strict_array_keeps _ _ _ _ E2), (strict_object_keeps _ _ _ _ E1)
          by discriminate.
        rewrite copy_lookup by (assumption || reflexivity). exact Gao. }
      destruct (strict_anyOf_active _ _ _ _ E3 G2) as [l'' [Ga'' F]].
      rewrite Ga in Ga''. injection Ga'' as <-.
      destruct (Forall2_In_r _ _ _ _ F Hx) as [x0 [Hx0 Hxx]].
      destruct (IH x0) as [q [Hq Sq]].
      * pose proof (height_elem _ _ Hx0) as H1. pose proof (Sub _ _ Hin). lia.
      * apply (well_formed_elem l x0); [|exact Hx0].
        apply (well_formed_entry o "anyOf" (VArr l) Hw Hin).
      * apply (Hl x0 Hx0).
      * apply (Hpl x0 Hx0).
      * rewrite Hxx in Hq. injection Hq as <-. exact Sq.
    + rewrite (prepare_keeps_absent o r "anyOf" Hw Hr) in Ga;
        [discriminate|simpl; auto|exact Gao].
Qed.

(** X4: the purpose of the normaliser.  For every schema that declares
    no property named [__proto__], the result is strict at every depth
    the normaliser reaches: each object schema with properties, nested
    through properties, [items] of arrays and alternatives of [anyOf],
    requires exactly its properties and has [additionalProperties]
    false. *)
Theorem normalize_strict_everywhere s :
  well_formed s = true -> is_schema s = true -> proto_free s = true ->
  exists r, prepareSchemaForStrictMode s = Ok r /\ Strict r.
Proof. apply (strict_fuel (S (height s))). lia. Qed.

(* ----------------------------------------------------------------- *)
(** *** Stripping at every depth *)

Lemma assign_props_In rec es : forall acc qs k q,
  assign_props rec es acc = Ok qs -> In (k, q) qs ->
  In (k, q) acc \/ exists p, In (k, p) es /\ rec p = Ok q.
Proof.
  induction es as [|[k0 p0] es IH]; intros acc qs k q H Hin; simpl in H.
  - injection H as <-. left. exact Hin.
  - destruct (rec p0) as [q0|] eqn:E0; cbn [bind] in H; [|discriminate].
    destruct (IH _ _ _ _ H Hin) as [Hacc|[p [Hp Hr]]].
    + apply In_obj_set in Hacc. destruct Hacc as [[= -> ->]|Hacc].
      * right. exists p0. split; [left; reflexivity|exact E0].
      * left. exact Hacc.
    + right. exists p. split; [right; exact Hp|exact Hr].
Qed.

Lemma strict_object_active rec r r1 ps :
  strict_object rec r = Ok r1 ->
  obj_get "properties" r = Some (VObj ps) ->
  is_string (obj_get "type" r) "object" = true ->
  exists qs, assign_props rec ps [] = Ok qs
             /\ obj_get "properties" r1 = Some (VObj qs).
Proof.
  unfold strict_object, Object_keys. intros H Gp Gt. rewrite Gp, Gt in H.
  cbn [truthy andb Object_entries bind] in H.
  destruct (assign_props rec ps []) as [qs|] eqn:E; cbn [bind] in H; [|discriminate].
  injection H as <-. exists qs. split; [reflexivity|].
  apply obj_get_set_same. discriminate.
Qed.

Lemma stripped_fuel n : forall s,
  height s < n ->
  well_formed s = true -> is_schema s = true ->
  exists r, prepareSchemaForStrictMode s = Ok r /\ Stripped r.
Proof.
  induction n as [|n IH]; intros s Hh Hw Hs; [lia|].
  destruct (is_schema_object _ Hs) as [o ->].
  destruct (prepare_schema_total _ (VObj o) (Nat.lt_succ_diag_r _) Hs)
    as [r [Hr [_ Hsup]]].
  exists (VObj r). split; [exact Hr|].
  pose proof (prepare_keeps_type _ _ Hw Hr) as Ht.
  assert (Sub : forall k v, In (k, v) o -> height v < n).
  { intros k v Hin. pose proof (height_prop _ _ _ Hin). lia. }
  destruct (prepare_steps _ _ Hr) as [r1 [r2 [r3 [E1 [E2 [E3 [= <-]]]]]]].
  pose proof (well_formed_NoDup _ Hw) as Hnd.
  apply Stripped_object.
  - intros k Hk. apply supported_In. rewrite Forall_forall in Hsup. auto.
  - intros qs Gq Gt. rewrite Ht in Gt.
    destruct (obj_get "properties" o) as [props|] eqn:Gp.
    + pose proof (obj_get_In _ _ _ Gp) as Hin.
      destruct (proj1 (is_schema_entry _ _ _ Hs Hin) eq_refl) as [ps [-> Hps]].
      assert (G0 : obj_get "properties" (copy_supported o []) = Some (VObj ps)
                   /\ obj_get "type" (copy_supported o []) = obj_get "type" o).
      { rewrite !copy_lookup by (assumption || reflexivity). auto. }
      destruct G0 as [G0p G0t].
      destruct (strict_object_active _ _ _ _ E1 G0p) as [qs' [Ha Gq1]];
        [rewrite G0t; exact Gt|].
      rewrite (strict_anyOf_keeps _ _ _ _ E3), (strict_array_keeps _ _ _ _ E2) in Gq
        by discriminate.
      rewrite Gq1 in Gq. injection Gq as <-.
      intros k q Hq.
      destruct (assign_props_In _ _ _ _ _ _ Ha Hq) as [[]|[p [Hp Hpq]]].
      destruct (IH p) as [q' [Hq' Sq]].
      * pose proof (height_prop _ _ _ Hp) as H1. pose proof (Sub _ _ Hin). lia.
      * apply (well_formed_entry ps k p); [|exact Hp].
        apply (well_formed_entry o "properties" (VObj ps) Hw Hin).
      * apply (Hps (k, p) Hp).
      * rewrite Hpq in Hq'. injection Hq' as <-. exact Sq.
    + rewrite (prepare_keeps_absent o r "properties" Hw Hr) in Gq;
        [discriminate|simpl; auto|exact Gp].
  - intros items' Gi Gt. rewrite Ht in Gt. apply is_string_inv in Gt.
    destruct (obj_get "items" o) as [items|] eqn:Gio.
    + pose proof (obj_get_In _ _ _ Gio) as Hin.
      pose proof (proj1 (proj2 (is_schema_entry _ _ _ Hs Hin)) eq_refl) as Hsi.
      destruct (IH items (Sub _ _ Hin) (well_formed_entry _ _ _ Hw Hin) Hsi)
        as [q [Hq Sq]].
      assert (G1 : obj_get "type" r1 = Some (VStr "array")
                   /\ obj_get "items" r1 = Some items).
      { rewrite !(strict_object_keeps _ _ _ _ E1) by discriminate.
        rewrite !copy_lookup by (assumption || reflexivity). auto. }
      destruct G1 as [G1t G1i].
      destruct (strict_array_active _ _ _ _ E2 G1i) as [q' [Hq' Gq']].
      { rewrite G1t. destruct (is_schema_object _ Hsi) as [oi ->]. reflexivity. }
      rewrite (strict_anyOf_keeps _ _ _ _ E3) in Gi by discriminate.
      rewrite Gq' in Gi. injection Gi as <-.
      rewrite Hq in Hq'. injection Hq' as <-. exact Sq.
    + rewrite (prepare_keeps_absent o r "items" Hw Hr) in Gi;
        [discriminate|simpl; auto|exact Gio].
  - intros l' Ga x Hx.
    destruct (obj_get "anyOf" o) as [xs|] eqn:Gao.
    + pose proof (obj_get_In _ _ _ Gao) as Hin.
      destruct (proj2 (proj2 (is_schema_entry _ _ _ Hs Hin)) eq_refl) as [l [-> Hl]].
      assert (G2 : obj_get "anyOf" r2 = Some (VArr l)).
      { rewrite (strict_array_keeps _ _ _ _ E2), (strict_object_keeps _ _ _ _ E1)
          by discriminate.
        rewrite copy_lookup by (assumption || reflexivity). exact Gao. }
      destruct (strict_anyOf_active _ _ _ _ E3 G2) as [l'' [Ga'' F]].
      rewrite Ga in Ga''. injection Ga'' as <-.
      destruct (Forall2_In_r _ _ _ _ F Hx) as [x0 [Hx0 Hxx]].
      destruct (IH x0) as [q [Hq Sq]].
      * pose proof (height_elem _ _ Hx0) as H1. pose proof (Sub _ _ Hin). lia.
      * apply (well_formed_elem l x0); [|exact Hx0].
        apply (well_formed_entry o "anyOf" (VArr l) Hw Hin).
      * apply (Hl x0 Hx0).
      * rewrite Hxx in Hq. injection Hq as <-. exact Sq.
    + rewrite (prepare_keeps_absent o r "anyOf" Hw Hr) in Ga;
        [discriminate|simpl; auto|exact Gao].
Qed.

(** X24: unsupported keywords are stripped at every depth the
    normaliser reaches.  In the result, the schema itself and every
    schema nested in it through properties of objects, [items] of arrays
    and alternatives of [anyOf] has supported keys only. *)
Theorem normalize_stripped_everywhere s :
  well_formed s = true -> is_schema s = true ->
  exists r, prepareSchemaForStrictMode s = Ok r /\ Stripped r.
Proof. apply (stripped_fuel (S (height s))). lia. Qed.

(* ----------------------------------------------------------------- *)
(** *** The theorems at work *)

Lemma normalize_untouched_witness :
  exists r,
    prepareSchemaForStrictMode variant_schema = Ok (VObj r)
    /\ obj_get "$defs" r
       = Some (VObj [ ("id", VObj [ ("type", VStr "integer");
                                    ("minimum", VNum 0) ]) ]).
Proof.
  eexists. split; [reflexivity|].
  refine (normalize_untouched
            [ ("type", VStr "string");
              ("oneOf", VArr [ VObj [ ("type", VStr "string");
                                      ("minLength", VNum 1) ] ]);
              ("$defs", VObj [ ("id", VObj [ ("type", VStr "integer");
                                             ("minimum", VNum 0) ]) ]);
              ("title", VStr "Variant") ] _ "$defs" _ _ _ _ _ _).
  - reflexivity.
  - reflexivity.
  - reflexivity.
  - discriminate.
  - discriminate.
  - discriminate.
Defined.

Lemma normalize_items_witness :
  exists r,
    prepareSchemaForStrictMode tuple_schema = Ok (VObj r)
    /\ obj_get "items" r = Some (VObj []).
Proof.
  eexists. split; [reflexivity|].
  refine (proj2 (normalize_items
                   [ ("type", VStr "array");
                     ("items", VArr [ VObj [ ("type", VStr "string") ];
                                      VObj [ ("type", VStr "number") ] ]) ]
                   _ (VArr [ VObj [ ("type", VStr "string") ];
                             VObj [ ("type", VStr "number") ] ]) _ _ _ _ _)
                _ eq_refl).
  - reflexivity.
  - reflexivity.
  - reflexivity.
  - reflexivity.
  - reflexivity.
Defined.

Lemma normalize_anyOf_witness :
  prepareSchemaForStrictMode
    (VObj [ ("type", VStr "string"); ("anyOf", VStr "string") ])
  = Throw TypeError.
Proof.
  refine (proj2 (normalize_anyOf
                   [ ("type", VStr "string"); ("anyOf", VStr "string") ]
                   (VStr "string") _ _ _) _).
  - reflexivity.
  - reflexivity.
  - reflexivity.
  - discriminate.
Defined.

Lemma normalize_strict_everywhere_witness :
  exists r, prepareSchemaForStrictMode choice_schema = Ok r /\ Strict r.
Proof.
  apply (normalize_strict_everywhere choice_schema); reflexivity.
Defined.

Lemma prepare_idempotent_plain_witness :
  exists r, prepareSchemaForStrictMode person_schema = Ok r
            /\ prepareSchemaForStrictMode r = Ok r.
Proof.
  apply (prepare_idempotent_plain person_schema); reflexivity.
Defined.

Lemma normalize_stripped_everywhere_witness :
  exists r, prepareSchemaForStrictMode person_schema = Ok r /\ Stripped r.
Proof.
  apply (normalize_stripped_everywhere person_schema); reflexivity.
Defined.

Lemma normalize_allow_list_any_witness :
  exists o, VObj [] = VObj o /\ forall k, In k (map fst o) -> In k supportedKeys.
Proof.
  apply (normalize_allow_list_any (VArr [VNum 1; VNum 2]) (VObj [])); reflexivity.
Defined.

(* ================================================================= *)
(** ** The renderer beyond object bindings *)

Lemma token_free_tail a s : token_free (String a s) -> token_free s.
Proof.
  intros H pre text key rest Ht ->.
  apply (H (String a pre) text key rest Ht). reflexivity.
Qed.

Lemma token_free_head a s :
  token_free (String a s) -> match_token (String a s) = None.
Proof.
  intros H. destruct (match_token (String a s)) as [[key rest]|] eqn:E; [|reflexivity].
  exfalso. destruct (match_token_sound _ _ _ E) as [text [Ht Hs]].
  apply (H "" text key rest Ht). exact Hs.
Qed.

Lemma replace_token_free f s : token_free s -> replace_tokens f 0 s = Ok s.
Proof.
  induction s as [|a s IH]; intros H; [reflexivity|].
  rewrite replace_char by (apply token_free_head; exact H).
  rewrite IH by (apply (token_free_tail a); exact H). reflexivity.
Qed.

Lemma substitute_primitive data text key :
  primitive data = true -> substitute data text key = Throw TypeError.
Proof. destruct data; simpl; try discriminate; reflexivity. Qed.

Lemma replace_primitive data pre : forall text key rest,
  primitive data = true -> token text key ->
  replace_tokens (substitute data) 0 (pre ++ text ++ rest) = Throw TypeError.
Proof.
  induction pre as [|a pre IH]; intros text key rest Hd Ht.
  - change ("" ++ text ++ rest)%string with (text ++ rest)%string.
    rewrite (replace_token _ _ _ _ Ht), substitute_primitive by exact Hd.
    reflexivity.
  - change (String a pre ++ text ++ rest)%string
      with (String a (pre ++ text ++ rest)).
    destruct (match_token (String a (pre ++ text ++ rest))) as [[key' rest']|] eqn:E.
    + destruct (match_token_sound _ _ _ E) as [text' [Ht' ->]].
      rewrite (replace_token _ _ _ _ Ht'), substitute_primitive by exact Hd.
      reflexivity.
    + rewrite (replace_char _ _ _ E), (IH _ _ _ Hd Ht). reflexivity.
Qed.

(** X6: the bindings matter only where there is a token.  A template
    no part of which is a token comes back unchanged whatever the
    bindings are, [null] included; and when the bindings are [null], a
    boolean, a number or a string, a template with a token anywhere in it
    makes the renderer throw a TypeError, from the test [key in data]. *)
Theorem render_needs_object template data :
  (token_free template -> renderTemplate template data = Ok template)
  /\ (forall pre text key rest,
        primitive data = true -> token text key ->
        template = (pre ++ text ++ rest)%string ->
        renderTemplate template data = Throw TypeError).
Proof.
  split.
  - apply replace_token_free.
  - intros pre text key rest Hd Ht ->.
    exact (replace_primitive data pre text key rest Hd Ht).
Qed.

(** X7: rendering is one pass from left to right.  At a token, the
    output is what the callback makes of the token, followed by the
    rendering of the text after it: the substituted text is not scanned
    again, so a bound value that itself reads like a token stays as it
    is.  At a character that begins no token, the output is that
    character followed by the rendering of the rest. *)
Theorem render_step data :
  (forall text key rest,
     token text key ->
     renderTemplate (text ++ rest) data
     = let* r := substitute data text key in
       let* out := renderTemplate rest data in
       Ok (r ++ out)%string)
  /\ (forall a s,
        (forall text key rest, token text key -> String a s <> (text ++ rest)%string) ->
        renderTemplate (String a s) data
        = let* out := renderTemplate s data in Ok (String a out)).
Proof.
  split.
  - intros text key rest Ht. apply replace_token. exact Ht.
  - intros a s H. apply replace_char. apply no_token_here. exact H.
Qed.

(* ================================================================= *)
(** ** The parser: its failures and what it returns *)

Lemma mapM_throws_in {A B} (f : A -> completion B) l e :
  (forall a e', In a l -> f a = Throw e' -> e' = TypeError) ->
  mapM f l = Throw e -> e = TypeError.
Proof.
  induction l as [|a l IH]; simpl; intros Hf H; [discriminate|].
  destruct (f a) as [b|e'] eqn:Ea; cbn [bind] in H.
  - destruct (mapM f l) as [bs|e''] eqn:El; cbn [bind] in H; [discriminate|].
    injection H as <-. apply IH; [|reflexivity].
    intros x e' Hx. apply Hf. right. exact Hx.
  - injection H as <-. apply (Hf a); [left; reflexivity|exact Ea].
Qed.

(** [String(v)] throws nothing but a TypeError. *)
Lemma to_String_throws_fuel n : forall v e,
  height v < n -> to_String v = Throw e -> e = TypeError.
Proof.
  induction n as [|n IH]; intros v e Hh H; [lia|].
  destruct v as [|b|z|s|l|o]; simpl in H; try discriminate.
  - destruct b; discriminate.
  - destruct (mapM (fun x => match x with VNull => Ok "" | _ => to_String x end) l)
      as [parts|e'] eqn:E; cbn [bind] in H; [discriminate|].
    injection H as <-. refine (mapM_throws_in _ _ _ _ E).
    intros x ex Hx Hx'.
    assert (Hlt : height x < n) by (pose proof (height_elem _ _ Hx); lia).
    destruct x; try discriminate; apply (IH _ _ Hlt Hx').
  - destruct (has_own "toString" o); [|discriminate].
    injection H as <-. reflexivity.
Qed.

Lemma to_String_throws v e : to_String v = Throw e -> e = TypeError.
Proof. apply (to_String_throws_fuel (S (height v))). lia. Qed.

Lemma String_of_property_throws p e :
  String_of_property p = Throw e -> e = TypeError.
Proof. destruct p; simpl; try discriminate. apply to_String_throws. Qed.

Lemma object_like fm :
  negb (truthy fm) || negb (typeof fm =? "object") = false ->
  (exists o, fm = VObj o) \/ (exists l, fm = VArr l).
Proof.
  destruct fm; simpl; rewrite ?orb_true_r; try discriminate; eauto.
Qed.

Lemma require_fields_throws path fields fm e :
  negb (truthy fm) || negb (typeof fm =? "object") = false ->
  require_fields path fields fm = Throw e ->
  exists field, In field fields /\ e = invalid path (missing_field field).
Proof.
  intros G. induction fields as [|f fields IH]; simpl; [discriminate|].
  assert (J : exists b, js_in f fm = Ok b)
    by (destruct (object_like _ G) as [[o ->]|[l ->]]; simpl; eauto).
  destruct J as [b ->]. cbn [bind]. destruct b.
  - intros H. destruct (IH H) as [field [Hin ->]]. exists field. auto.
  - intros [= <-]. exists f. auto.
Qed.

Section ParserOutcomes.
Context (rt : Runtime).

Lemma parseSource_throws source path e :
  parseSource rt source path = Throw e ->
  e = YAMLException \/ e = TypeError
  \/ exists reason, e = invalid path reason /\ In reason reasons.
Proof.
  unfold parseSource, reasons. fold mandatory. intros H.
  destruct (prefix "---" (trim source)); cbn [negb] in H;
    [|injection H as <-; right; right; eexists; split; [reflexivity|simpl; auto]].
  destruct (index 3 "---" (trim source)) as [d|];
    [|injection H as <-; right; right; eexists; split; [reflexivity|simpl; auto]].
  destruct (yaml_load rt (trim (slice 3 d (trim source)))) as [[fm|]|];
    [|injection H as <-; right; right; eexists; split; [reflexivity|simpl; auto]
     |injection H as <-; left; reflexivity].
  destruct (negb (truthy fm) || negb (typeof fm =? "object")) eqn:G;
    [injection H as <-; right; right; eexists; split; [reflexivity|simpl; auto]|].
  destruct (require_fields path mandatory fm) as [u|e'] eqn:Er; cbn [bind] in H.
  - right. left.
    destruct (String_of_property (get_property fm "name")) as [nm|e'] eqn:En;
      cbn [bind] in H;
      [|injection H as <-; apply (String_of_property_throws _ _ En)].
    destruct (String_of_property (get_property fm "description")) as [ds|e'] eqn:Ed;
      cbn [bind] in H;
      [|injection H as <-; apply (String_of_property_throws _ _ Ed)].
    destruct (get_property fm "imports") as [[| | | |l|]| | |];
      cbn [bind] in H; try discriminate.
    destruct (mapM to_String l) as [l'|e'] eqn:El; cbn [bind] in H; [discriminate|].
    injection H as <-. apply (mapM_throws_in _ _ _ (fun x e' _ Hx => to_String_throws x e' Hx) El).
  - injection H as <-. right. right.
    destruct (require_fields_throws _ _ _ _ G Er) as [field [Hin ->]].
    eexists. split; [reflexivity|].
    right. right. right. apply in_map. exact Hin.
Qed.


Lemma parseSource_body source path program :
  parseSource rt source path = Ok program ->
  exists secondDash,
    body program = trim (slice_from (secondDash + 3) (trim source)).
Proof.
  unfold parseSource. intros H.
  destruct (prefix "---" (trim source)); cbn [negb] in H; [|discriminate].
  destruct (index 3 "---" (trim source)) as [d|]; [|discriminate].
  destruct (yaml_load rt (trim (slice 3 d (trim source)))) as [[fm|]|];
    try discriminate.
  destruct (negb (truthy fm) || negb (typeof fm =? "object")); [discriminate|].
  destruct (require_fields path _ fm); cbn [bind] in H; [|discriminate].
  destruct (String_of_property (get_property fm "name")); cbn [bind] in H;
    [|discriminate].
  destruct (String_of_property (get_property fm "description")); cbn [bind] in H;
    [|discriminate].
  destruct (match get_property fm "imports" with
            | Data (VArr l) => let* l' := mapM to_String l in Ok (Some l')
            | _ => Ok None
            end); cbn [bind] in H; [|discriminate].
  injection H as <-. exists d. reflexivity.
Qed.

End ParserOutcomes.

Lemma require_fields_first path o fields : forall before field after,
  fields = before ++ field :: after ->
  (forall f, In f fields -> In f mandatory) ->
  (forall f, In f before -> obj_get f o <> None) ->
  obj_get field o = None ->
  require_fields path fields (VObj o) = Throw (invalid path (missing_field field)).
Proof.
  induction fields as [|f fields IH]; intros before field after E Hsub Hb Hf.
  - destruct before; discriminate.
  - cbn [require_fields].
    rewrite js_in_mandatory_object by (apply Hsub; left; reflexivity).
    cbn [bind]. destruct before as [|b before]; simpl in E; injection E as -> ->.
    + rewrite Hf. reflexivity.
    + destruct (obj_get b o) eqn:Gb;
        [|exfalso; apply (Hb b); [left; reflexivity|exact Gb]].
      apply (IH before field after eq_refl).
      * intros x Hx. apply Hsub. right. exact Hx.
      * intros x Hx. apply Hb. right. exact Hx.
      * exact Hf.
Qed.

Section ParserFields.
Context (rt : Runtime).

(** X9: the presence check goes through the mandatory fields in the
    order name, description, input, output, and the error names the
    first one that is absent.  A frontmatter that is a YAML sequence
    passes the test for an object and is rejected by this check, with
    the error for a missing name. *)
Theorem parseSource_missing_field source sourcePath secondDash :
  delimited (trim source) secondDash ->
  (forall o before field after,
     yaml_load rt (trim (slice 3 secondDash (trim source))) = Some (Some (VObj o)) ->
     mandatory = before ++ field :: after ->
     (forall f, In f before -> obj_get f o <> None) ->
     obj_get field o = None ->
     parseSource rt source sourcePath
     = Throw (invalid sourcePath (missing_field field)))
  /\ (forall l,
        yaml_load rt (trim (slice 3 secondDash (trim source))) = Some (Some (VArr l)) ->
        parseSource rt source sourcePath
        = Throw (invalid sourcePath (missing_field "name"))).
Proof.
  intros Hd. apply delimited_index in Hd. destruct Hd as [Hp Hi].
  unfold parseSource. fold mandatory. rewrite Hp, Hi. cbn [negb].
  split.
  - intros o before field after Hy E Hb Hf. rewrite Hy.
    replace (negb (truthy (VObj o)) || negb (typeof (VObj o) =? "object"))
      with false by reflexivity.
    rewrite (require_fields_first sourcePath o mandatory before field after E)
      by auto.
    reflexivity.
  - intros l Hy. rewrite Hy. reflexivity.
Qed.

(** X10: what a parsed program holds.  The name and the description
    are the frontmatter's, converted with [String]; [input] and [output]
    are the frontmatter's values as they are, of whatever shape, neither
    checked nor normalised; [imports] is the list of the converted
    entries when the frontmatter gives an array, and is absent when it
    gives anything else, a single path included; the source path is the
    one passed in. *)
Theorem parseSource_fields source path program :
  parseSource rt source path = Ok program ->
  exists secondDash o,
    delimited (trim source) secondDash
    /\ yaml_load rt (trim (slice 3 secondDash (trim source))) = Some (Some (VObj o))
    /\ (exists v, obj_get "name" o = Some v /\ to_String v = Ok (name program))
    /\ (exists v, obj_get "description" o = Some v
                  /\ to_String v = Ok (description program))
    /\ obj_get "input" o = Some (input program)
    /\ obj_get "output" o = Some (output program)
    /\ match obj_get "imports" o with
       | Some (VArr l) =>
           exists paths, mapM to_String l = Ok paths
                         /\ imports program = Some paths
       | _ => imports program = None
       end
    /\ sourcePath program = Some path.
Proof.
  unfold parseSource. fold mandatory. intros H.
  destruct (prefix "---" (trim source)) eqn:Hp; cbn [negb] in H; [|discriminate].
  destruct (index 3 "---" (trim source)) as [d|] eqn:Hi; [|discriminate].
  destruct (yaml_load rt (trim (slice 3 d (trim source)))) as [[fm|]|] eqn:Hy;
    try discriminate.
  destruct (negb (truthy fm) || negb (typeof fm =? "object")) eqn:G;
    [discriminate|].
  destruct (require_fields path mandatory fm) as [u|] eqn:Er; cbn [bind] in H;
    [|discriminate].
  destruct (object_like _ G) as [[o ->]|[l ->]];
    [|exfalso; apply (require_fields_array _ _ _ Er)].
  pose proof (proj1 (require_fields_object path o) (ex_intro _ u Er)) as Hm.
  exists d, o. split; [apply delimited_index; auto|]. split; [exact Hy|].
  rewrite !get_property_plain in H by (unfold mandatory; simpl; tauto).
  destruct (obj_get "name" o) as [vn|] eqn:Gn;
    [|exfalso; apply (Hm "name"); [unfold mandatory; simpl; tauto|exact Gn]].
  destruct (obj_get "description" o) as [vd|] eqn:Gd;
    [|exfalso; apply (Hm "description"); [unfold mandatory; simpl; tauto|exact Gd]].
  destruct (obj_get "input" o) as [vi|] eqn:Gi;
    [|exfalso; apply (Hm "input"); [unfold mandatory; simpl; tauto|exact Gi]].
  destruct (obj_get "output" o) as [vo|] eqn:Go;
    [|exfalso; apply (Hm "output"); [unfold mandatory; simpl; tauto|exact Go]].
  cbn [String_of_property value_of_property] in H.
  destruct (to_String vn) as [nm|] eqn:En; cbn [bind] in H; [|discriminate].
  destruct (to_String vd) as [ds|] eqn:Ed; cbn [bind] in H; [|discriminate].
  destruct (obj_get "imports" o) as [[| | | |l|]|] eqn:Gm;
    cbn [bind] in H;
    try (injection H as <-; simpl;
         split; [exists vn; auto|]; split; [exists vd; auto|]; auto; fail).
  destruct (mapM to_String l) as [paths|] eqn:El; cbn [bind] in H; [|discriminate].
  injection H as <-. simpl.
  split; [exists vn; auto|]. split; [exists vd; auto|].
  split; [reflexivity|]. split; [reflexivity|]. split; [|reflexivity].
  exists paths. auto.
Qed.
End ParserFields.

Lemma parseSource_missing_field_witness :
  parseSource
    (fixture no_files
       (Some (Some (VObj [("name", VStr "greeter"); ("input", VObj [])])))
       no_json always_calls)
    plain_source "<inline>"
  = Throw (invalid "<inline>" (missing_field "description")).
Proof.
  refine (proj1 (parseSource_missing_field
                   (fixture no_files
                      (Some (Some (VObj [("name", VStr "greeter");
                                         ("input", VObj [])])))
                      no_json always_calls)
                   plain_source "<inline>" 18 _)
            [("name", VStr "greeter"); ("input", VObj [])]
            ["name"] "description" ["input"; "output"] eq_refl eq_refl _ eq_refl).
  - apply delimited_index. split; reflexivity.
  - intros f [<-|[]]. discriminate.
Defined.

Lemma parseSource_fields_witness :
  exists secondDash o,
    delimited (trim child_source) secondDash
    /\ yaml_load (stub always_calls)
         (trim (slice 3 secondDash (trim child_source))) = Some (Some (VObj o))
    /\ (exists v, obj_get "name" o = Some v /\ to_String v = Ok (name child_program))
    /\ (exists v, obj_get "description" o = Some v
                  /\ to_String v = Ok (description child_program))
    /\ obj_get "input" o = Some (input child_program)
    /\ obj_get "output" o = Some (output child_program)
    /\ match obj_get "imports" o with
       | Some (VArr l) =>
           exists paths, mapM to_String l = Ok paths
                         /\ imports child_program = Some paths
       | _ => imports child_program = None
       end
    /\ sourcePath child_program = Some "<inline>".
Proof.
  apply (parseSource_fields (stub always_calls) child_source "<inline>" child_program).
  reflexivity.
Defined.

(* ================================================================= *)
(** ** Trimming *)

Section Trimming.

Local Arguments space1 : simpl never.
Local Arguments space2 : simpl never.
Local Arguments space3 : simpl never.

Lemma white_app ws1 ws2 : white ws1 -> white ws2 -> white (ws1 ++ ws2).
Proof.
induction 1 as [|a s Ha _ IH|a b s Hab _ IH|a b c s Habc _ IH]; intros H2; simpl.
- assumption.
- apply white_1; auto.
- apply white_2; auto.
- apply white_3; auto.
Qed.

Lemma all_space_white s : skip_spaces s = "" <-> white s.
Proof.
split.
- intros H. destruct (skip_spaces_split (String.length s) s (le_n _)) as [ws [Hw E]].
  rewrite H, string_app_nil in E. subst. exact Hw.
- intros H. rewrite <- (string_app_nil s). rewrite (skip_white _ H). reflexivity.
Qed.

(** What [trim_end] removes is white space. *)
Lemma trim_end_split s : exists w, white w /\ s = (trim_end s ++ w)%string.
Proof.
induction s as [|a s IH].
- exists "". split; [constructor|reflexivity].
- cbn [trim_end]. unfold all_space.
  destruct (skip_spaces (String a s) =? "") eqn:E.
  + apply String.eqb_eq in E. exists (String a s).
    split; [apply all_space_white; exact E|reflexivity].
  + destruct IH as [w [Hw Es]]. exists w. split; [exact Hw|].
    simpl. rewrite <- Es. reflexivity.
Qed.

Lemma trim_end_idempotent s : trim_end (trim_end s) = trim_end s.
Proof.
induction s as [|a s IH]; [reflexivity|].
cbn [trim_end]. unfold all_space.
destruct (skip_spaces (String a s) =? "") eqn:E; [reflexivity|].
cbn [trim_end]. unfold all_space.
destruct (skip_spaces (String a (trim_end s)) =? "") eqn:E'.
- exfalso. apply String.eqb_eq in E'. apply String.eqb_neq in E. apply E.
  destruct (trim_end_split s) as [w [Hw Es]].
  apply all_space_white. rewrite Es.
  change (String a (trim_end s ++ w)) with (String a (trim_end s) ++ w)%string.
  apply white_app; [apply all_space_white; exact E'|exact Hw].
- rewrite IH. reflexivity.
Qed.

Lemma skip_spaces_length n : forall s,
String.length s <= n -> String.length (skip_spaces s) <= String.length s.
Proof.
intros s _. destruct (skip_spaces_split (String.length s) s (le_n _)) as [ws [_ E]].
rewrite E at 2. rewrite string_length_app. lia.
Qed.

(** A text that begins with no white space begins with none after its
  end was trimmed. *)
Lemma skip_trim_end s : skip_spaces s = s -> skip_spaces (trim_end s) = trim_end s.
Proof.
intros H.
assert (L : forall t, String.length (skip_spaces t) <= String.length t)
  by (intros t; apply (skip_spaces_length (String.length t)); lia).
destruct s as [|a s1]; [reflexivity|].
cbn [trim_end]. unfold all_space. rewrite H. cbn [String.eqb].
replace (String a s1 =? "") with false by reflexivity.
cbn [skip_spaces] in H.
destruct (space1 a) eqn:H1.
{ exfalso. pose proof (L s1) as Hl. rewrite H in Hl. simpl in Hl. lia. }
destruct s1 as [|b s2].
{ cbn [trim_end skip_spaces]. rewrite H1. reflexivity. }
destruct (space2 a b) eqn:H2.
{ exfalso. pose proof (L s2) as Hl. rewrite H in Hl. simpl in Hl. lia. }
cbn [trim_end]. destruct (all_space (String b s2)).
{ cbn [skip_spaces]. rewrite H1. reflexivity. }
destruct s2 as [|c s3].
{ cbn [trim_end skip_spaces]. rewrite H1, H2. reflexivity. }
destruct (space3 a b c) eqn:H3.
{ exfalso. pose proof (L s3) as Hl. rewrite H in Hl. simpl in Hl. lia. }
cbn [trim_end]. destruct (all_space (String c s3)).
{ cbn [skip_spaces]. rewrite H1, H2. reflexivity. }
cbn [skip_spaces]. rewrite H1, H2, H3. reflexivity.
Qed.

Lemma skip_spaces_idempotent n : forall s,
String.length s <= n -> skip_spaces (skip_spaces s) = skip_spaces s.
Proof.
induction n as [|n IH]; intros s Hn.
- destruct s; [reflexivity|simpl in Hn; lia].
- destruct s as [|a s1]; [reflexivity|]. simpl in Hn.
  cbn [skip_spaces]. destruct (space1 a) eqn:H1; [apply IH; lia|].
  destruct s1 as [|b s2]; [cbn [skip_spaces]; rewrite H1; reflexivity|].
  simpl in Hn.
  destruct (space2 a b) eqn:H2; [apply IH; lia|].
  destruct s2 as [|c s3]; [cbn [skip_spaces]; rewrite H1, H2; reflexivity|].
  simpl in Hn.
  destruct (space3 a b c) eqn:H3; [apply IH; lia|].
  cbn [skip_spaces]. rewrite H1, H2, H3. reflexivity.
Qed.

Lemma trim_idempotent s : trim (trim s) = trim s.
Proof.
unfold trim.
rewrite skip_trim_end
  by (apply (skip_spaces_idempotent (String.length s)); lia).
apply trim_end_idempotent.
Qed.

End Trimming.

(** X11: white space around the source does not matter, and a body has
    none around it.  Parsing a source gives what parsing the trimmed
    source gives, so blank lines before the opening delimiter or after
    the body change nothing; and the body of a parsed program is its own
    trimmed form. *)
Theorem parseSource_trims (rt : Runtime) source path :
  parseSource rt (trim source) path = parseSource rt source path
  /\ forall program,
       parseSource rt source path = Ok program ->
       trim (body program) = body program.
Proof.
  split.
  - unfold parseSource. rewrite trim_idempotent. reflexivity.
  - intros program H.
    destruct (parseSource_body rt source path program H) as [d ->].
    apply trim_idempotent.
Qed.

(* ================================================================= *)
(** ** The conversation of a run *)

Lemma own_app c l1 l2 : own c (l1 ++ l2) = own c l1 ++ own c l2.
Proof. unfold own. rewrite filter_app, map_app. reflexivity. Qed.

Lemma own_nested c l : Forall (nested c) l -> own c l = [].
Proof.
  unfold own. induction 1 as [|e l [He _] _ IH]; [reflexivity|].
  simpl. replace (fst e =? c)%nat with false; [exact IH|].
  symmetry. apply Nat.eqb_neq. lia.
Qed.

Lemma own_cons c r l : own c ((c, r) :: l) = r :: own c l.
Proof. unfold own. simpl. rewrite Nat.eqb_refl. reflexivity. Qed.

Lemma tool_messages_cons toolCall calls result results :
  tool_messages (toolCall :: calls) (result :: results)
  = ToolMessage (id toolCall) (JSON_stringify result) :: tool_messages calls results.
Proof. reflexivity. Qed.

Section Conversation.
Context (rt : Runtime).
Variable run : MarkdownlangProgram -> value -> RunOptions -> Action rt value.
Hypothesis run_ok : run_contract run.

(** The calls of one response are answered in order, each result
    becoming one message. *)
Lemma execute_tool_calls_exact c program calls : forall messages w o w',
  c < clients w ->
  execute_tool_calls rt run program calls messages w = (o, w') ->
  tool_effect c w w'
  /\ match o with
     | Returned messages' =>
         exists results,
           answered rt run program calls results
           /\ messages' = messages ++ tool_messages calls results
     | _ => True
     end.
Proof.
  induction calls as [|tc calls IH]; intros messages w o w' Hc H.
  - simpl in H. injection H as <- <-. split; [apply effect_refl|].
    exists []. split; [constructor|]. rewrite app_nil_r. reflexivity.
  - pose proof (execute_tool_calls_effect rt run run_ok c program (tc :: calls)
                  messages w Hc) as E.
    rewrite H in E. simpl in E. split; [exact E|].
    simpl in H. unfold and_then in H.
    pose proof (executeToolCall_effect rt run run_ok c tc program w Hc) as E1.
    destruct (executeToolCall rt run tc program w) as [[v|e|] w1] eqn:Et;
      simpl in E1.
    + destruct (IH _ _ _ _ (Nat.lt_le_trans _ _ _ Hc (proj1 E1)) H) as [_ R].
      destruct o as [messages'| |]; try exact I.
      destruct R as [results [Ha ->]].
      exists (v :: results). split.
      * constructor; [exists w, w1; exact Et|exact Ha].
      * rewrite tool_messages_cons, <- app_assoc. reflexivity.
    + injection H as <- <-. exact I.
    + injection H as <- <-. exact I.
Qed.

(** One pass of the loop: its request, its diagnostics, and the
    messages it hands to the next pass. *)
Lemma turn_exact c m program options strictSchema tools messages w o w' :
  c < clients w ->
  turn rt run program options c m strictSchema tools messages w = (o, w') ->
  clients w <= clients w'
  /\ (exists nest,
        sent w' = sent w ++ (c, request_of program m strictSchema tools messages) :: nest
        /\ Forall (nested c) nest)
  /\ stderr w'
     = stderr w ++ match o with
                   | Returned (Return v) =>
                       if verbose options then [LogResult v] else []
                   | _ => []
                   end
  /\ match o with
     | Returned (Continue messages') =>
         exists choice calls results,
           tool_calls choice = Some calls /\ calls <> []
           /\ answered rt run program calls results
           /\ messages' = messages ++ Assistant choice :: tool_messages calls results
     | _ => True
     end.
Proof.
  intros Hc H. unfold turn, and_then, chat_completions_create in H.
  fold (request_of program m strictSchema tools messages) in H.
  set (req := request_of program m strictSchema tools messages) in *.
  destruct (create rt (remote w) req) as [remote' answer] eqn:Ec.
  set (w1 := {| remote := remote'; clients := clients w;
                sent := sent w ++ [(c, req)]; stderr := stderr w |}) in *.
  assert (Base : forall o0 : outcome flow,
            (forall f, o0 <> Returned f) ->
            clients w <= clients w1
            /\ (exists nest, sent w1 = sent w ++ (c, req) :: nest
                             /\ Forall (nested c) nest)
            /\ stderr w1 = stderr w ++ match o0 with
                                       | Returned (Return v) =>
                                           if verbose options then [LogResult v] else []
                                       | _ => []
                                       end
            /\ match o0 with
               | Returned (Continue messages') =>
                   exists choice calls results,
                     tool_calls choice = Some calls /\ calls <> []
                     /\ answered rt run program calls results
                     /\ messages' = messages ++ Assistant choice
                                      :: tool_messages calls results
               | _ => True
               end).
  { intros o0 Ho. split; [simpl; lia|]. split; [exists []; simpl; auto|].
    destruct o0 as [f| |]; [exfalso; apply (Ho f); reflexivity| |];
      simpl; rewrite app_nil_r; auto. }
  destruct answer as [response|];
    [|injection H as <- <-; apply (Base (Thrown APIError)); discriminate].
  destruct (choices response) as [|choice rest];
    [injection H as <- <-; apply (Base (Thrown TypeError)); discriminate|].
  assert (Final : tool_calls choice = None \/ tool_calls choice = Some [] ->
            match content choice with
            | None | Some EmptyString => throw no_content
            | Some text =>
                match JSON_parse rt text with
                | None => throw SyntaxError
                | Some result =>
                    fun w0 =>
                      match when (verbose options)
                              (console_error [LogResult result]) w0 with
                      | (Returned a, w2) => ret (Return result) w2
                      | (Thrown e, w2) => (Thrown e, w2)
                      | (Unfinished, w2) => (Unfinished, w2)
                      end
                end
            end w1 = (o, w') ->
            clients w <= clients w'
            /\ (exists nest, sent w' = sent w ++ (c, req) :: nest
                             /\ Forall (nested c) nest)
            /\ stderr w' = stderr w ++ match o with
                                       | Returned (Return v) =>
                                           if verbose options then [LogResult v] else []
                                       | _ => []
                                       end
            /\ match o with
               | Returned (Continue messages') =>
                   exists choice calls results,
                     tool_calls choice = Some calls /\ calls <> []
                     /\ answered rt run program calls results
                     /\ messages' = messages ++ Assistant choice
                                      :: tool_messages calls results
               | _ => True
               end).
  { intros _ F.
    destruct (content choice) as [[|a text]|];
      try (injection F as <- <-; apply (Base (Thrown no_content)); discriminate).
    destruct (JSON_parse rt (String a text)) as [result|];
      [|injection F as <- <-; apply (Base (Thrown SyntaxError)); discriminate].
    unfold when, console_error, ret in F.
    destruct (verbose options); injection F as <- <-;
      (split; [simpl; lia|]; split; [exists []; simpl; auto|]; split;
       [simpl; rewrite ?app_nil_r; reflexivity|exact I]). }
  destruct (tool_calls choice) as [[|tc calls]|] eqn:Etc.
  - apply Final; auto.
  - destruct (execute_tool_calls rt run program (tc :: calls)
                (messages ++ [Assistant choice]) w1) as [o1 w2] eqn:Ex.
    destruct (execute_tool_calls_exact c program (tc :: calls) _ w1 o1 w2 Hc Ex)
      as [[C [[new [Hs F]] Q]] R].
    assert (S1 : sent w1 = sent w ++ [(c, req)]) by reflexivity.
    assert (C1 : clients w1 = clients w) by reflexivity.
    assert (Q1 : stderr w1 = stderr w) by reflexivity.
    clearbody w1.
    assert (Sent : exists nest, sent w2 = sent w ++ (c, req) :: nest
                                /\ Forall (nested c) nest).
    { exists new. rewrite Hs, S1, <- app_assoc. auto. }
    destruct o1 as [messages'|e|]; injection H as <- <-.
    + split; [lia|]. split; [exact Sent|]. split.
      * rewrite Q by reflexivity. rewrite Q1, app_nil_r. reflexivity.
      * destruct R as [results [Ha ->]].
        exists choice, (tc :: calls), results.
        split; [exact Etc|]. split; [discriminate|]. split; [exact Ha|].
        rewrite <- app_assoc. reflexivity.
    + split; [lia|]. split; [exact Sent|]. split; [|exact I].
      rewrite Q by reflexivity. rewrite Q1, app_nil_r. reflexivity.
    + split; [lia|]. split; [exact Sent|]. split; [|exact I].
      rewrite Q by reflexivity. rewrite Q1, app_nil_r. reflexivity.
  - apply Final; auto.
Qed.

(** The loop: its own requests form one conversation, and it prints
    the result it returns and nothing else. *)
Lemma agentic_loop_chain c m program options strictSchema tools n :
  forall messages w o w',
  c < clients w ->
  agentic_loop rt run program options c m strictSchema tools n messages w = (o, w') ->
  clients w <= clients w'
  /\ (exists new,
        sent w' = sent w ++ new
        /\ match n with
           | 0 => own c new = []
           | S _ =>
               exists later,
                 own c new
                 = request_of program m strictSchema tools messages :: later
                 /\ chain rt run program
                      (request_of program m strictSchema tools messages) later
                 /\ List.length later < n
           end)
  /\ stderr w'
     = stderr w ++ match o with
                   | Returned v => if verbose options then [LogResult v] else []
                   | _ => []
                   end.
Proof.
  induction n as [|n IH]; intros messages w o w' Hc H.
  - cbn [agentic_loop] in H. injection H as <- <-.
    split; [lia|]. split; [|rewrite app_nil_r; reflexivity].
    exists []. rewrite app_nil_r. auto.
  - cbn [agentic_loop] in H. unfold and_then in H.
    destruct (turn rt run program options c m strictSchema tools messages w)
      as [o1 w1] eqn:Et.
    destruct (turn_exact _ _ _ _ _ _ _ _ _ _ Hc Et) as [C [[nest [Hs F]] [Q R]]].
    set (req := request_of program m strictSchema tools messages) in *.
    assert (One : own c ((c, req) :: nest) = [req])
      by (rewrite own_cons, own_nested by assumption; reflexivity).
    destruct o1 as [[messages'|result]|e|].
    + assert (Hc1 : c < clients w1) by lia.
      destruct (IH _ _ _ _ Hc1 H) as [C2 [[new [Hs2 O2]] Q2]].
      split; [lia|]. split.
      * exists (((c, req) :: nest) ++ new). split.
        -- rewrite Hs2, Hs, <- app_assoc. reflexivity.
        -- rewrite own_app, One.
           destruct R as [choice [calls [results [Etc [Hne [Ha ->]]]]]].
           destruct n as [|n'].
           ++ rewrite O2. exists []. simpl. auto.
           ++ destruct O2 as [later [-> [Hch Hl]]].
              eexists. split; [reflexivity|]. split.
              ** split; [|exact Hch].
                 exists choice, calls, results. auto.
              ** simpl. lia.
      * rewrite Q2, Q, app_nil_r. reflexivity.
    + unfold ret in H. injection H as <- <-.
      split; [lia|]. split; [|exact Q].
      exists ((c, req) :: nest). split; [exact Hs|].
      exists []. rewrite One. simpl. split; [reflexivity|]. split; [exact I|lia].
    + injection H as <- <-.
      split; [lia|]. split; [|exact Q].
      exists ((c, req) :: nest). split; [exact Hs|].
      exists []. rewrite One. simpl. split; [reflexivity|]. split; [exact I|lia].
    + injection H as <- <-.
      split; [lia|]. split; [|exact Q].
      exists ((c, req) :: nest). split; [exact Hs|].
      exists []. rewrite One. simpl. split; [reflexivity|]. split; [exact I|lia].
Qed.
End Conversation.

(* ================================================================= *)
(** ** A run from its setup to its end *)

Section RunFacts.
Context (rt : Runtime).

Lemma agentic_loop_step runf program options c m strictSchema tools n messages w :
  agentic_loop rt runf program options c m strictSchema tools (S n) messages w
  = and_then (turn rt runf program options c m strictSchema tools messages)
      (fun next =>
         match next with
         | Continue messages' =>
             agentic_loop rt runf program options c m strictSchema tools n messages'
         | Return result => ret result
         end) w.
Proof. reflexivity. Qed.

(** The world after [new OpenAI()]. *)
Lemma run_setup_unfold depth program input options w :
  run rt (S depth) program input options w
  = match setup rt program input with
    | Throw e =>
        (Thrown e, {| remote := remote w; clients := S (clients w);
                      sent := sent w; stderr := stderr w |})
    | Ok (prompt, tl, strictSchema) =>
        agentic_loop rt (run rt depth) program options (clients w)
          (chosen_model options) strictSchema tl 10
          [SystemMessage (system_prompt program); UserMessage prompt]
          (loop_world program options prompt strictSchema w)
    end.
Proof.
  unfold setup.
  destruct (renderTemplate (body program) input) as [prompt|e] eqn:E1;
    cbn [bind].
  2: { simpl. unfold run_body, and_then, new_OpenAI, pure. rewrite E1. reflexivity. }
  destruct (resolveImportedTools rt program) as [tl|e] eqn:E2; cbn [bind].
  2: { simpl. unfold run_body, and_then, new_OpenAI, pure. rewrite E1, E2.
       reflexivity. }
  destruct (prepareSchemaForStrictMode (output program)) as [strictSchema|e] eqn:E3;
    cbn [bind].
  2: { simpl. unfold run_body, and_then, new_OpenAI, pure. rewrite E1, E2, E3.
       reflexivity. }
  apply run_unfold; assumption.
Qed.

Lemma loop_world_clients program options prompt strictSchema (w : World rt) :
  clients w < clients (loop_world program options prompt strictSchema w).
Proof. simpl. lia. Qed.

(** X12: nothing reaches the provider before the setup is through.
    When rendering the prompt, loading the imports or normalising the
    output schema throws, the run throws that error with no request
    sent and nothing printed, verbose or not; the first of the three
    to throw decides.  When all three succeed, a request is sent. *)
Theorem run_setup depth program input options w :
  match setup rt program input with
  | Throw e =>
      run rt (S depth) program input options w
      = (Thrown e, {| remote := remote w; clients := S (clients w);
                      sent := sent w; stderr := stderr w |})
  | Ok _ =>
      sent (snd (run rt (S depth) program input options w)) <> sent w
  end.
Proof.
  rewrite run_setup_unfold.
  destruct (setup rt program input) as [[[prompt tl] strictSchema]|e];
    [|reflexivity].
  destruct (agentic_loop rt (run rt depth) program options (clients w)
              (chosen_model options) strictSchema tl 10
              [SystemMessage (system_prompt program); UserMessage prompt]
              (loop_world program options prompt strictSchema w)) as [o w'] eqn:E.
  destruct (agentic_loop_chain rt (run rt depth) (run_contract_holds rt depth)
              _ _ _ _ _ _ _ _ _ _ _ (loop_world_clients _ _ _ _ w) E)
    as [_ [[new [Hs [later [Ho _]]]] _]].
  cbn [snd]. rewrite Hs.
  replace (sent (loop_world program options prompt strictSchema w)) with (sent w)
    by (simpl; destruct (verbose options); reflexivity).
  intros Heq. rewrite <- (app_nil_r (sent w)) in Heq at 2.
  apply app_inv_head in Heq. subst new. discriminate.
Qed.

(** X13: what a run prints.  A run that is not verbose prints
    nothing.  A verbose run whose setup throws prints nothing either;
    otherwise it prints its four opening lines before the first
    request, and the result as a fifth line when it returns one.  The
    runs nested in it, however many, add no line. *)
Theorem run_diagnostics depth program input options w :
  stderr (snd (run rt (S depth) program input options w))
  = stderr w ++
    (if verbose options then
       match setup rt program input with
       | Throw _ => []
       | Ok (prompt, _, strictSchema) =>
           header program options prompt strictSchema
           ++ match fst (run rt (S depth) program input options w) with
              | Returned v => [LogResult v]
              | _ => []
              end
       end
     else []).
Proof.
  rewrite run_setup_unfold.
  destruct (setup rt program input) as [[[prompt tl] strictSchema]|e].
  2: { simpl. destruct (verbose options); rewrite app_nil_r; reflexivity. }
  destruct (agentic_loop rt (run rt depth) program options (clients w)
              (chosen_model options) strictSchema tl 10
              [SystemMessage (system_prompt program); UserMessage prompt]
              (loop_world program options prompt strictSchema w)) as [o w'] eqn:E.
  destruct (agentic_loop_chain rt (run rt depth) (run_contract_holds rt depth)
              _ _ _ _ _ _ _ _ _ _ _ (loop_world_clients _ _ _ _ w) E)
    as [_ [_ Q]].
  cbn [fst snd]. rewrite Q. unfold header. simpl.
  destruct (verbose options).
  - rewrite <- app_assoc. destruct o; reflexivity.
  - destruct o; rewrite !app_nil_r; reflexivity.
Qed.

Lemma run_conversation_aux depth program input options w prompt tl strictSchema :
  setup rt program input = Ok (prompt, tl, strictSchema) ->
  exists new later,
    sent (snd (run rt (S depth) program input options w)) = sent w ++ new
    /\ own (clients w) new
       = first_request program options prompt strictSchema tl :: later
    /\ chain rt (run rt depth) program
         (first_request program options prompt strictSchema tl) later
    /\ List.length later < 10.
Proof.
  intros Hsetup. rewrite run_setup_unfold, Hsetup.
  destruct (agentic_loop rt (run rt depth) program options (clients w)
              (chosen_model options) strictSchema tl 10
              [SystemMessage (system_prompt program); UserMessage prompt]
              (loop_world program options prompt strictSchema w)) as [o w'] eqn:E.
  destruct (agentic_loop_chain rt (run rt depth) (run_contract_holds rt depth)
              _ _ _ _ _ _ _ _ _ _ _ (loop_world_clients _ _ _ _ w) E)
    as [_ [[new [Hs [later [Ho [Hc Hl]]]]] _]].
  exists new, later. cbn [snd]. split.
  - rewrite Hs. destruct (verbose options); reflexivity.
  - split; [exact Ho|]. split; assumption.
Qed.


(** X15: a failure of the provider ends the run.  When the first
    request is refused, the run throws the error of the client; when it
    is answered without any choice, reading the message of the first
    choice throws a TypeError.  In both cases that request is the only
    one sent: nothing is retried. *)
Theorem run_provider_failure depth program input options w prompt tl
    strictSchema remote' answer :
  setup rt program input = Ok (prompt, tl, strictSchema) ->
  create rt (remote w) (first_request program options prompt strictSchema tl)
    = (remote', answer) ->
  match answer with
  | None =>
      fst (run rt (S depth) program input options w) = Thrown APIError
      /\ sent (snd (run rt (S depth) program input options w))
         = sent w ++ [(clients w,
                       first_request program options prompt strictSchema tl)]
  | Some response =>
      choices response = [] ->
      fst (run rt (S depth) program input options w) = Thrown TypeError
      /\ sent (snd (run rt (S depth) program input options w))
         = sent w ++ [(clients w,
                       first_request program options prompt strictSchema tl)]
  end.
Proof.
  intros Hsetup Hc.
  assert (E : forall o,
            (match answer with
             | None => o = Thrown APIError
             | Some response =>
                 choices response = [] -> o = @Thrown value TypeError
             end) ->
            match answer with
            | None => True
            | Some response => choices response = []
            end ->
            run rt (S depth) program input options w
            = (o, {| remote := remote'; clients := S (clients w);
                     sent := sent w ++ [(clients w,
                                         first_request program options prompt
                                           strictSchema tl)];
                     stderr := stderr (loop_world program options prompt
                                         strictSchema w) |})).
  { intros o Ho Hch. rewrite run_setup_unfold, Hsetup.
    rewrite agentic_loop_step. unfold and_then, turn, and_then.
    unfold chat_completions_create.
    unfold first_request in Hc. simpl remote. rewrite Hc.
    destruct answer as [response|].
    - rewrite Hch, (Ho Hch). destruct (verbose options); reflexivity.
    - rewrite Ho. destruct (verbose options); reflexivity. }
  destruct answer as [response|].
  - intros Hch. rewrite (E (Thrown TypeError)) by auto. auto.
  - rewrite (E (Thrown APIError)) by auto. auto.
Qed.

(** X16: what can stop a tool call before its run starts.  The
    imports are loaded one after the other, from the first, until one
    bears the name of the tool.  An import that fails to load on the
    way ends the call with its error, though a later import may bear
    the name; and when the import is found but the arguments are no
    JSON text, the call ends with the SyntaxError of [JSON.parse].  In
    both cases no run is started: the world is as it was. *)
Theorem tool_call_aborts runf toolCall parentProgram before importPath after w :
  imports parentProgram = Some (before ++ importPath :: after) ->
  none_named rt (function_name toolCall) before = true ->
  match parse rt importPath with
  | Throw e =>
      executeToolCall rt runf toolCall parentProgram w = (Thrown e, w)
  | Ok imported =>
      name imported = function_name toolCall ->
      JSON_parse rt (function_arguments toolCall) = None ->
      executeToolCall rt runf toolCall parentProgram w = (Thrown SyntaxError, w)
  end.
Proof.
  intros Hi Hn. unfold executeToolCall. rewrite Hi. clear Hi.
  induction before as [|p before IH]; simpl.
  - unfold and_then, pure. destruct (parse rt importPath) as [imported|e]; simpl.
    + intros -> ->. rewrite String.eqb_refl. reflexivity.
    + reflexivity.
  - simpl in Hn. apply andb_true_iff in Hn. destruct Hn as [Hq Hn].
    unfold and_then, pure. destruct (parse rt p) as [other|e]; [|discriminate].
    simpl. apply negb_true_iff in Hq. rewrite Hq. apply IH. exact Hn.
Qed.

(** X17: the tools a run declares.  A program without imports
    declares none.  Otherwise there is one tool for each import, in the
    order of the imports, with the name and the description of the
    imported program and its normalised input schema as parameters;
    and the tools are resolved exactly when every import loads and
    every input schema normalises. *)
Theorem resolved_tools program :
  match imports program with
  | None => resolveImportedTools rt program = Ok []
  | Some paths =>
      forall tl,
        resolveImportedTools rt program = Ok tl
        <-> Forall2 (fun importPath tool =>
                       exists imported params,
                         parse rt importPath = Ok imported
                         /\ prepareSchemaForStrictMode (input imported) = Ok params
                         /\ tool = {| tool_name := name imported;
                                      tool_description := description imported;
                                      parameters := params |}) paths tl
  end.
Proof.
  unfold resolveImportedTools. destruct (imports program) as [paths|]; [|reflexivity].
  induction paths as [|p paths IH]; intros tl; simpl.
  - split.
    + intros [= <-]. constructor.
    + intros H. inversion H. reflexivity.
  - split.
    + intros H. destruct (parse rt p) as [imported|] eqn:Ep; cbn [bind] in H;
        [|discriminate].
      destruct (prepareSchemaForStrictMode (input imported)) as [params|] eqn:Es;
        cbn [bind] in H; [|discriminate].
      destruct (import_tools rt paths) as [tools|] eqn:Et; cbn [bind] in H;
        [|discriminate].
      injection H as <-. constructor.
      * exists imported, params. auto.
      * apply IH. reflexivity.
    + intros H. inversion H as [|x y xs ys [imported [params [Ep [Es ->]]]] Hrest];
        subst.
      rewrite Ep. cbn [bind]. rewrite Es. cbn [bind].
      apply IH in Hrest. rewrite Hrest. reflexivity.
Qed.
End RunFacts.

(* ================================================================= *)
(** ** What a run sends and how it fails *)

Lemma chain_same (rt : Runtime) runf program (P : Request -> Prop) :
  (forall r r', P r -> schema r' = schema r -> strict r' = strict r -> P r') ->
  forall later r, P r -> chain rt runf program r later -> Forall P (r :: later).
Proof.
  intros HP. induction later as [|r' later IH]; intros r Hr Hc.
  - constructor; [exact Hr|constructor].
  - destruct Hc as [[choice [calls [results [_ [_ [_ ->]]]]]] Hc].
    constructor; [exact Hr|]. apply IH; [|exact Hc].
    apply (HP r); [exact Hr|reflexivity|reflexivity].
Qed.

Lemma setup_inv (rt : Runtime) program input prompt tl strictSchema :
  setup rt program input = Ok (prompt, tl, strictSchema) ->
  renderTemplate (body program) input = Ok prompt
  /\ resolveImportedTools rt program = Ok tl
  /\ prepareSchemaForStrictMode (output program) = Ok strictSchema.
Proof.
  unfold setup.
  destruct (renderTemplate (body program) input); cbn [bind]; [|discriminate].
  destruct (resolveImportedTools rt program); cbn [bind]; [|discriminate].
  destruct (prepareSchemaForStrictMode (output program)); cbn [bind]; [|discriminate].
  intros [= <- <- <-]. auto.
Qed.

Lemma substitute_throws data text key e :
  substitute data text key = Throw e -> e = TypeError.
Proof.
  unfold substitute.
  destruct (js_in key data) as [found|e'] eqn:E; cbn [bind].
  - destruct found; [|discriminate].
    destruct (get_property data key) as [v| | |]; try discriminate.
    destruct (typeof v =? "object"); [discriminate|]. apply to_String_throws.
  - intros [= <-]. destruct data; simpl in E; try discriminate;
      injection E as <-; reflexivity.
Qed.

Lemma replace_throws data s : forall skip e,
  replace_tokens (substitute data) skip s = Throw e -> e = TypeError.
Proof.
  induction s as [|a s IH]; intros skip e H; [discriminate|].
  destruct skip as [|n]; [|simpl in H; apply (IH _ _ H)].
  cbn [replace_tokens] in H.
  destruct (match_token (String a s)) as [[key rest]|].
  - destruct (substitute data _ key) as [r|e'] eqn:Es; cbn [bind] in H.
    + destruct (replace_tokens (substitute data) _ s) as [out|e'] eqn:Er;
        cbn [bind] in H; [discriminate|].
      injection H as <-. apply (IH _ _ Er).
    + injection H as <-. apply (substitute_throws _ _ _ _ Es).
  - destruct (replace_tokens (substitute data) 0 s) as [out|e'] eqn:Er;
      cbn [bind] in H; [discriminate|].
    injection H as <-. apply (IH _ _ Er).
Qed.

Section RunErrors.
Context (rt : Runtime).

Lemma parse_known filePath e : parse rt filePath = Throw e -> known_error e.
Proof.
  unfold parse.
  destruct (readFileSync rt (path_resolve rt filePath)) as [content|];
    [|intros [= <-]; exact I].
  intros H. destruct (parseSource_throws _ _ _ _ H) as [->|[->|[reason [-> Hr]]]];
    try exact I.
  unfold invalid. simpl. right. right. right. right.
  exists (path_resolve rt filePath), reason. auto.
Qed.

Lemma import_tools_known paths e :
  import_tools rt paths = Throw e -> known_error e.
Proof.
  induction paths as [|p paths IH]; simpl; [discriminate|].
  destruct (parse rt p) as [imported|e'] eqn:Ep; cbn [bind];
    [|intros [= <-]; apply (parse_known _ _ Ep)].
  destruct (prepareSchemaForStrictMode (input imported)) as [params|e'] eqn:Es;
    cbn [bind]; [|intros [= <-]; rewrite (prepare_throws _ _ Es); exact I].
  destruct (import_tools rt paths) as [tools|e']; cbn [bind]; [discriminate|].
  intros [= <-]. apply IH. reflexivity.
Qed.

Lemma setup_known program input e :
  setup rt program input = Throw e -> known_error e.
Proof.
  unfold setup, renderTemplate.
  destruct (replace_tokens (substitute input) 0 (body program)) as [prompt|e'] eqn:E1;
    cbn [bind]; [|intros [= <-]; rewrite (replace_throws _ _ _ _ E1); exact I].
  destruct (resolveImportedTools rt program) as [tl|e'] eqn:E2; cbn [bind].
  - destruct (prepareSchemaForStrictMode (output program)) as [s|e'] eqn:E3;
      cbn [bind]; [discriminate|].
    intros [= <-]. rewrite (prepare_throws _ _ E3). exact I.
  - intros [= <-]. unfold resolveImportedTools in E2.
    destruct (imports program); [|discriminate].
    apply (import_tools_known _ _ E2).
Qed.

Section NestedErrors.
Variable runf : MarkdownlangProgram -> value -> RunOptions -> Action rt value.
Hypothesis runf_known :
  forall program input options w e,
    fst (runf program input options w) = Thrown e -> known_error e.

Lemma find_import_known toolCall paths w e :
  fst (find_import rt runf toolCall paths w) = Thrown e -> known_error e.
Proof.
  induction paths as [|p paths IH]; simpl.
  - intros [= <-]. simpl. right. right. right. left.
    exists (function_name toolCall). reflexivity.
  - unfold and_then, pure.
    destruct (parse rt p) as [imported|e'] eqn:Ep; simpl;
      [|intros [= <-]; apply (parse_known _ _ Ep)].
    destruct (name imported =? function_name toolCall); [|exact IH].
    destruct (JSON_parse rt (function_arguments toolCall)) as [args|]; simpl;
      [apply runf_known|intros [= <-]; exact I].
Qed.

Lemma executeToolCall_known toolCall program w e :
  fst (executeToolCall rt runf toolCall program w) = Thrown e -> known_error e.
Proof.
  unfold executeToolCall. destruct (imports program).
  - apply find_import_known.
  - intros [= <-]. simpl. right. right. left.
    exists (function_name toolCall). reflexivity.
Qed.

Lemma execute_tool_calls_known program calls : forall messages w e,
  fst (execute_tool_calls rt runf program calls messages w) = Thrown e ->
  known_error e.
Proof.
  induction calls as [|tc calls IH]; intros messages w e; simpl.
  - discriminate.
  - unfold and_then.
    pose proof (executeToolCall_known tc program w) as K.
    destruct (executeToolCall rt runf tc program w) as [[v|e'|] w1]; simpl in *.
    + apply IH.
    + intros [= <-]. apply K. reflexivity.
    + discriminate.
Qed.

Lemma turn_known program options c m strictSchema tools messages w e :
  fst (turn rt runf program options c m strictSchema tools messages w) = Thrown e ->
  known_error e.
Proof.
  destruct (turn rt runf program options c m strictSchema tools messages w)
    as [o w'] eqn:Et.
  cbn [fst]. intros ->.
  unfold turn, and_then, chat_completions_create in Et.
  destruct (create rt (remote w) _) as [remote' answer].
  destruct answer as [response|]; [|injection Et as <- _; exact I].
  destruct (choices response) as [|choice rest];
    [injection Et as <- _; exact I|].
  assert (Final : forall w0 : World rt,
            match content choice with
            | None | Some EmptyString => throw no_content
            | Some text =>
                match JSON_parse rt text with
                | None => throw SyntaxError
                | Some result =>
                    fun w1 : World rt =>
                      match when (verbose options)
                              (console_error [LogResult result]) w1 with
                      | (Returned a, w2) => ret (Return result) w2
                      | (Thrown e, w2) => (Thrown e, w2)
                      | (Unfinished, w2) => (Unfinished, w2)
                      end
                end
            end w0 = (Thrown e, w') -> known_error e).
  { intros w0 F.
    destruct (content choice) as [[|a text]|];
      try (injection F as <- _; simpl; left; reflexivity).
    destruct (JSON_parse rt (String a text)); [|injection F as <- _; exact I].
    unfold when, console_error, ret in F. destruct (verbose options); discriminate. }
  destruct (tool_calls choice) as [[|tc calls]|]; try (apply (Final _ Et)).
  match type of Et with
  | context [execute_tool_calls rt runf program ?cs ?ms ?w0] =>
      pose proof (execute_tool_calls_known program cs ms w0) as K;
      destruct (execute_tool_calls rt runf program cs ms w0) as [[ms'|e'|] w2]
  end; try discriminate.
  injection Et as <- _. apply K. reflexivity.
Qed.

Lemma agentic_loop_known program options c m strictSchema tools n :
  forall messages w e,
  fst (agentic_loop rt runf program options c m strictSchema tools n messages w)
  = Thrown e ->
  known_error e.
Proof.
  induction n as [|n IH]; intros messages w e.
  - simpl. intros [= <-]. simpl. right. left. reflexivity.
  - rewrite agentic_loop_step. unfold and_then.
    pose proof (turn_known program options c m strictSchema tools messages w) as K.
    destruct (turn rt runf program options c m strictSchema tools messages w)
      as [[[messages'|result]|e'|] w1]; simpl in *.
    + apply IH.
    + discriminate.
    + intros [= <-]. apply K. reflexivity.
    + discriminate.
Qed.
End NestedErrors.

Lemma run_known depth : forall program input options w e,
  fst (run rt depth program input options w) = Thrown e -> known_error e.
Proof.
  induction depth as [|depth IH]; intros program input options w e.
  - simpl. discriminate.
  - rewrite run_setup_unfold.
    destruct (setup rt program input) as [[[prompt tl] strictSchema]|e'] eqn:Es.
    + apply agentic_loop_known. exact IH.
    + simpl. intros [= <-]. apply (setup_known _ _ _ Es).
Qed.

(** The pass of the loop that returns. *)
Lemma turn_returns runf program options c m strictSchema tools messages w v w' :
  turn rt runf program options c m strictSchema tools messages w
  = (Returned (Return v), w') ->
  exists st' response choice rest text,
    create rt (remote w) (request_of program m strictSchema tools messages)
    = (st', Some response)
    /\ choices response = choice :: rest
    /\ (tool_calls choice = None \/ tool_calls choice = Some [])
    /\ content choice = Some text /\ text <> ""
    /\ JSON_parse rt text = Some v.
Proof.
  intros Et. unfold turn, and_then, chat_completions_create in Et.
  fold (request_of program m strictSchema tools messages) in Et.
  destruct (create rt (remote w) (request_of program m strictSchema tools messages))
    as [st' answer] eqn:Ec.
  destruct answer as [response|]; [|discriminate].
  destruct (choices response) as [|choice rest] eqn:Ech; [discriminate|].
  assert (Final : tool_calls choice = None \/ tool_calls choice = Some [] ->
            forall (w0 : World rt) (k : Action rt flow),
            k = match content choice with
                | None | Some EmptyString => throw no_content
                | Some text =>
                    match JSON_parse rt text with
                    | None => throw SyntaxError
                    | Some result =>
                        and_then (when (verbose options)
                                    (console_error [LogResult result]))
                                 (fun _ => ret (Return result))
                    end
                end ->
            k w0 = (Returned (Return v), w') ->
            exists text,
              content choice = Some text /\ text <> ""
              /\ JSON_parse rt text = Some v).
  { intros Htc w0 k -> F.
    destruct (content choice) as [[|a text]|] eqn:Eco; try discriminate.
    destruct (JSON_parse rt (String a text)) as [result|] eqn:Ej; [|discriminate].
    unfold and_then, when, console_error, ret in F.
    assert (result = v) as -> by (destruct (verbose options); congruence).
    exists (String a text). repeat split; auto. discriminate. }
  destruct (tool_calls choice) as [[|tc calls]|] eqn:Etc.
  - destruct (Final (or_intror eq_refl) _ _ eq_refl Et) as [text K].
    exists st', response, choice, rest, text. auto.
  - destruct (execute_tool_calls rt runf program (tc :: calls)
                (messages ++ [Assistant choice]) _) as [[ms|e|] w2]; discriminate.
  - destruct (Final (or_introl eq_refl) _ _ eq_refl Et) as [text K].
    exists st', response, choice, rest, text. auto.
Qed.

Lemma agentic_loop_returns runf program options c m strictSchema tools n :
  forall messages w v w',
  agentic_loop rt runf program options c m strictSchema tools n messages w
  = (Returned v, w') ->
  exists messages' st st' response choice rest text,
    create rt st (request_of program m strictSchema tools messages')
    = (st', Some response)
    /\ choices response = choice :: rest
    /\ (tool_calls choice = None \/ tool_calls choice = Some [])
    /\ content choice = Some text /\ text <> ""
    /\ JSON_parse rt text = Some v.
Proof.
  induction n as [|n IH]; intros messages w v w' H; [discriminate|].
  rewrite agentic_loop_step in H. unfold and_then in H.
  destruct (turn rt runf program options c m strictSchema tools messages w)
    as [[[messages'|result]|e|] w1] eqn:Et; try discriminate.
  - apply (IH _ _ _ _ H).
  - unfold ret in H. injection H as -> ->.
    destruct (turn_returns _ _ _ _ _ _ _ _ _ _ _ Et)
      as [st' [response [choice [rest [text K]]]]].
    exists messages, (remote w), st', response, choice, rest, text. exact K.
Qed.

(** X28: what a run returns.  A value returned by a run is the result
    of [JSON.parse] on the content, not empty, of a message without
    tool calls with which the provider answered one of the requests of
    that run; and a run that returns has come through its setup. *)
Theorem run_returns depth program input options w v :
  fst (run rt (S depth) program input options w) = Returned v ->
  exists prompt tl strictSchema messages st st' response choice rest text,
    setup rt program input = Ok (prompt, tl, strictSchema)
    /\ create rt st
         (request_of program (chosen_model options) strictSchema tl messages)
       = (st', Some response)
    /\ choices response = choice :: rest
    /\ (tool_calls choice = None \/ tool_calls choice = Some [])
    /\ content choice = Some text /\ text <> ""
    /\ JSON_parse rt text = Some v.
Proof.
  rewrite run_setup_unfold.
  destruct (setup rt program input) as [[[prompt tl] strictSchema]|e];
    [|discriminate].
  intros H.
  destruct (agentic_loop rt (run rt depth) program options (clients w)
              (chosen_model options) strictSchema tl 10
              [SystemMessage (system_prompt program); UserMessage prompt]
              (loop_world program options prompt strictSchema w)) as [o w'] eqn:E.
  cbn [fst] in H. subst o.
  destruct (agentic_loop_returns _ _ _ _ _ _ _ _ _ _ _ _ E)
    as [messages [st [st' [response [choice [rest [text K]]]]]]].
  exists prompt, tl, strictSchema, messages, st, st', response, choice, rest, text.
  split; [reflexivity|exact K].
Qed.

(** X25: how a run can fail.  An error thrown by a run, at whatever
    depth of nested tool calls it arose, is an exception of the
    language or of a library (TypeError, SyntaxError, the exceptions of
    the YAML loader, of the file system and of the client) or one of
    five errors of the program: no response content, the iteration
    limit, a tool call without imports, an unknown tool, or an invalid
    program file with one of the parser's reasons.  No other message is
    ever raised. *)
Theorem run_errors depth program input options w e :
  fst (run rt depth program input options w) = Thrown e -> known_error e.
Proof. apply run_known. Qed.

(** X26: what the provider is asked to enforce.  When the output
    schema of the program declares no property named [__proto__], every
    request of the run asks for strict mode with a schema that is strict
    and stripped of unsupported keywords at every depth the normaliser
    reaches. *)
Theorem run_sends_strict_schema depth program input options w :
  well_formed (output program) = true ->
  is_schema (output program) = true ->
  proto_free (output program) = true ->
  exists new,
    sent (snd (run rt (S depth) program input options w)) = sent w ++ new
    /\ Forall (fun r => strict r = true /\ Strict (schema r) /\ Stripped (schema r))
              (own (clients w) new).
Proof.
  intros Hw Hs Hp.
  destruct (setup rt program input) as [[[prompt tl] strictSchema]|e] eqn:Es.
  - destruct (run_conversation_aux rt depth program input options w prompt tl
                strictSchema Es) as [new [later [Hn [Ho [Hc _]]]]].
    exists new. split; [exact Hn|]. rewrite Ho.
    destruct (setup_inv _ _ _ _ _ _ Es) as [_ [_ Hout]].
    destruct (strict_fuel _ (output program) (Nat.lt_succ_diag_r _) Hw Hs Hp)
      as [r1 [Hr1 S1]].
    destruct (stripped_fuel _ (output program) (Nat.lt_succ_diag_r _) Hw Hs)
      as [r2 [Hr2 S2]].
    rewrite Hout in Hr1, Hr2. injection Hr1 as <-. injection Hr2 as <-.
    apply (chain_same rt (run rt depth) program
             (fun r => strict r = true /\ Strict (schema r) /\ Stripped (schema r)));
      [|simpl; auto|exact Hc].
    intros r r' [H1 [H2 H3]] E1 E2. rewrite E1, E2. auto.
  - exists []. rewrite app_nil_r. split; [|constructor].
    pose proof (run_setup_unfold rt depth program input options w) as U.
    rewrite Es in U. rewrite U. reflexivity.
Qed.
End RunErrors.

(* ----------------------------------------------------------------- *)
(** *** The theorems at work on the test doubles *)


Lemma run_provider_failure_witness :
  fst (run (stub silent) 1 lonely (VObj []) no_options (start silent))
  = Thrown TypeError
  /\ sent (snd (run (stub silent) 1 lonely (VObj []) no_options (start silent)))
     = sent (start silent)
       ++ [(clients (start silent),
            first_request lonely no_options "Answer {{ .question }}"
              answer_strict [])].
Proof.
  refine (run_provider_failure (stub silent) 0 lonely (VObj []) no_options
            (start silent) "Answer {{ .question }}" [] answer_strict tt
            (Some {| choices := [] |}) _ _ _); reflexivity.
Defined.

Lemma tool_call_aborts_witness :
  executeToolCall (stub always_calls) (run (stub always_calls) 1) bad_call parent
    (start always_calls)
  = (Thrown SyntaxError, start always_calls).
Proof.
  refine (tool_call_aborts (stub always_calls) (run (stub always_calls) 1)
            bad_call parent [] "child.mdlang" [] (start always_calls)
            _ _ _ _); reflexivity.
Defined.

Lemma one_round_trip_under_tool_calls_witness :
  (forall v,
     fst (run (stub always_calls) 3 parent (VObj []) no_options (start always_calls))
     <> Returned v)
  /\ exists new,
       sent (snd (run (stub always_calls) 3 parent (VObj []) no_options
                    (start always_calls)))
       = sent (start always_calls) ++ new
       /\ round_trips (clients (start always_calls)) new <= 1.
Proof.
  apply (one_round_trip_under_tool_calls (stub always_calls)).
  intros st request. do 5 eexists. split; reflexivity.
Defined.

Lemma run_errors_witness : known_error (no_imports "child").
Proof.
  apply (run_errors (stub always_calls) 2 lonely (VObj []) no_options
           (start always_calls) (no_imports "child")).
  reflexivity.
Defined.

Lemma run_sends_strict_schema_witness :
  exists new,
    sent (snd (run (stub delegating) 2 parent (VObj []) loud (start delegating)))
    = sent (start delegating) ++ new
    /\ Forall (fun r => strict r = true /\ Strict (schema r) /\ Stripped (schema r))
              (own (clients (start delegating)) new).
Proof.
  apply (run_sends_strict_schema (stub delegating) 1 parent (VObj []) loud
           (start delegating)); reflexivity.
Defined.

Lemma run_returns_witness :
  exists prompt tl strictSchema messages st st' response choice rest text,
    setup (stub (fun _ => says (Some "{}"))) lonely (VObj [])
    = Ok (prompt, tl, strictSchema)
    /\ create (stub (fun _ => says (Some "{}"))) st
         (request_of lonely (chosen_model no_options) strictSchema tl messages)
       = (st', Some response)
    /\ choices response = choice :: rest
    /\ (tool_calls choice = None \/ tool_calls choice = Some [])
    /\ content choice = Some text /\ text <> ""
    /\ JSON_parse (stub (fun _ => says (Some "{}"))) text = Some (VObj []).
Proof.
  apply (run_returns (stub (fun _ => says (Some "{}"))) 0 lonely (VObj []) no_options
           (start (fun _ => says (Some "{}"))) (VObj [])).
  reflexivity.
Defined.

(* ================================================================= *)
(** ** The commands *)

(** The loop over the required fields writes nothing when it lets the
    action go on, and leaves the process only after two lines. *)
Lemma check_required_lines required fields data :
  match check_required required fields data with
  | (lines, Go) => lines = []
  | (lines, Raise _) => True
  | (lines, Stop code) => code = 1 /\ lines <> []
  end.
Proof.
  induction fields as [|field rest IH]; simpl; [reflexivity|].
  destruct (to_String field) as [key|e]; cbn [bind]; [|exact I].
  destruct (js_in key data) as [[|]|e]; cbn [bind]; [exact IH| |exact I].
  destruct (join_required required); [|exact I].
  split; [reflexivity|discriminate].
Qed.

Lemma validate_lines prog data :
  match validate prog data with
  | (lines, Go) => lines = []
  | (lines, Raise _) => True
  | (lines, Stop code) => code = 1 /\ lines <> []
  end.
Proof.
  unfold validate.
  assert (K : forall schema,
            match
              match get_property schema "required" with
              | Data required =>
                  if truthy required then
                    match required with
                    | VArr l => check_required required l data
                    | VStr s => check_required required (chars s) data
                    | _ => ([], Raise TypeError)
                    end
                  else ([], Go)
              | Undefined => ([], Go)
              | Native _ | Proto _ => ([], Raise TypeError)
              end
            with
            | (lines, Go) => lines = []
            | (lines, Raise _) => True
            | (lines, Stop code) => code = 1 /\ lines <> []
            end).
  { intros schema. destruct (get_property schema "required") as [required| | |];
      try exact I; try reflexivity.
    destruct (truthy required); [|reflexivity].
    destruct required; try exact I; apply check_required_lines. }
  destruct (input prog); try apply K. exact I.
Qed.

Section Commands.
Context (rt : Runtime).


(** X19: no request before the checks.  Unless the file parses, the
    input is JSON text and the loop over the required fields lets the
    action go on, the [run] command leaves the world as it found it,
    with no client made and no request sent, and exits with status 1. *)
Theorem run_command_gate depth file opts w :
  (forall prog data,
     parse rt file = Ok prog ->
     JSON_parse rt (cli_input opts) = Some data ->
     snd (validate prog data) <> Go) ->
  snd (run_command rt depth file opts w) = w
  /\ fst (fst (run_command rt depth file opts w)) = Exited 1.
Proof.
  intros H. unfold run_command.
  destruct (parse rt file) as [prog|e]; [|auto].
  destruct (JSON_parse rt (cli_input opts)) as [data|]; [|auto].
  specialize (H prog data eq_refl eq_refl).
  pose proof (validate_lines prog data) as V.
  destruct (validate prog data) as [lines [|e|code]]; simpl in *.
  - exfalso. apply H. reflexivity.
  - auto.
  - destruct V as [-> _]. auto.
Qed.
End Commands.

(* ----------------------------------------------------------------- *)
(** *** The check of the required input fields *)

Lemma join_names names :
  join_required (VArr (map VStr names)) = Ok (String.concat ", " names).
Proof.
  unfold join_required, Array_join.
  assert (M : mapM (fun x => match x with VNull => Ok "" | _ => to_String x end)
                (map VStr names) = Ok names).
  { induction names as [|n names IH]; [reflexivity|].
    simpl. rewrite IH. reflexivity. }
  rewrite M. reflexivity.
Qed.

Lemma check_required_pass required names data :
  Forall (fun n => js_in n data = Ok true) names ->
  check_required required (map VStr names) data = ([], Go).
Proof.
  induction 1 as [|n names Hn _ IH]; [reflexivity|].
  simpl. rewrite Hn. cbn [bind]. exact IH.
Qed.

Lemma check_required_stop required before field after data :
  Forall (fun n => js_in n data = Ok true) before ->
  js_in field data = Ok false ->
  check_required required (map VStr (before ++ field :: after)) data
  = match join_required required with
    | Throw e => ([missing_input field], Raise e)
    | Ok joined =>
        ([missing_input field; Line ("Required fields: " ++ joined)], Stop 1)
    end.
Proof.
  intros Hb Hf. induction Hb as [|n before Hn _ IH].
  - simpl. rewrite Hf. reflexivity.
  - simpl. rewrite Hn. cbn [bind]. exact IH.
Qed.

(** X20: the check of the required fields, for an input schema that
    lists them by name.  Every name is looked up with [in]: a key of the
    input data passes, and so does any name that objects inherit, such
    as [toString], whether the data hold it or not.  When all names
    pass, nothing is written and the action goes on.  Otherwise the
    first name that fails, in the order of the list, is reported on one
    line, the whole list joined with ", " on a second, and the process
    is left with status 1. *)
Theorem validate_required prog schema names data :
  input prog = VObj schema ->
  obj_get "required" schema = Some (VArr (map VStr names)) ->
  (Forall (fun n => js_in n data = Ok true) names ->
   validate prog data = ([], Go))
  /\ (forall before field after,
        names = before ++ field :: after ->
        Forall (fun n => js_in n data = Ok true) before ->
        js_in field data = Ok false ->
        validate prog data
        = ([ missing_input field;
             Line ("Required fields: " ++ String.concat ", " names) ], Stop 1))
  /\ (forall o n,
        data = VObj o ->
        obj_get n o <> None \/ In n Object_prototype_names ->
        js_in n data = Ok true).
Proof.
  intros Hi Hr.
  assert (V : validate prog data
              = check_required (VArr (map VStr names)) (map VStr names) data).
  { unfold validate. rewrite Hi. simpl. rewrite Hr. reflexivity. }
  split; [|split].
  - intros H. rewrite V. apply check_required_pass. exact H.
  - intros before field after -> Hb Hf. rewrite V.
    rewrite (check_required_stop _ before field after data Hb Hf), join_names.
    reflexivity.
  - intros o n -> H. unfold js_in, get_property.
    destruct (obj_get n o) as [v|] eqn:G; [reflexivity|].
    destruct H as [H|H]; [exfalso; apply H; reflexivity|].
    destruct (n =? "__proto__"); [reflexivity|].
    destruct (n =? "constructor"); [reflexivity|].
    replace (mem n Object_prototype_names) with true; [reflexivity|].
    symmetry. unfold mem. apply existsb_exists. exists n.
    split; [exact H|apply String.eqb_refl].
Qed.

Section CommandModel.
Context (rt : Runtime).

(** X21: what the options of the command line reach.  The model given
    with the command names the requests of the program that was run,
    at most ten of them; the requests of the programs it calls as tools
    name "gpt-4o-mini" whatever was given.  Without the verbose flag
    the run writes no diagnostics. *)
Theorem run_command_options depth file opts w :
  (exists new,
     sent (snd (run_command rt depth file opts w)) = sent w ++ new
     /\ Forall (fun e =>
                  (fst e = clients w /\ request_model (snd e) = cli_model opts)
                  \/ (fst e <> clients w /\ request_model (snd e) = "gpt-4o-mini"))
               new
     /\ round_trips (clients w) new <= 10)
  /\ (cli_verbose opts = false ->
      stderr (snd (run_command rt depth file opts w)) = stderr w).
Proof.
  assert (Same : (exists new,
                    sent w = sent w ++ new
                    /\ Forall (fun e =>
                                 (fst e = clients w
                                  /\ request_model (snd e) = cli_model opts)
                                 \/ (fst e <> clients w
                                     /\ request_model (snd e) = "gpt-4o-mini"))
                              new
                    /\ round_trips (clients w) new <= 10)
                 /\ (cli_verbose opts = false -> stderr w = stderr w)).
  { split; [|reflexivity]. exists []. rewrite app_nil_r.
    split; [reflexivity|]. split; [constructor|]. unfold round_trips. simpl. lia. }
  unfold run_command.
  destruct (parse rt file) as [prog|e]; [|exact Same].
  destruct (JSON_parse rt (cli_input opts)) as [data|]; [|exact Same].
  destruct (validate prog data) as [lines [|e|code]]; try exact Same.
  assert (R : (exists new,
                 sent (snd (run rt depth prog data (run_options opts) w))
                 = sent w ++ new
                 /\ Forall (fun e =>
                              (fst e = clients w
                               /\ request_model (snd e) = cli_model opts)
                              \/ (fst e <> clients w
                                  /\ request_model (snd e) = "gpt-4o-mini"))
                           new
                 /\ round_trips (clients w) new <= 10)
              /\ (cli_verbose opts = false ->
                  stderr (snd (run rt depth prog data (run_options opts) w))
                  = stderr w)).
  { split.
    - destruct (run_requests rt depth prog data (run_options opts) w)
        as [new [Hs [F Hr]]].
      exists new. split; [exact Hs|]. split; [|exact Hr].
      revert F. apply Forall_impl. intros e [[H1 H2]|[H1 H2]].
      + left. auto.
      + right. split; [lia|exact H2].
    - intros Hv.
      destruct (run_contract_holds rt depth prog data (run_options opts) w)
        as [_ [_ Q]].
      apply Q. simpl. rewrite Hv. reflexivity. }
  destruct (run rt depth prog data (run_options opts) w) as [[result|e|] w'];
    exact R.
Qed.
End CommandModel.

(* ----------------------------------------------------------------- *)
(** *** The commands on a program with a required field *)

Lemma validate_required_witness :
  validate greeter (VObj [])
  = ([ missing_input "who"; Line "Required fields: who" ], Stop 1).
Proof.
  refine (proj1 (proj2 (validate_required greeter greeter_input ["who"] (VObj [])
                          _ _))
            [] "who" [] _ _ _).
  - reflexivity.
  - reflexivity.
  - reflexivity.
  - constructor.
  - reflexivity.
Defined.

Lemma run_command_gate_witness :
  snd (run_command office 3 "greeter.mdlang" loud_options office_start) = office_start
  /\ fst (fst (run_command office 3 "greeter.mdlang" loud_options office_start))
     = Exited 1.
Proof.
  apply (run_command_gate office 3 "greeter.mdlang" loud_options office_start).
  intros prog data Hp Hj.
  vm_compute in Hp. injection Hp as <-.
  vm_compute in Hj. injection Hj as <-.
  vm_compute. discriminate.
Defined.
